(** * FocusNook: persistence layer, session recovery, task normalisation

    A shallow embedding of the parts of the FocusNook single-page
    application that carry a contract:

    - [services/googleDrive.js]: the Google Drive storage adapter (token
      life cycle, backing-file resolution, cached document, debounced
      writes);
    - [services/todoistApi.js]: the Todoist client's [request] and
      [getTasks] (both revisions found in the repository);
    - [App.jsx]: the boot sequence, the bulk load and the write-through
      effects of the application shell.

    JavaScript values are an inductive type, JS objects used as maps are
    [gmap string _], module-level variables and the browser are fields of
    one [world] record threaded through a state-and-exception monad, and
    every promise is run to completion at the point where it is awaited. *)

From Stdlib Require Import ZArith Ascii String List Lia Bool.
From stdpp Require Import base option numbers strings list gmap fin_maps pretty.

Local Open Scope string_scope.
Local Open Scope Z_scope.

(* ===================================================================== *)
(** ** JavaScript values *)
(* ===================================================================== *)

(** Numbers are restricted to the integers: every number the modelled code
    computes with is a millisecond timestamp or an HTTP status. *)
#[warnings="-register-all"]
Inductive value : Type :=
| VUndefined
| VNull
| VBool (b : bool)
| VNum (n : Z)
| VStr (s : string)
| VArr (items : list value)
| VObj (fields : list (string * value)).

(** [ToBoolean]: the falsy values are [undefined], [null], [false], [0]
    and the empty string. *)
Definition truthy (v : value) : bool :=
  match v with
  | VUndefined | VNull => false
  | VBool b => b
  | VNum n => negb (n =? 0)
  | VStr s => negb (String.eqb s "")
  | VArr _ | VObj _ => true
  end.

(** [a || b] *)
Definition js_or (a b : value) : value := if truthy a then a else b.

(** [a ?? b] *)
Definition nullish (v : value) : bool :=
  match v with VUndefined | VNull => true | _ => false end.

Definition js_coalesce (a b : value) : value := if nullish a then b else a.

(** Property read [o.k] on a value: [undefined] when the property is
    absent or the value has no own properties. *)
Fixpoint assoc (k : string) (fields : list (string * value)) : value :=
  match fields with
  | [] => VUndefined
  | (k', v) :: rest => if String.eqb k k' then v else assoc k rest
  end.

Definition prop (k : string) (o : value) : value :=
  match o with
  | VObj fields => assoc k fields
  | _ => VUndefined
  end.

(** A nullable string ([null] or a string), as [localStorage.getItem]
    returns it and as the module variables hold it. *)
Definition truthy_str (s : option string) : bool :=
  match s with
  | Some s => negb (String.eqb s "")
  | None => false
  end.

(** What [JSON.parse (JSON.stringify v)] gives back when [v] is the value
    of an object property or the whole argument: [undefined] inside an array becomes
    [null], a property whose value is [undefined] is dropped. *)
Fixpoint jsonify (v : value) : value :=
  match v with
  | VArr items =>
      VArr (map (fun x => match x with VUndefined => VNull | _ => jsonify x end) items)
  | VObj fields =>
      VObj ((fix go (l : list (string * value)) : list (string * value) :=
               match l with
               | [] => []
               | (k, x) :: rest =>
                   match x with
                   | VUndefined => go rest
                   | _ => (k, jsonify x) :: go rest
                   end
               end) fields)
  | _ => v
  end.

(** JSON-serializable: no [undefined] anywhere inside. *)
Fixpoint json_serializable (v : value) : bool :=
  match v with
  | VUndefined => false
  | VArr items => forallb json_serializable items
  | VObj fields =>
      (fix go (l : list (string * value)) : bool :=
         match l with
         | [] => true
         | (_, x) :: rest => json_serializable x && go rest
         end) fields
  | _ => true
  end.

(** A JS object used as a dictionary. *)
Abbreviation document := (gmap string value).

(** [o[k]] on a dictionary. *)
Definition get_prop (k : string) (o : document) : value :=
  default VUndefined (o !! k).

(** [JSON.stringify] of a dictionary followed by [JSON.parse]. *)
Definition jsonify_doc (o : document) : document :=
  omap (fun v => match v with VUndefined => None | _ => Some (jsonify v) end) o.

(** [Number(s)] on the strings this program stores: an optional minus
    sign followed by decimal digits; the empty string is [0]; anything
    else is [NaN], here [None]. *)
Definition digit_of (c : ascii) : option Z :=
  let n := Z.of_N (N_of_ascii c) in
  if (48 <=? n) && (n <=? 57) then Some (n - 48) else None.

Fixpoint digits_from (acc : Z) (s : string) : option Z :=
  match s with
  | EmptyString => Some acc
  | String c rest =>
      match digit_of c with
      | Some d => digits_from (10 * acc + d) rest
      | None => None
      end
  end.

Definition Number (s : string) : option Z :=
  match s with
  | EmptyString => Some 0
  | String "-" EmptyString => None
  | String "-" rest => Z.opp <$> digits_from 0 rest
  | _ => digits_from 0 s
  end.

(** [x > now] where [x] is a number or [NaN]: comparisons with [NaN] are
    false. *)
Definition num_gt (x : option Z) (now : Z) : bool :=
  match x with
  | Some n => now <? n
  | None => false
  end.

(** [String(n)] for an integer. *)
Definition String_of_num (n : Z) : string := pretty n.

(* ===================================================================== *)
(** ** The world: module variables, adapter instance, browser, network *)
(* ===================================================================== *)

Inductive js_error : Type :=
| Error (message : string)          (* [new Error(message)] *)
| TypeError (message : string)      (* a failed property access or call *)
| ApiError (status : Z)             (* a rejected API response: an object, no [message] *)
| ConsentError (code : string)      (* the token response [{error: code}] *)
| StatusError (message : string) (status : Z)   (* an [Error] given a [status] property *)
| SyntaxError (message : string).   (* [JSON.parse] on a text that is not JSON *)

Definition dquote : string := String (ascii_of_nat 34) EmptyString.

(** [err.message || JSON.stringify(err)] *)
Definition error_text (e : js_error) : string :=
  match e with
  | Error m | TypeError m | StatusError m _ | SyntaxError m => m
  | ApiError st => "{" +:+ dquote +:+ "status" +:+ dquote +:+ ":" +:+ pretty st +:+ "}"
  | ConsentError c =>
      "{" +:+ dquote +:+ "error" +:+ dquote +:+ ":" +:+ dquote +:+ c +:+ dquote +:+ "}"
  end.

(** ['...' + e.message] *)
Definition error_message (e : js_error) : string :=
  match e with
  | Error m | TypeError m | StatusError m _ | SyntaxError m => m
  | _ => "undefined"
  end.

(** How [loadGoogleScripts]'s promise settled. *)
Inductive settled : Type :=
| Resolved
| Rejected (e : js_error).

(** Module-level variables of googleDrive.js. *)
Record gd_module : Type := {
  tokenClient : bool;                 (* defined or not *)
  gapiInited : bool;
  gisInited : bool;
  accessToken : option string;
  tokenExpiry : option Z;
  configFileId : option string;       (* [None]: null or undefined *)
  scriptsPromise : option settled;    (* [None]: not requested yet *)
}.

(** The [GoogleDriveAdapter] instance. *)
Record gd_adapter : Type := {
  cache : document;
  saveTimeout : option positive;      (* a timer id; ids are positive integers *)
}.

(** The browser: local storage, clock, pending timers, dialogs, the
    diagnostic console and the token handed to the gapi client. *)
Record browser : Type := {
  localStorage : gmap string string;
  clock : Z;                          (* [Date.now()] *)
  timers : list (positive * Z);       (* pending: id and due time, in creation order *)
  next_timer : positive;
  alerts : list string;
  console_errors : list string;       (* [console.error] and [console.warn] *)
  gapiToken : option string;
}.

Record drive_file : Type := {
  file_id : string;
  file_name : string;
  file_trashed : bool;
  file_body : document;               (* the JSON object the file holds *)
}.

(** How the network treats one request. *)
Inductive net_outcome : Type :=
| NetOk
| NetHttp (status : Z)                (* the server answers with an error status *)
| NetDown.                            (* the request never completes *)

Inductive request : Type :=
| ReqList
| ReqGet (fileId : string)
| ReqCreate
| ReqPatch (fileId : string) (body : document).

(** What the page environment does when the two client libraries are
    requested, and what the consent popup answers. *)
Record page_env : Type := {
  preloaded : bool;                   (* [window.google && window.gapi] already there *)
  gapi_loads : bool;
  gis_loads : bool;
  consent : option string;            (* [Some t]: access token [t]; [None]: an error response *)
}.

(** The remote side: the files this application can see, the fate of the
    coming requests (an exhausted schedule means success), and the log of
    the requests issued. *)
Record remote : Type := {
  drive : list drive_file;
  net : list net_outcome;
  requests : list request;
  next_file : nat;
  env : page_env;
}.

(** Which backend the persistence facade delegates to. *)
Inductive adapter_kind : Type :=
| LocalStorageAdapter
| GoogleDriveAdapter.

(** What the shell asked of the facade, in order. *)
Inductive storage_call : Type :=
| CallSetAdapter (a : adapter_kind)
| CallGet (key : string)
| CallSet (key : string) (v : value).

(** Modelled from the spec: the persistence facade and the local adapter
    of services/storage.js, which the shell imports and which is not among
    the sources.  The facade holds one hot-swappable adapter reference,
    local by default.  The local adapter keeps one JSON-encoded entry per
    logical key in browser storage; [local_entries] is that part of the
    storage seen through [JSON.parse]. *)
Record facade : Type := {
  active : adapter_kind;
  local_entries : document;
  calls : list storage_call;
}.

(** React state of the [App] component that the boot sequence, the bulk
    load and the save effects touch. *)
Record shell : Type := {
  isLoading : bool;
  needsDriveAuth : bool;
  customSpaces : value;
  currentSpace : value;
  enabledWidgets : value;
  widgetVisibility : value;
  settings : value;
  todoistConfig : value;
  musicState : value;
}.

Record world : Type := {
  vars : gd_module;
  adapter : gd_adapter;
  win : browser;
  cloud : remote;
  storage : facade;
  ui : shell;
}.

(** Field updates. *)
Definition with_vars (f : gd_module -> gd_module) (w : world) : world :=
  {| vars := f (vars w); adapter := adapter w; win := win w; cloud := cloud w;
     storage := storage w; ui := ui w |}.

Definition with_adapter (f : gd_adapter -> gd_adapter) (w : world) : world :=
  {| vars := vars w; adapter := f (adapter w); win := win w; cloud := cloud w;
     storage := storage w; ui := ui w |}.

Definition with_win (f : browser -> browser) (w : world) : world :=
  {| vars := vars w; adapter := adapter w; win := f (win w); cloud := cloud w;
     storage := storage w; ui := ui w |}.

Definition with_cloud (f : remote -> remote) (w : world) : world :=
  {| vars := vars w; adapter := adapter w; win := win w; cloud := f (cloud w);
     storage := storage w; ui := ui w |}.

Definition with_storage (f : facade -> facade) (w : world) : world :=
  {| vars := vars w; adapter := adapter w; win := win w; cloud := cloud w;
     storage := f (storage w); ui := ui w |}.

Definition with_ui (f : shell -> shell) (w : world) : world :=
  {| vars := vars w; adapter := adapter w; win := win w; cloud := cloud w;
     storage := storage w; ui := f (ui w) |}.

Definition set_active (a : adapter_kind) (s : facade) : facade :=
  {| active := a; local_entries := local_entries s; calls := calls s |}.

Definition set_local_entries (d : document) (s : facade) : facade :=
  {| active := active s; local_entries := d; calls := calls s |}.

Definition push_call (c : storage_call) (s : facade) : facade :=
  {| active := active s; local_entries := local_entries s; calls := calls s ++ [c] |}.

Definition set_isLoading (b : bool) (s : shell) : shell :=
  {| isLoading := b; needsDriveAuth := needsDriveAuth s;
     customSpaces := customSpaces s; currentSpace := currentSpace s;
     enabledWidgets := enabledWidgets s; widgetVisibility := widgetVisibility s;
     settings := settings s; todoistConfig := todoistConfig s;
     musicState := musicState s |}.

Definition set_needsDriveAuth (b : bool) (s : shell) : shell :=
  {| isLoading := isLoading s; needsDriveAuth := b;
     customSpaces := customSpaces s; currentSpace := currentSpace s;
     enabledWidgets := enabledWidgets s; widgetVisibility := widgetVisibility s;
     settings := settings s; todoistConfig := todoistConfig s;
     musicState := musicState s |}.

Definition set_customSpaces (v : value) (s : shell) : shell :=
  {| isLoading := isLoading s; needsDriveAuth := needsDriveAuth s;
     customSpaces := v; currentSpace := currentSpace s;
     enabledWidgets := enabledWidgets s; widgetVisibility := widgetVisibility s;
     settings := settings s; todoistConfig := todoistConfig s;
     musicState := musicState s |}.

Definition set_currentSpace (v : value) (s : shell) : shell :=
  {| isLoading := isLoading s; needsDriveAuth := needsDriveAuth s;
     customSpaces := customSpaces s; currentSpace := v;
     enabledWidgets := enabledWidgets s; widgetVisibility := widgetVisibility s;
     settings := settings s; todoistConfig := todoistConfig s;
     musicState := musicState s |}.

Definition set_enabledWidgets (v : value) (s : shell) : shell :=
  {| isLoading := isLoading s; needsDriveAuth := needsDriveAuth s;
     customSpaces := customSpaces s; currentSpace := currentSpace s;
     enabledWidgets := v; widgetVisibility := widgetVisibility s;
     settings := settings s; todoistConfig := todoistConfig s;
     musicState := musicState s |}.

Definition set_widgetVisibility (v : value) (s : shell) : shell :=
  {| isLoading := isLoading s; needsDriveAuth := needsDriveAuth s;
     customSpaces := customSpaces s; currentSpace := currentSpace s;
     enabledWidgets := enabledWidgets s; widgetVisibility := v;
     settings := settings s; todoistConfig := todoistConfig s;
     musicState := musicState s |}.

Definition set_settings (v : value) (s : shell) : shell :=
  {| isLoading := isLoading s; needsDriveAuth := needsDriveAuth s;
     customSpaces := customSpaces s; currentSpace := currentSpace s;
     enabledWidgets := enabledWidgets s; widgetVisibility := widgetVisibility s;
     settings := v; todoistConfig := todoistConfig s;
     musicState := musicState s |}.

Definition set_todoistConfig (v : value) (s : shell) : shell :=
  {| isLoading := isLoading s; needsDriveAuth := needsDriveAuth s;
     customSpaces := customSpaces s; currentSpace := currentSpace s;
     enabledWidgets := enabledWidgets s; widgetVisibility := widgetVisibility s;
     settings := settings s; todoistConfig := v;
     musicState := musicState s |}.

Definition set_musicState (v : value) (s : shell) : shell :=
  {| isLoading := isLoading s; needsDriveAuth := needsDriveAuth s;
     customSpaces := customSpaces s; currentSpace := currentSpace s;
     enabledWidgets := enabledWidgets s; widgetVisibility := widgetVisibility s;
     settings := settings s; todoistConfig := todoistConfig s;
     musicState := v |}.

Definition set_tokenClient (b : bool) (m : gd_module) : gd_module :=
  {| tokenClient := b; gapiInited := gapiInited m; gisInited := gisInited m;
     accessToken := accessToken m; tokenExpiry := tokenExpiry m;
     configFileId := configFileId m; scriptsPromise := scriptsPromise m |}.

Definition set_gapiInited (b : bool) (m : gd_module) : gd_module :=
  {| tokenClient := tokenClient m; gapiInited := b; gisInited := gisInited m;
     accessToken := accessToken m; tokenExpiry := tokenExpiry m;
     configFileId := configFileId m; scriptsPromise := scriptsPromise m |}.

Definition set_gisInited (b : bool) (m : gd_module) : gd_module :=
  {| tokenClient := tokenClient m; gapiInited := gapiInited m; gisInited := b;
     accessToken := accessToken m; tokenExpiry := tokenExpiry m;
     configFileId := configFileId m; scriptsPromise := scriptsPromise m |}.

Definition set_accessToken (t : option string) (m : gd_module) : gd_module :=
  {| tokenClient := tokenClient m; gapiInited := gapiInited m; gisInited := gisInited m;
     accessToken := t; tokenExpiry := tokenExpiry m;
     configFileId := configFileId m; scriptsPromise := scriptsPromise m |}.

Definition set_tokenExpiry (t : option Z) (m : gd_module) : gd_module :=
  {| tokenClient := tokenClient m; gapiInited := gapiInited m; gisInited := gisInited m;
     accessToken := accessToken m; tokenExpiry := t;
     configFileId := configFileId m; scriptsPromise := scriptsPromise m |}.

Definition set_configFileId (i : option string) (m : gd_module) : gd_module :=
  {| tokenClient := tokenClient m; gapiInited := gapiInited m; gisInited := gisInited m;
     accessToken := accessToken m; tokenExpiry := tokenExpiry m;
     configFileId := i; scriptsPromise := scriptsPromise m |}.

Definition set_scriptsPromise (p : option settled) (m : gd_module) : gd_module :=
  {| tokenClient := tokenClient m; gapiInited := gapiInited m; gisInited := gisInited m;
     accessToken := accessToken m; tokenExpiry := tokenExpiry m;
     configFileId := configFileId m; scriptsPromise := p |}.

Definition set_cache (c : document) (a : gd_adapter) : gd_adapter :=
  {| cache := c; saveTimeout := saveTimeout a |}.

Definition set_saveTimeout (t : option positive) (a : gd_adapter) : gd_adapter :=
  {| cache := cache a; saveTimeout := t |}.

Definition set_localStorage (ls : gmap string string) (b : browser) : browser :=
  {| localStorage := ls; clock := clock b; timers := timers b;
     next_timer := next_timer b; alerts := alerts b;
     console_errors := console_errors b; gapiToken := gapiToken b |}.

Definition set_clock (t : Z) (b : browser) : browser :=
  {| localStorage := localStorage b; clock := t; timers := timers b;
     next_timer := next_timer b; alerts := alerts b;
     console_errors := console_errors b; gapiToken := gapiToken b |}.

Definition set_timers (ts : list (positive * Z)) (b : browser) : browser :=
  {| localStorage := localStorage b; clock := clock b; timers := ts;
     next_timer := next_timer b; alerts := alerts b;
     console_errors := console_errors b; gapiToken := gapiToken b |}.

Definition set_next_timer (n : positive) (b : browser) : browser :=
  {| localStorage := localStorage b; clock := clock b; timers := timers b;
     next_timer := n; alerts := alerts b;
     console_errors := console_errors b; gapiToken := gapiToken b |}.

Definition push_alert (msg : string) (b : browser) : browser :=
  {| localStorage := localStorage b; clock := clock b; timers := timers b;
     next_timer := next_timer b; alerts := alerts b ++ [msg];
     console_errors := console_errors b; gapiToken := gapiToken b |}.

Definition push_console (msg : string) (b : browser) : browser :=
  {| localStorage := localStorage b; clock := clock b; timers := timers b;
     next_timer := next_timer b; alerts := alerts b;
     console_errors := console_errors b ++ [msg]; gapiToken := gapiToken b |}.

Definition set_gapiToken (t : option string) (b : browser) : browser :=
  {| localStorage := localStorage b; clock := clock b; timers := timers b;
     next_timer := next_timer b; alerts := alerts b;
     console_errors := console_errors b; gapiToken := t |}.

Definition set_drive (fs : list drive_file) (r : remote) : remote :=
  {| drive := fs; net := net r; requests := requests r;
     next_file := next_file r; env := env r |}.

Definition set_net (n : list net_outcome) (r : remote) : remote :=
  {| drive := drive r; net := n; requests := requests r;
     next_file := next_file r; env := env r |}.

Definition push_request (q : request) (r : remote) : remote :=
  {| drive := drive r; net := net r; requests := requests r ++ [q];
     next_file := next_file r; env := env r |}.

Definition set_next_file (n : nat) (r : remote) : remote :=
  {| drive := drive r; net := net r; requests := requests r;
     next_file := n; env := env r |}.

(* ===================================================================== *)
(** ** Computations: state and exceptions *)
(* ===================================================================== *)

(** A JS computation either returns or throws; either way it leaves a
    world behind.  An [async] function is run to completion where the
    caller awaits it: a rejected promise is a throw at the [await]. *)
Inductive outcome (A : Type) : Type :=
| Ok (a : A)
| Throw (e : js_error).

Arguments Ok {A} a.
Arguments Throw {A} e.

Definition M (A : Type) : Type := world -> outcome A * world.

Definition ret {A} (a : A) : M A := fun w => (Ok a, w).

Definition throw {A} (e : js_error) : M A := fun w => (Throw e, w).

Definition bind {A B} (m : M A) (k : A -> M B) : M B :=
  fun w =>
    match m w with
    | (Ok a, w') => k a w'
    | (Throw e, w') => (Throw e, w')
    end.

(** [try { m } catch (e) { h e }] *)
Definition try_catch {A} (m : M A) (h : js_error -> M A) : M A :=
  fun w =>
    match m w with
    | (Ok a, w') => (Ok a, w')
    | (Throw e, w') => h e w'
    end.

Definition get {A} (f : world -> A) : M A := fun w => (Ok (f w), w).

Definition modify (f : world -> world) : M unit := fun w => (Ok tt, f w).

Notation "'let*' x ':=' m 'in' k" := (bind m (fun x => k))
  (at level 10, x name, m at level 100, k at level 200).
Notation "m '>>' k" := (bind m (fun _ => k))
  (at level 100, k at level 200, right associativity).

Definition when {A} (b : bool) (m : M A) : M unit :=
  if b then (m >> ret tt) else ret tt.

Definition exec {A} (m : M A) (w : world) : world := snd (m w).
Definition eval {A} (m : M A) (w : world) : outcome A := fst (m w).

(** Browser primitives. *)
Definition ls_getItem (k : string) : M (option string) :=
  get (fun w => localStorage (win w) !! k).

Definition ls_setItem (k v : string) : M unit :=
  modify (with_win (fun b => set_localStorage (<[k := v]> (localStorage b)) b)).

Definition ls_removeItem (k : string) : M unit :=
  modify (with_win (fun b => set_localStorage (delete k (localStorage b)) b)).

Definition Date_now : M Z := get (fun w => clock (win w)).

Definition alert (msg : string) : M unit := modify (with_win (push_alert msg)).

Definition console_error (msg : string) : M unit :=
  modify (with_win (push_console msg)).

(** [setTimeout(cb, delay)]: the only callback this program ever registers
    is the adapter's deferred [saveAllData], so a pending timer is its id
    and its due time. *)
Definition setTimeout (delay : Z) : M positive :=
  fun w =>
    let id := next_timer (win w) in
    (Ok id,
     with_win (fun b =>
       set_next_timer (Pos.succ id)
         (set_timers (timers b ++ [(id, clock b + delay)]) b)) w).

Definition clearTimeout (id : positive) : M unit :=
  modify (with_win (fun b =>
    set_timers (List.filter (fun t => negb (Pos.eqb (fst t) id)) (timers b)) b)).

(* ===================================================================== *)
(** ** The remote file API *)
(* ===================================================================== *)

(** A request leaves the page: it is logged, and the head of the schedule
    tells what becomes of it. *)
Definition send (q : request) : M net_outcome :=
  fun w =>
    let o := match net (cloud w) with [] => NetOk | o :: _ => o end in
    (Ok o, with_cloud (fun r => set_net (tail (net r)) (push_request q r)) w).

Definition CONFIG_NAME : string := "focusnook-data.json".

(** [q: "name = 'focusnook-data.json' and trashed = false"] *)
Definition matches_query (f : drive_file) : bool :=
  String.eqb (file_name f) CONFIG_NAME && negb (file_trashed f).

Definition find_file (id : string) (fs : list drive_file) : option drive_file :=
  List.find (fun f => String.eqb (file_id f) id) fs.

Definition put_body (id : string) (body : document) (fs : list drive_file)
  : list drive_file :=
  map (fun f =>
         if String.eqb (file_id f) id
         then {| file_id := file_id f; file_name := file_name f;
                 file_trashed := file_trashed f; file_body := body |}
         else f) fs.

(** [window.gapi.client.drive] is there once the gapi client has been
    initialised; before that the property chain throws. *)
Definition gapi_drive : M unit :=
  let* ready := get (fun w => gapiInited (vars w)) in
  if ready then ret tt
  else throw (TypeError "Cannot read properties of undefined").

(** [gapi.client.drive.files.list]: the promise rejects on any failure. *)
Definition drive_files_list : M (list drive_file) :=
  gapi_drive >>
  let* o := send ReqList in
  match o with
  | NetOk => get (fun w => List.filter matches_query (drive (cloud w)))
  | NetHttp st => throw (ApiError st)
  | NetDown => throw (ApiError (-1))
  end.

(** [gapi.client.drive.files.get({fileId, alt: 'media'})] *)
Definition drive_files_get (id : string) : M document :=
  gapi_drive >>
  let* o := send (ReqGet id) in
  match o with
  | NetOk =>
      let* f := get (fun w => find_file id (drive (cloud w))) in
      match f with
      | Some f => ret (file_body f)
      | None => throw (ApiError 404)
      end
  | NetHttp st => throw (ApiError st)
  | NetDown => throw (ApiError (-1))
  end.

(** The multipart [fetch] that creates the file.  [fetch] rejects only
    when the request cannot complete; an error status is an ordinary
    response whose JSON body has no [id]. *)
Definition fetch_create : M (option string) :=
  let* o := send ReqCreate in
  match o with
  | NetOk =>
      let* n := get (fun w => next_file (cloud w)) in
      let id := "file-" +:+ pretty n in
      modify (with_cloud (fun r =>
        set_next_file (S n)
          (set_drive (drive r ++ [{| file_id := id; file_name := CONFIG_NAME;
                                     file_trashed := false; file_body := ∅ |}]) r))) >>
      ret (Some id)
  | NetHttp _ => ret None
  | NetDown => throw (TypeError "Failed to fetch")
  end.

(** The media [fetch] that overwrites the file; the result is
    [response.ok]. *)
Definition fetch_patch (id : string) (body : document) : M bool :=
  let* o := send (ReqPatch id body) in
  match o with
  | NetOk =>
      let* f := get (fun w => find_file id (drive (cloud w))) in
      match f with
      | Some _ =>
          modify (with_cloud (fun r => set_drive (put_body id body (drive r)) r)) >>
          ret true
      | None => ret false
      end
  | NetHttp _ => ret false
  | NetDown => throw (TypeError "Failed to fetch")
  end.

(* ===================================================================== *)
(** ** googleDrive.js *)
(* ===================================================================== *)

Definition loadGoogleScripts : M unit :=
  let* p := get (fun w => scriptsPromise (vars w)) in
  match p with
  | Some Resolved => ret tt
  | Some (Rejected e) => throw e
  | None =>
      let* e := get (fun w => env (cloud w)) in
      if preloaded e then
        modify (with_vars (set_scriptsPromise (Some Resolved)))
      else
        let settle :=
          if negb (gapi_loads e) then Rejected (Error "Failed to load gapi script")
          else if negb (gis_loads e) then Rejected (Error "Failed to load GIS script")
          else Resolved in
        modify (with_vars (fun m =>
          set_scriptsPromise (Some settle)
            (set_gisInited (gis_loads e)
               (set_tokenClient (gis_loads e)
                  (set_gapiInited (gapi_loads e) m))))) >>
        match settle with
        | Resolved => ret tt
        | Rejected err => throw err
        end
  end.

Definition hasValidToken : M bool :=
  let* now := Date_now in
  get (fun w =>
    match accessToken (vars w) with Some _ => true | None => false end
    && (now <? default 0 (tokenExpiry (vars w)))).

(** [window.gapi && window.gapi.client] *)
Definition gapi_client_present (w : world) : bool := gapiInited (vars w).

Definition gapi_setToken (t : option string) : M unit :=
  let* present := get gapi_client_present in
  when present (modify (with_win (set_gapiToken t))).

Definition saveToken (token : string) : M unit :=
  modify (with_vars (set_accessToken (Some token))) >>
  let* now := Date_now in
  modify (with_vars (set_tokenExpiry (Some (now + 3550 * 1000)))) >>
  ls_setItem "gdrive_token" token >>
  ls_setItem "gdrive_expiry" (String_of_num (now + 3550 * 1000)) >>
  gapi_setToken (Some token).

Definition clearToken : M unit :=
  modify (with_vars (set_accessToken None)) >>
  modify (with_vars (set_tokenExpiry None)) >>
  ls_removeItem "gdrive_token" >>
  ls_removeItem "gdrive_expiry".

Definition authenticate : M string :=
  let* tc := get (fun w => tokenClient (vars w)) in
  if negb tc then throw (Error "Google Scripts not loaded")
  else
    let* resp := get (fun w => consent (env (cloud w))) in
    match resp with
    | None => throw (ConsentError "access_denied")
    | Some token => saveToken token >> ret token
    end.

Definition initialize : M unit := loadGoogleScripts.

Definition loadAllData : M unit :=
  let* id := get (fun w => configFileId (vars w)) in
  if negb (truthy_str id) then ret tt
  else
    try_catch
      (let* result := drive_files_get (default "" id) in
       modify (with_adapter (set_cache result)))
      (fun err =>
         console_error ("Error loading data: " +:+ error_text err) >>
         modify (with_adapter (set_cache ∅))).

Definition saveAllData : M unit :=
  let* id := get (fun w => configFileId (vars w)) in
  if negb (truthy_str id) then
    console_error "saveAllData: No configFileId, skipping save."
  else
    try_catch
      (let* body := get (fun w => jsonify_doc (cache (adapter w))) in
       let* ok := fetch_patch (default "" id) body in
       if negb ok then console_error "Drive Save Failed" else ret tt)
      (fun err => console_error ("Error saving data: " +:+ error_text err)).

Definition createConfigFile : M unit :=
  try_catch
    (let* id := fetch_create in
     modify (with_vars (set_configFileId id)) >>
     modify (with_adapter (set_cache ∅)))
    (fun err =>
       console_error ("Error creating file: " +:+ error_text err) >>
       throw err).

Definition findOrCreateConfigFile : M unit :=
  try_catch
    (let* files := drive_files_list in
     match files with
     | f :: _ =>
         modify (with_vars (set_configFileId (Some (file_id f)))) >>
         loadAllData
     | [] => createConfigFile
     end)
    (fun err =>
       console_error ("Error finding config file: " +:+ error_text err) >>
       throw err).

Definition connect : M bool :=
  initialize >>
  let* gis := get (fun w => gisInited (vars w)) in
  let* gapi := get (fun w => gapiInited (vars w)) in
  if negb gis || negb gapi then throw (Error "Google scripts failed to initialize")
  else
    authenticate >>
    findOrCreateConfigFile >>
    ret true.

Definition restoreSession : M bool :=
  let* loaded :=
    try_catch (initialize >> ret true)
      (fun e =>
         alert ("Google Scripts Failed to Load: " +:+ error_message e) >>
         ret false) in
  if negb loaded then ret false
  else
    let* savedToken := ls_getItem "gdrive_token" in
    let* savedExpiry := ls_getItem "gdrive_expiry" in
    let* now := Date_now in
    if truthy_str savedToken && truthy_str savedExpiry
       && num_gt (Number (default "" savedExpiry)) now
    then
      modify (with_vars (set_accessToken savedToken)) >>
      modify (with_vars (set_tokenExpiry (Number (default "" savedExpiry)))) >>
      gapi_setToken savedToken >>
      try_catch
        (findOrCreateConfigFile >> ret true)
        (fun err =>
           console_error ("[Drive Debug] Cached token invalid or expired on usage: "
                          +:+ error_text err) >>
           alert ("Session Restore API Error: " +:+ error_text err) >>
           clearToken >>
           ret false)
    else
      when (truthy_str savedToken)
        (alert "Session expired or invalid. Please login again.") >>
      ret false.

(** *** Storage interface *)

Definition getItem (key : string) : M value :=
  let* token := get (fun w => accessToken (vars w)) in
  let* id := get (fun w => configFileId (vars w)) in
  if negb (truthy_str token) && negb (truthy_str id) then ret VNull
  else
    let* c := get (fun w => cache (adapter w)) in
    when (truthy_str id && Nat.eqb (size c) 0) loadAllData >>
    let* c := get (fun w => cache (adapter w)) in
    ret (js_or (get_prop key c) VNull).

Definition setItem (key : string) (v : value) : M unit :=
  modify (with_adapter (fun a => set_cache (<[key := v]> (cache a)) a)) >>
  let* pending := get (fun w => saveTimeout (adapter w)) in
  match pending with
  | Some id => clearTimeout id
  | None => ret tt
  end >>
  let* id := setTimeout 2000 in
  modify (with_adapter (set_saveTimeout (Some id))).

Definition removeItem (key : string) : M unit :=
  modify (with_adapter (fun a => set_cache (delete key (cache a)) a)) >>
  saveAllData.

(** *** The event loop

    Time passes only between tasks.  [advance d] lets [d] milliseconds go
    by: every timer that falls due runs its callback, the adapter's
    deferred [saveAllData], in creation order (all timers have the same
    delay, so this is the order in which they fall due). *)
Definition is_due (t : Z) (tm : positive * Z) : bool := snd tm <=? t.

Definition fire (w : world) (tm : positive * Z) : world :=
  exec saveAllData (with_win (fun b => set_clock (Z.max (clock b) (snd tm)) b) w).

Definition advance (d : Z) : M unit :=
  fun w =>
    let t := clock (win w) + d in
    let due := List.filter (is_due t) (timers (win w)) in
    let rest := List.filter (fun tm => negb (is_due t tm)) (timers (win w)) in
    let w1 := with_win (set_timers rest) w in
    let w2 := fold_left fire due w1 in
    (Ok tt, with_win (fun b => set_clock (Z.max (clock b) t) b) w2).

(* ===================================================================== *)
(** ** services/storage.js: the persistence facade *)
(* ===================================================================== *)

(** Modelled from the spec: the local adapter's [getItem] returns [null]
    on a missing key or a parse failure. *)
Definition local_getItem (key : string) : M value :=
  get (fun w => default VNull (local_entries (storage w) !! key)).

(** Modelled from the spec: the local adapter's [setItem] JSON-encodes the
    value and stores it at once.  [undefined] has no JSON encoding, so the
    entry it leaves behind does not parse. *)
Definition local_setItem (key : string) (v : value) : M unit :=
  modify (with_storage (fun s =>
    set_local_entries
      match v with
      | VUndefined => delete key (local_entries s)
      | _ => <[key := jsonify v]> (local_entries s)
      end s)).

(** Modelled from the spec: [storage.setAdapter] swaps the backend, no
    data is migrated. *)
Definition storage_setAdapter (a : adapter_kind) : M unit :=
  modify (with_storage (fun s => push_call (CallSetAdapter a) (set_active a s))).

(** Modelled from the spec: [storage.getType() -> 'local' | 'gdrive']. *)
Definition storage_getType : M string :=
  get (fun w =>
    match active (storage w) with
    | LocalStorageAdapter => "local"
    | GoogleDriveAdapter => "gdrive"
    end).

(** Modelled from the spec: [storage.get] delegates to the active
    adapter. *)
Definition storage_get (key : string) : M value :=
  modify (with_storage (push_call (CallGet key))) >>
  let* a := get (fun w => active (storage w)) in
  match a with
  | LocalStorageAdapter => local_getItem key
  | GoogleDriveAdapter => getItem key
  end.

(** Modelled from the spec: [storage.set] delegates to the active
    adapter. *)
Definition storage_set (key : string) (v : value) : M unit :=
  modify (with_storage (push_call (CallSet key v))) >>
  let* a := get (fun w => active (storage w)) in
  match a with
  | LocalStorageAdapter => local_setItem key v
  | GoogleDriveAdapter => setItem key v
  end.

(* ===================================================================== *)
(** ** App.jsx: the application shell *)
(* ===================================================================== *)

(** The state variables the save effects depend on. *)
Inductive piece : Type :=
| IsLoading
| CustomSpaces
| CurrentSpace
| EnabledWidgets
| WidgetVisibility
| Settings
| TodoistConfig
| MusicState.

Definition piece_eqb (a b : piece) : bool :=
  match a, b with
  | IsLoading, IsLoading | CustomSpaces, CustomSpaces
  | CurrentSpace, CurrentSpace | EnabledWidgets, EnabledWidgets
  | WidgetVisibility, WidgetVisibility | Settings, Settings
  | TodoistConfig, TodoistConfig | MusicState, MusicState => true
  | _, _ => false
  end.

(** The save effects, in the order the component declares them. *)
Definition save_enabledWidgets : M unit :=
  let* s := get ui in
  when (negb (isLoading s))
    (storage_set "focusnook-enabled-widgets" (enabledWidgets s)).

Definition save_widgetVisibility : M unit :=
  let* s := get ui in
  when (negb (isLoading s))
    (storage_set "focusnook-widget-visibility" (widgetVisibility s)).

Definition save_currentSpace : M unit :=
  let* s := get ui in
  when (negb (isLoading s) && truthy (currentSpace s))
    (storage_set "focusnook-current-space" (prop "id" (currentSpace s))).

Definition save_settings : M unit :=
  let* s := get ui in
  when (negb (isLoading s))
    (storage_set "focusnook-settings" (settings s)).

Definition save_todoistConfig : M unit :=
  let* s := get ui in
  when (negb (isLoading s))
    (storage_set "focusnook-todoist" (todoistConfig s)).

Definition save_musicState : M unit :=
  let* s := get ui in
  when (negb (isLoading s))
    (storage_set "focusnook-music" (musicState s) >>
     when (truthy (prop "customStreams" (musicState s)))
       (storage_set "chillspace-custom-streams" (prop "customStreams" (musicState s)))).

Definition save_customSpaces : M unit :=
  let* s := get ui in
  when (negb (isLoading s))
    (storage_set "chillspace-custom-spaces" (customSpaces s)).

(** Every save effect with its dependency array. *)
Definition save_effects : list (list piece * M unit) :=
  [ ([EnabledWidgets; IsLoading], save_enabledWidgets);
    ([WidgetVisibility; IsLoading], save_widgetVisibility);
    ([CurrentSpace; IsLoading], save_currentSpace);
    ([Settings; IsLoading], save_settings);
    ([TodoistConfig; IsLoading], save_todoistConfig);
    ([MusicState; IsLoading], save_musicState);
    ([CustomSpaces; IsLoading], save_customSpaces) ].

Definition depends_on (changed : list piece) (deps : list piece) : bool :=
  existsb (fun d => existsb (piece_eqb d) changed) deps.

Fixpoint run_effects (changed : list piece) (effs : list (list piece * M unit))
  : M unit :=
  match effs with
  | [] => ret tt
  | (deps, body) :: rest =>
      when (depends_on changed deps) body >> run_effects changed rest
  end.

(** A render is committed after the state variables in [changed] got a new
    value: React runs the effects whose dependency array holds one of
    them. *)
Definition commit (changed : list piece) : M unit :=
  run_effects changed save_effects.

Definition all_pieces : list piece :=
  [IsLoading; CustomSpaces; CurrentSpace; EnabledWidgets; WidgetVisibility;
   Settings; TodoistConfig; MusicState].

(** [[...xs]] of a value: arrays and strings are iterable, the rest is
    not. *)
Definition spread (v : value) : M (list value) :=
  match v with
  | VArr items => ret items
  | VStr s => ret (map (fun c => VStr (String c EmptyString)) (list_ascii_of_string s))
  | _ => throw (TypeError "value is not iterable")
  end.

(** [o.k] where [o] may be [null] or [undefined]. *)
Definition member (k : string) (o : value) : M value :=
  match o with
  | VUndefined | VNull => throw (TypeError "Cannot read properties of null")
  | _ => ret (prop k o)
  end.

(** [a === b]; two object values read from different places are different
    references. *)
Definition strict_eq (a b : value) : bool :=
  match a, b with
  | VUndefined, VUndefined | VNull, VNull => true
  | VBool x, VBool y => Bool.eqb x y
  | VNum x, VNum y => x =? y
  | VStr x, VStr y => String.eqb x y
  | _, _ => false
  end.

(** [xs.find(s => s.id === id)] *)
Fixpoint find_by_id (id : value) (xs : list value) : M value :=
  match xs with
  | [] => ret VUndefined
  | x :: rest =>
      let* xid := member "id" x in
      if strict_eq xid id then ret x else find_by_id id rest
  end.

(** Own enumerable properties, as object spread copies them. *)
Definition own_props (v : value) : list (string * value) :=
  match v with
  | VObj fields => fields
  | VArr items => imap (fun i x => (pretty i, x)) items
  | VStr s =>
      imap (fun i c => (pretty i, VStr (String c EmptyString))) (list_ascii_of_string s)
  | _ => []
  end.

Fixpoint obj_assign (k : string) (v : value) (fields : list (string * value))
  : list (string * value) :=
  match fields with
  | [] => [(k, v)]
  | (k', v') :: rest =>
      if String.eqb k k' then (k, v) :: rest else (k', v') :: obj_assign k v rest
  end.

Definition obj_spread (base : list (string * value)) (v : value)
  : list (string * value) :=
  fold_left (fun acc kv => obj_assign (fst kv) (snd kv) acc) (own_props v) base.

Section Shell.

(** [defaultSpaces] and [defaultMusicStreams] come from data/spaces.js,
    which is not among the sources: they are parameters. *)
Variable defaultSpaces : list value.
Variable defaultMusicStreams : list value.

(** [xs[0]] *)
Definition first_of (xs : list value) : value := hd VUndefined xs.

(** The initial data load.  The state setters of one task are batched
    into one commit; the eight reads of [Promise.all] are taken in
    order. *)
Definition loadData : M unit :=
  modify (with_ui (set_isLoading true)) >>
  try_catch
    (try_catch loadGoogleScripts
       (fun e => console_error (error_text e)) >>
     let* savedCustomSpaces := storage_get "focusnook-custom-spaces" in
     let* savedSpaceId := storage_get "focusnook-current-space" in
     let* savedEnabledWidgets := storage_get "focusnook-enabled-widgets" in
     let* savedWidgetVisibility := storage_get "focusnook-widget-visibility" in
     let* savedSettings := storage_get "focusnook-settings" in
     let* savedTodoist := storage_get "focusnook-todoist" in
     let* savedMusic := storage_get "focusnook-music" in
     let* savedCustomStreams := storage_get "focusnook-custom-streams" in
     when (truthy savedCustomSpaces)
       (modify (with_ui (set_customSpaces savedCustomSpaces))) >>
     let* custom := spread (js_or savedCustomSpaces (VArr [])) in
     let loadedAllSpaces := (defaultSpaces ++ custom)%list in
     when (truthy savedSpaceId)
       (let* found := find_by_id savedSpaceId loadedAllSpaces in
        when (truthy found) (modify (with_ui (set_currentSpace found)))) >>
     when (truthy savedEnabledWidgets)
       (modify (with_ui (set_enabledWidgets savedEnabledWidgets))) >>
     when (truthy savedWidgetVisibility)
       (modify (with_ui (set_widgetVisibility savedWidgetVisibility))) >>
     when (truthy savedSettings)
       (modify (with_ui (set_settings savedSettings))) >>
     when (truthy savedTodoist)
       (modify (with_ui (set_todoistConfig savedTodoist))) >>
     when (truthy savedMusic)
       (let* streams := spread (js_or savedCustomStreams (VArr [])) in
        let allStreams := (defaultMusicStreams ++ streams)%list in
        modify (with_ui (fun s =>
          set_musicState
            (VObj (obj_assign "customStreams" (js_or savedCustomStreams (VArr []))
                     (obj_assign "selectedStream"
                        (js_or (prop "selectedStream" savedMusic) (first_of allStreams))
                        (obj_spread (own_props (musicState s)) savedMusic))))
            s))))
    (fun e => console_error ("Failed to load application data: " +:+ error_text e)) >>
  modify (with_ui (set_isLoading false)) >>
  commit all_pieces.

(** The boot effect, first half: the recorded preference and the recovery
    rule.  The result is the effect's [storageType]. *)
Definition recover_storage_type : M (option string) :=
  let* recorded := ls_getItem "focusnook-storage-type" in
  if negb (truthy_str recorded) then
    let* token := ls_getItem "gdrive_token" in
    let* expiry := ls_getItem "gdrive_expiry" in
    let* now := Date_now in
    if truthy_str token && truthy_str expiry
       && num_gt (Number (default "" expiry)) now
    then ls_setItem "focusnook-storage-type" "gdrive" >> ret (Some "gdrive")
    else ret recorded
  else ret recorded.

(** The boot effect, second half: the adapter is activated, then the data
    is loaded. *)
Definition start_with (storageType : option string) : M unit :=
  if bool_decide (storageType = Some "gdrive") then
    try_catch
      (initialize >>
       let* restored := restoreSession in
       if restored then
         storage_setAdapter GoogleDriveAdapter >> loadData
       else
         modify (with_ui (set_needsDriveAuth true)) >>
         modify (with_ui (set_isLoading false)) >>
         commit [IsLoading])
      (fun e =>
         console_error ("Failed to init drive scripts, falling back to local: "
                        +:+ error_text e) >>
         storage_setAdapter LocalStorageAdapter >>
         loadData)
  else loadData.

(** The boot effect. *)
Definition init : M unit :=
  let* storageType := recover_storage_type in
  start_with storageType.

(** The connect button of the reconnect screen. *)
Definition handleDriveConnect : M unit :=
  modify (with_ui (set_isLoading true)) >>
  try_catch
    (connect >>
     storage_setAdapter GoogleDriveAdapter >>
     modify (with_ui (set_needsDriveAuth false)) >>
     loadData)
    (fun err =>
       console_error ("Drive connection failed: " +:+ error_text err) >>
       alert ("Failed to connect: " +:+ error_text err
              +:+ ". Switching to local storage.") >>
       storage_setAdapter LocalStorageAdapter >>
       ls_removeItem "focusnook-storage-type" >>
       modify (with_ui (set_needsDriveAuth false)) >>
       loadData).

(** The component's initial state. *)
Definition initial_shell : shell :=
  {| isLoading := true;
     needsDriveAuth := false;
     customSpaces := VArr [];
     currentSpace := first_of defaultSpaces;
     enabledWidgets :=
       VObj [("pomodoro", VBool true); ("sounds", VBool true); ("todos", VBool true);
             ("notes", VBool true); ("planner", VBool true); ("music", VBool true);
             ("focusprep", VBool true)];
     widgetVisibility :=
       VObj [("pomodoro", VBool true); ("sounds", VBool false); ("todos", VBool true);
             ("notes", VBool false); ("planner", VBool false); ("music", VBool false);
             ("focusprep", VBool false)];
     settings :=
       VObj [("widgetOpacity", VNum 1); ("showClock", VBool true);
             ("use12Hour", VBool true); ("plannerStartHour", VNum 9);
             ("plannerEndHour", VNum 17)];
     todoistConfig :=
       VObj [("token", VStr ""); ("isConnected", VBool false);
             ("selectedFilter", VStr "today")];
     musicState :=
       VObj [("selectedStream", first_of defaultMusicStreams);
             ("isPlaying", VBool false); ("volume", VNum 50);
             ("isMuted", VBool false); ("customStreams", VArr [])] |}.

(** A freshly loaded page: every module starts from its initial values;
    local storage, the clock and the remote side are what they are. *)
Definition page_load (ls : gmap string string) (entries : document) (now : Z)
    (r : remote) : world :=
  {| vars := {| tokenClient := false; gapiInited := false; gisInited := false;
                accessToken := None; tokenExpiry := None; configFileId := None;
                scriptsPromise := None |};
     adapter := {| cache := ∅; saveTimeout := None |};
     win := {| localStorage := ls; clock := now; timers := []; next_timer := 1%positive;
               alerts := []; console_errors := []; gapiToken := None |};
     cloud := r;
     storage := {| active := LocalStorageAdapter; local_entries := entries;
                   calls := [] |};
     ui := initial_shell |}.

End Shell.

(** A reload keeps what outlives the page: local storage, the clock and
    the remote side. *)
Definition reload (ds dm : list value) (w : world) : world :=
  page_load ds dm (localStorage (win w)) (local_entries (storage w))
    (clock (win w)) (cloud w).

(* ===================================================================== *)
(** ** services/todoistApi.js: the task-tracking client *)
(* ===================================================================== *)

(** Computations that touch no state. *)
Definition and_then {A B} (m : outcome A) (k : A -> outcome B) : outcome B :=
  match m with
  | Ok a => k a
  | Throw e => Throw e
  end.

Notation "'let?' x ':=' m 'in' k" := (and_then m (fun x => k))
  (at level 10, x name, m at level 100, k at level 200).

(** What the same-origin proxy answers: [fetch] rejects, or there is a
    response with a status and a body; [json] is the body seen through
    [JSON.parse], [None] when the text is not JSON. *)
Record response : Type := {
  status : Z;
  json : option value;
}.

Inductive fetched : Type :=
| FetchRejected
| Fetched (r : response).

(** The proxy as the client sees it: URL and token in, answer out. *)
Definition proxy : Type := string -> string -> fetched.

(** [response.ok] *)
Definition response_ok (r : response) : bool :=
  (200 <=? status r) && (status r <=? 299).

(** [URLSearchParams.toString()] for one parameter: the
    application/x-www-form-urlencoded byte serializer. *)
Definition hex_digit (n : N) : ascii :=
  ascii_of_N (if (n <? 10)%N then 48 + n else 55 + n)%N.

Definition form_encode_byte (c : ascii) : string :=
  let n := N_of_ascii c in
  if ((48 <=? n) && (n <=? 57) || (65 <=? n) && (n <=? 90)
      || (97 <=? n) && (n <=? 122)
      || (n =? 42) || (n =? 45) || (n =? 46) || (n =? 95))%N
  then String c EmptyString
  else if (n =? 32)%N then "+"
  else String "%" (String (hex_digit (n / 16)) (String (hex_digit (n mod 16)) EmptyString)).

Fixpoint form_encode (s : string) : string :=
  match s with
  | EmptyString => EmptyString
  | String c rest => form_encode_byte c +:+ form_encode rest
  end.

(** The normalised local task. *)
Record task : Type := {
  id : value;
  text : value;
  completed : value;
  todoistId : value;
  projectId : value;
  due : value;
}.

(** [o.k] where [o] may be [null] or [undefined]. *)
Definition field (k : string) (o : value) : outcome value :=
  match o with
  | VUndefined | VNull => Throw (TypeError "Cannot read properties of null")
  | _ => Ok (prop k o)
  end.

Fixpoint map_outcome {A B} (f : A -> outcome B) (xs : list A) : outcome (list B) :=
  match xs with
  | [] => Ok []
  | x :: rest =>
      let? y := f x in
      let? ys := map_outcome f rest in
      Ok (y :: ys)
  end.

(** [v.map(f)]: only arrays have a [map]. *)
Definition array_map {B} (f : value -> outcome B) (v : value) : outcome (list B) :=
  match v with
  | VArr items => map_outcome f items
  | VUndefined | VNull => Throw (TypeError "Cannot read properties of null")
  | _ => Throw (TypeError "tasks.map is not a function")
  end.

(** The query string both revisions build from the [filter] option;
    [None] is an absent option, which defaults to ['today']. *)
Definition tasks_endpoint (filter : option string) : string :=
  let filter := default "today" filter in
  let queryString :=
    if String.eqb filter "today" then "filter=today"
    else if negb (String.eqb filter "all") && negb (String.eqb filter "")
    then "project_id=" +:+ form_encode filter
    else "" in
  if negb (String.eqb queryString "") then "/tasks?" +:+ queryString else "/tasks".

(** The current revision, written for the v1 API. *)
Module TodoistV1.

Definition API_BASE : string := "/api/todoist".

Definition request (net : proxy) (endpoint token : string) : outcome value :=
  match net (API_BASE +:+ endpoint) token with
  | FetchRejected => Throw (TypeError "Failed to fetch")
  | Fetched r =>
      if negb (response_ok r)
      then Throw (StatusError ("Todoist API error: " +:+ pretty (status r)) (status r))
      else if status r =? 204 then Ok VNull
      else
        match json r with
        | Some v => Ok v
        | None => Throw (SyntaxError "Unexpected token")
        end
  end.

Definition normalize (t : value) : outcome task :=
  let? tid := field "id" t in
  let? content := field "content" t in
  let? checked := field "checked" t in
  let? is_completed := field "is_completed" t in
  let? project_id := field "project_id" t in
  let? d := field "due" t in
  Ok {| id := tid;
        text := content;
        completed := js_coalesce (js_coalesce checked is_completed) (VBool false);
        todoistId := tid;
        projectId := project_id;
        due := d |}.

Definition getTasks (net : proxy) (token : string) (filter : option string)
  : outcome (list task) :=
  let? data := request net (tasks_endpoint filter) token in
  let? tasks :=
    match data with
    | VArr _ => Ok data
    | _ =>
        let? results := field "results" data in
        Ok (js_coalesce results (VArr []))
    end in
  array_map normalize tasks.

End TodoistV1.

(** The earlier revision, written for the REST v2 API. *)
Module TodoistRest2.

(** [import.meta.env.VITE_API_BASE_URL ?? '/api'] *)
Definition API_BASE (VITE_API_BASE_URL : option string) : string :=
  default "/api" VITE_API_BASE_URL +:+ "/todoist".

Definition request (base : option string) (net : proxy) (endpoint token : string)
  : outcome value :=
  match net (API_BASE base +:+ endpoint) token with
  | FetchRejected => Throw (TypeError "Failed to fetch")
  | Fetched r =>
      if negb (response_ok r)
      then Throw (StatusError ("Todoist API error: " +:+ pretty (status r)) (status r))
      else if status r =? 204 then Ok VNull
      else
        match json r with
        | Some v => Ok v
        | None => Throw (SyntaxError "Unexpected token")
        end
  end.

Definition normalize (t : value) : outcome task :=
  let? tid := field "id" t in
  let? content := field "content" t in
  let? is_completed := field "is_completed" t in
  let? project_id := field "project_id" t in
  let? d := field "due" t in
  Ok {| id := tid;
        text := content;
        completed := js_or is_completed (VBool false);
        todoistId := tid;
        projectId := project_id;
        due := d |}.

Definition getTasks (base : option string) (net : proxy) (token : string)
    (filter : option string) : outcome (list task) :=
  let? tasks := request base net (tasks_endpoint filter) token in
  array_map normalize tasks.

End TodoistRest2.

(* ===================================================================== *)
(** ** Observations and sample worlds *)
(* ===================================================================== *)

(** The requests a world has seen that overwrite the document. *)
Definition flushes (w : world) : list (string * document) :=
  omap (fun q => match q with ReqPatch i b => Some (i, b) | _ => None end)
    (requests (cloud w)).

(** Every pending timer is the one the adapter remembers. *)
Definition tracked (w : world) : Prop :=
  forall tm, In tm (timers (win w)) -> saveTimeout (adapter w) = Some (fst tm).

(** What survives a timer callback, and hence the passing of time. *)
Definition same_session (w w' : world) : Prop :=
  vars w' = vars w /\ adapter w' = adapter w
  /\ storage w' = storage w /\ ui w' = ui w
  /\ localStorage (win w') = localStorage (win w)
  /\ alerts (win w') = alerts (win w).

(** The test both [restoreSession] and the boot effect apply to the token
    kept in local storage:
    [savedToken && savedExpiry && Number(savedExpiry) > now]. *)
Definition stored_token_usable (w : world) : bool :=
  truthy_str (localStorage (win w) !! "gdrive_token")
  && truthy_str (localStorage (win w) !! "gdrive_expiry")
  && num_gt (Number (default "" (localStorage (win w) !! "gdrive_expiry")))
       (clock (win w)).

(** A page where both client libraries load and the user consents. *)
Definition demo_env : page_env :=
  {| preloaded := false; gapi_loads := true; gis_loads := true;
     consent := Some "ya29.demo" |}.

Definition demo_remote (faults : list net_outcome) : remote :=
  {| drive := []; net := faults; requests := []; next_file := 0; env := demo_env |}.

(** What a returning visitor's local storage holds: the token, its expiry
    and, when [flag] is set, the recorded preference. *)
Definition stored_session (flag : bool) (expiry : Z) : gmap string string :=
  let session : gmap string string :=
    <["gdrive_token" := "ya29.demo"]>
      (<["gdrive_expiry" := String_of_num expiry]> ∅) in
  if flag then <["focusnook-storage-type" := "gdrive"]> session else session.

(** A page load at time [1700000000000] with that local storage. *)
Definition returning_visit (flag : bool) (expiry : Z) (faults : list net_outcome)
  : world :=
  page_load [] [] (stored_session flag expiry) ∅ 1700000000000 (demo_remote faults).

(** A first visit: nothing in local storage, nothing on the remote side. *)
Definition first_visit : world :=
  page_load [] [] ∅ ∅ 1700000000000 (demo_remote []).

(** The same page after a successful interactive [connect]. *)
Definition signed_in : world := exec connect first_visit.


(** The same page with the coming requests treated as [faults] says. *)
Definition with_faults (faults : list net_outcome) (w : world) : world :=
  with_cloud (set_net faults) w.

(** The page with the network cut for the next request. *)
Definition offline (w : world) : world := with_faults [NetDown] w.

(** The facade calls the save effects make when a render is committed
    after the state variables in [changed] got a new value, read off the
    effect bodies; [commit_writes] below proves that [commit] makes exactly
    these. *)
Definition writes_of (changed : list piece) (s : shell) : list storage_call :=
  ((if depends_on changed [EnabledWidgets; IsLoading] && negb (isLoading s)
    then [CallSet "focusnook-enabled-widgets" (enabledWidgets s)] else [])
   ++ (if depends_on changed [WidgetVisibility; IsLoading] && negb (isLoading s)
       then [CallSet "focusnook-widget-visibility" (widgetVisibility s)] else [])
   ++ (if depends_on changed [CurrentSpace; IsLoading]
          && (negb (isLoading s) && truthy (currentSpace s))
       then [CallSet "focusnook-current-space" (prop "id" (currentSpace s))] else [])
   ++ (if depends_on changed [Settings; IsLoading] && negb (isLoading s)
       then [CallSet "focusnook-settings" (settings s)] else [])
   ++ (if depends_on changed [TodoistConfig; IsLoading] && negb (isLoading s)
       then [CallSet "focusnook-todoist" (todoistConfig s)] else [])
   ++ (if depends_on changed [MusicState; IsLoading] && negb (isLoading s)
       then CallSet "focusnook-music" (musicState s)
            :: (if truthy (prop "customStreams" (musicState s))
                then [CallSet "chillspace-custom-streams"
                        (prop "customStreams" (musicState s))]
                else [])
       else [])
   ++ (if depends_on changed [CustomSpaces; IsLoading] && negb (isLoading s)
       then [CallSet "chillspace-custom-spaces" (customSpaces s)] else []))%list.

(** [m] returns normally, leaves the shell state and the active adapter
    alone, and makes exactly the facade calls [f] computes from the shell
    state. *)
Definition writes_exactly (m : M unit) (f : shell -> list storage_call) : Prop :=
  forall w, exists w',
    m w = (Ok tt, w')
    /\ ui w' = ui w
    /\ active (storage w') = active (storage w)
    /\ vars w' = vars w
    /\ cloud w' = cloud w
    /\ calls (storage w') = (calls (storage w) ++ f (ui w))%list.

(** The logical keys a state variable's own save effect may write. *)
Definition own_keys (p : piece) : list string :=
  match p with
  | IsLoading => []
  | CustomSpaces => ["chillspace-custom-spaces"]
  | CurrentSpace => ["focusnook-current-space"]
  | EnabledWidgets => ["focusnook-enabled-widgets"]
  | WidgetVisibility => ["focusnook-widget-visibility"]
  | Settings => ["focusnook-settings"]
  | TodoistConfig => ["focusnook-todoist"]
  | MusicState => ["focusnook-music"; "chillspace-custom-streams"]
  end.

Definition call_key (c : storage_call) : option string :=
  match c with
  | CallSet k _ | CallGet k => Some k
  | CallSetAdapter _ => None
  end.

(** A state variable gets a new value and the render is committed. *)
Definition setter (p : piece) (v : value) : shell -> shell :=
  match p with
  | IsLoading => set_isLoading (truthy v)
  | CustomSpaces => set_customSpaces v
  | CurrentSpace => set_currentSpace v
  | EnabledWidgets => set_enabledWidgets v
  | WidgetVisibility => set_widgetVisibility v
  | Settings => set_settings v
  | TodoistConfig => set_todoistConfig v
  | MusicState => set_musicState v
  end.

Definition mutate (p : piece) (v : value) : M unit :=
  modify (with_ui (setter p v)) >> commit [p].

(** The facade calls made between two worlds. *)
Definition calls_since (w w' : world) : list storage_call :=
  drop (length (calls (storage w))) (calls (storage w')).

(** What becomes of the [i]-th request from now. *)
Definition outcome_at (i : nat) (w : world) : net_outcome :=
  nth i (net (cloud w)) NetOk.

(** The files the search finds. *)
Definition matching_files (w : world) : list drive_file :=
  List.filter matches_query (drive (cloud w)).

(** The file a successful creation adds. *)
Definition new_config_file (w : world) : drive_file :=
  {| file_id := "file-" +:+ pretty (next_file (cloud w));
     file_name := CONFIG_NAME; file_trashed := false; file_body := ∅ |}.

(** The stable local task shape, as the specification words it: [id],
    [text], [completed], [projectId] and [due] of the upstream task (the
    code adds [todoistId], a copy of [id]). *)
Definition local_task (t : value) : task :=
  {| id := prop "id" t;
     text := prop "content" t;
     completed :=
       js_coalesce (js_coalesce (prop "checked" t) (prop "is_completed" t)) (VBool false);
     todoistId := prop "id" t;
     projectId := prop "project_id" t;
     due := prop "due" t |}.

Definition is_object (v : value) : Prop :=
  match v with VObj _ => True | _ => False end.

(** One upstream task, and the two shapes a response can carry it in. *)
Definition sample_task : value :=
  VObj [("id", VStr "6X7r"); ("content", VStr "Water the plants");
        ("checked", VBool false); ("project_id", VStr "2203306141");
        ("due", VNull)].

Definition flat_proxy : proxy :=
  fun _ _ => Fetched {| status := 200; json := Some (VArr [sample_task]) |}.

Definition envelope_proxy : proxy :=
  fun _ _ =>
    Fetched {| status := 200;
               json := Some (VObj [("results", VArr [sample_task]);
                                   ("next_cursor", VNull)]) |}.

(** What the adapter's file operations never touch: local storage, the
    facade and the shell state. *)
Definition page_side (w : world) : gmap string string * facade * shell :=
  (localStorage (win w), storage w, ui w).

(** The recorded storage preference, with the facade and the shell
    state. *)
Definition preference_side (w : world) : option string * facade * shell :=
  (localStorage (win w) !! "focusnook-storage-type", storage w, ui w).

(** Local storage as a whole. *)
Definition ls_of (w : world) : gmap string string := localStorage (win w).

(** The recorded storage preference. *)
Definition pref_of (w : world) : option string :=
  localStorage (win w) !! "focusnook-storage-type".

(** Local storage holds a token whose expiry is a timestamp strictly in
    the future. *)
Definition valid_stored_token (w : world) : Prop :=
  exists tok e t,
    localStorage (win w) !! "gdrive_token" = Some tok /\ tok <> ""
    /\ localStorage (win w) !! "gdrive_expiry" = Some e /\ e <> ""
    /\ Number e = Some t /\ clock (win w) < t.

(** The adapter the facade delegates to. *)
Definition active_of (w : world) : adapter_kind := active (storage w).

(** No store holds anything under the logical key [k]: neither the
    adapter's cache, nor the local entries, nor any remote file. *)
Definition absent (k : string) (w : world) : Prop :=
  cache (adapter w) !! k = None
  /\ local_entries (storage w) !! k = None
  /\ Forall (fun f => file_body f !! k = None) (drive (cloud w)).

(** The relation "if [k] was absent before, it is absent after". *)
Definition stays_absent (k : string) (w w' : world) : Prop :=
  absent k w -> absent k w'.

(** The two keys the bulk load reads the custom lists from. *)
Definition custom_read_key (k : string) : Prop :=
  k = "focusnook-custom-spaces" \/ k = "focusnook-custom-streams".

(** A shell whose music state carries one custom stream. *)
Definition one_custom_stream : value :=
  VObj [("isPlaying", VBool false); ("volume", VNum 50);
        ("customStreams", VArr [VObj [("id", VStr "lofi-1")]])].

(** The first visit once the boot effect has run: local adapter, load
    complete. *)
Definition loaded_locally : world := exec (init [] []) first_visit.

(** The music state is as it was, or its custom streams are the empty
    list. *)
Definition streams_reset (w w' : world) : Prop :=
  musicState (ui w') = musicState (ui w)
  \/ prop "customStreams" (musicState (ui w')) = VArr [].

(** A session that saves one custom space, lets the debounce fire, and is
    followed by a reload and the next boot: on the local adapter, and on
    the remote adapter after an interactive connect. *)
Definition one_custom_space : value :=
  VArr [VObj [("id", VStr "custom-1"); ("name", VStr "Rainy cafe");
              ("isCustom", VBool true)]].

Definition after_save_local : world :=
  exec (mutate CustomSpaces one_custom_space >> advance 2000) loaded_locally.

Definition next_visit_local : world :=
  exec (init [] []) (reload [] [] after_save_local).

Definition after_save_remote : world :=
  exec (handleDriveConnect [] []
        >> mutate CustomSpaces one_custom_space >> advance 2000) first_visit.

Definition next_visit_remote : world :=
  exec (init [] []) (reload [] [] after_save_remote).

(** A first visit on which the gapi script fails to load. *)
Definition broken_scripts_visit : world :=
  page_load [] [] ∅ ∅ 1700000000000
    {| drive := []; net := []; requests := []; next_file := 0;
       env := {| preloaded := false; gapi_loads := false; gis_loads := true;
                 consent := Some "ya29.demo" |} |}.

(** A computation that never throws. *)
Definition total {A} (m : M A) : Prop := forall w, exists a, eval m w = Ok a.

(** A computation whose every run, returning or throwing, relates the
    world it starts in to the world it leaves. *)
Definition preserves {A} (R : world -> world -> Prop) (m : M A) : Prop :=
  forall w, R w (exec m w).

(** The relation "the observation [f] is unchanged". *)
Definition keeps {B} (f : world -> B) (w w' : world) : Prop := f w' = f w.

(** The relation "the facade saw only calls satisfying [P] in between". *)
Definition calls_only (P : storage_call -> Prop) (w w' : world) : Prop :=
  exists new, calls (storage w') = (calls (storage w) ++ new)%list /\ Forall P new.

Definition is_CallSet (c : storage_call) : Prop :=
  match c with CallSet _ _ => True | _ => False end.

Definition is_CallSetAdapter (c : storage_call) : Prop :=
  match c with CallSetAdapter _ => True | _ => False end.

Definition is_data_call (c : storage_call) : Prop :=
  match c with CallSetAdapter _ => False | _ => True end.

(** The facade saw the adapter being chosen first and data calls only
    afterwards. *)
Definition adapter_then_data (w w' : world) : Prop :=
  exists pre post,
    calls_since w w' = (pre ++ post)%list
    /\ Forall is_CallSetAdapter pre /\ Forall is_data_call post.

(* ===================================================================== *)
(** ** Further observations *)
(* ===================================================================== *)

(** The lifetime [saveToken] gives a token, in milliseconds. *)
Definition TOKEN_LIFETIME : Z := 3550 * 1000.

(** The operations of the [GoogleDriveAdapter] instance as a page uses
    them, with the time that goes by in between.  A call whose promise
    rejects leaves the page running: the caller catches. *)
Inductive adapter_op : Type :=
| OpInitialize
| OpConnect
| OpRestoreSession
| OpGetItem (key : string)
| OpSetItem (key : string) (v : value)
| OpRemoveItem (key : string)
| OpWait (d : Z).

Definition attempt {A} (m : M A) : M unit :=
  try_catch (m >> ret tt) (fun _ => ret tt).

Definition run_op (o : adapter_op) : M unit :=
  match o with
  | OpInitialize => attempt initialize
  | OpConnect => attempt connect
  | OpRestoreSession => attempt restoreSession
  | OpGetItem key => attempt (getItem key)
  | OpSetItem key v => attempt (setItem key v)
  | OpRemoveItem key => attempt (removeItem key)
  | OpWait d => advance d
  end.

Fixpoint run_ops (ops : list adapter_op) : M unit :=
  match ops with
  | [] => ret tt
  | o :: rest => run_op o >> run_ops rest
  end.

(** The deferred writes: the pending timers and the handle the adapter
    keeps. *)
Definition pending_of (w : world) : list (positive * Z) * option positive :=
  (timers (win w), saveTimeout (adapter w)).

(** At most one deferred write is pending, and it is the one whose handle
    the adapter keeps. *)
Definition one_pending (w : world) : Prop :=
  timers (win w) = []
  \/ exists id due, timers (win w) = [(id, due)] /\ saveTimeout (adapter w) = Some id.

(** A burst of writes: each [setItem] is followed by a pause. *)
Fixpoint burst (writes : list (string * value * Z)) : M unit :=
  match writes with
  | [] => ret tt
  | (key, v, pause) :: rest => setItem key v >> advance pause >> burst rest
  end.

(** The cache after a burst. *)
Definition cache_after (writes : list (string * value * Z)) (c : document) : document :=
  fold_left (fun c kvp => <[fst (fst kvp) := snd (fst kvp)]> c) writes c.

(** The value last written under [key] in a burst, if any. *)
Fixpoint last_write (key : string) (writes : list (string * value * Z)) : option value :=
  match writes with
  | [] => None
  | (k, v, _) :: rest =>
      match last_write key rest with
      | Some v' => Some v'
      | None => if String.eqb key k then Some v else None
      end
  end.

(** The signed-in page after one setting has been written and flushed. *)
Definition settings_flushed : world :=
  exec (setItem "focusnook-settings" (VNum 5) >> advance 2000) signed_in.

(** Both client libraries are loaded and their clients initialised. *)
Definition scripts_ready (w : world) : Prop :=
  scriptsPromise (vars w) = Some Resolved
  /\ gapiInited (vars w) = true
  /\ gisInited (vars w) = true
  /\ tokenClient (vars w) = true.

(** The libraries are ready, or they have not been requested yet and the
    page will get both. *)
Definition scripts_will_load (w : world) : Prop :=
  scripts_ready w
  \/ (scriptsPromise (vars w) = None
      /\ preloaded (env (cloud w)) = false
      /\ gapi_loads (env (cloud w)) = true
      /\ gis_loads (env (cloud w)) = true).

(** What a failed [connect] must leave alone: the requests sent, the
    token in memory and in local storage, the backing file. *)
Definition session_of (w : world)
  : list request * option string * option Z * option string * gmap string string :=
  (requests (cloud w), accessToken (vars w), tokenExpiry (vars w),
   configFileId (vars w), localStorage (win w)).

(** A first visit to a page on which both client libraries are already
    present when the adapter first asks for them. *)
Definition preloaded_visit : world :=
  page_load [] [] ∅ ∅ 1700000000000
    {| drive := []; net := []; requests := []; next_file := 0;
       env := {| preloaded := true; gapi_loads := true; gis_loads := true;
                 consent := Some "ya29.demo" |} |}.

(** A first visit on which the user refuses consent. *)
Definition refusing_visit : world :=
  page_load [] [] ∅ ∅ 1700000000000
    {| drive := []; net := []; requests := []; next_file := 0;
       env := {| preloaded := false; gapi_loads := true; gis_loads := true;
                 consent := None |} |}.

(** What no operation of the adapter's session life cycle touches: the
    facade, the shell state, the clock, the deferred writes and the page
    environment. *)
Definition quiet_of (w : world)
  : facade * shell * Z * list (positive * Z) * option positive * page_env :=
  (storage w, ui w, clock (win w), timers (win w), saveTimeout (adapter w),
   env (cloud w)).

(** The token, in memory, in the gapi client and in local storage, with
    the dialogs shown so far. *)
Definition token_of (w : world)
  : option string * option Z * option string * gmap string string * list string :=
  (accessToken (vars w), tokenExpiry (vars w), gapiToken (win w),
   localStorage (win w), alerts (win w)).

(** The state of the client libraries. *)
Definition scripts_of (w : world) : option settled * bool * bool * bool :=
  (scriptsPromise (vars w), gapiInited (vars w), gisInited (vars w),
   tokenClient (vars w)).

(** The logical keys the bulk load reads, in the order of its
    [Promise.all]. *)
Definition load_keys : list string :=
  ["focusnook-custom-spaces"; "focusnook-current-space"; "focusnook-enabled-widgets";
   "focusnook-widget-visibility"; "focusnook-settings"; "focusnook-todoist";
   "focusnook-music"; "focusnook-custom-streams"].

(** What the save effects write when every one of them runs on a shell
    that is not loading, in the order the component declares them. *)
Definition write_back (s : shell) : list storage_call :=
  ([CallSet "focusnook-enabled-widgets" (enabledWidgets s);
    CallSet "focusnook-widget-visibility" (widgetVisibility s)]
   ++ (if truthy (currentSpace s)
       then [CallSet "focusnook-current-space" (prop "id" (currentSpace s))] else [])
   ++ [CallSet "focusnook-settings" (settings s);
       CallSet "focusnook-todoist" (todoistConfig s);
       CallSet "focusnook-music" (musicState s)]
   ++ (if truthy (prop "customStreams" (musicState s))
       then [CallSet "chillspace-custom-streams" (prop "customStreams" (musicState s))]
       else [])
   ++ [CallSet "chillspace-custom-spaces" (customSpaces s)])%list.

(** The facade's call log. *)
Definition calls_of (w : world) : list storage_call := calls (storage w).

(** What decides whether the stored token is usable: local storage and
    the clock. *)
Definition token_store_of (w : world) : gmap string string * Z :=
  (localStorage (win w), clock (win w)).

(* ===================================================================== *)
(** ** App.jsx and SettingsPanel.jsx: switching backends *)
(* ===================================================================== *)

(** App.jsx, the reconnect screen's "Continue with Local Storage" button.
    The render that follows changes no state variable a save effect
    depends on. *)
Definition continueWithLocalStorage : M unit :=
  storage_setAdapter LocalStorageAdapter >>
  ls_removeItem "focusnook-storage-type" >>
  modify (with_ui (set_needsDriveAuth false)) >>
  commit [].

(** App.jsx, [onDriveConnected]: what the shell does once the settings
    panel has connected.  [loadData] is not awaited, so its dialog-free
    work goes on while the alert is shown; the alert is placed after it. *)
Definition onDriveConnected (ds dm : list value) : M unit :=
  ls_setItem "focusnook-storage-type" "gdrive" >>
  storage_setAdapter GoogleDriveAdapter >>
  modify (with_ui (set_needsDriveAuth false)) >>
  loadData ds dm >>
  alert "Connected! Data will sync automatically.".

(** SettingsPanel.jsx, the "Connect Drive" button. *)
Definition connectDrive (ds dm : list value) : M unit :=
  try_catch
    (let* connected := connect in
     when connected (onDriveConnected ds dm))
    (fun err =>
       console_error ("Failed to connect Drive: " +:+ error_text err) >>
       alert ("Failed to connect to Google Drive: " +:+ error_text err)).

(** SettingsPanel.jsx, the Drive "Disconnect" button: the facade is given
    the local adapter and the page is reloaded. *)
Definition disconnectDrive (ds dm : list value) (w : world) : world :=
  reload ds dm (exec (storage_setAdapter LocalStorageAdapter) w).

(** The dialogs shown so far. *)
Definition alerts_of (w : world) : list string := alerts (win w).

(** What a read through the facade depends on when the remote adapter is
    active. *)
Definition read_side (w : world) : document * option string * option string * adapter_kind :=
  (cache (adapter w), accessToken (vars w), configFileId (vars w), active (storage w)).

(** The remote adapter is active and its cache holds the document. *)
Definition hydrated (w : world) : Prop :=
  active (storage w) = GoogleDriveAdapter
  /\ cache (adapter w) <> ∅
  /\ truthy_str (accessToken (vars w)) || truthy_str (configFileId (vars w)) = true.

(* ===================================================================== *)
(** * Properties *)
(* ===================================================================== *)

Ltac run :=
  repeat (progress unfold exec, eval, bind, ret, throw, get, modify, when, try_catch in * );
  cbn [fst snd] in *.

(** Case analysis on the innermost scrutinee of the goal. *)
Ltac break_match :=
  match goal with
  | |- context [match ?x with _ => _ end] =>
      lazymatch x with
      | context [match _ with _ => _ end] => fail
      | _ => destruct x eqn:?
      end
  end.

Ltac split_cases := repeat (cbn; break_match).

(** Field updates unfold as soon as they are applied. *)
Arguments with_vars f w /.
Arguments with_adapter f w /.
Arguments with_win f w /.
Arguments with_cloud f w /.
Arguments with_storage f w /.
Arguments with_ui f w /.
Arguments set_tokenClient b m /.
Arguments set_gapiInited b m /.
Arguments set_gisInited b m /.
Arguments set_accessToken t m /.
Arguments set_tokenExpiry t m /.
Arguments set_configFileId i m /.
Arguments set_scriptsPromise p m /.
Arguments set_cache c a /.
Arguments set_saveTimeout t a /.
Arguments set_localStorage ls b /.
Arguments set_clock t b /.
Arguments set_timers ts b /.
Arguments set_next_timer n b /.
Arguments push_alert msg b /.
Arguments push_console msg b /.
Arguments set_gapiToken t b /.
Arguments set_drive fs r /.
Arguments set_net n r /.
Arguments push_request q r /.
Arguments set_next_file n r /.
Arguments set_active a s /.
Arguments set_local_entries d s /.
Arguments push_call c s /.
Arguments set_isLoading b s /.
Arguments set_needsDriveAuth b s /.
Arguments set_customSpaces v s /.
Arguments set_currentSpace v s /.
Arguments set_enabledWidgets v s /.
Arguments set_widgetVisibility v s /.
Arguments set_settings v s /.
Arguments set_todoistConfig v s /.
Arguments set_musicState v s /.

(** ** Sequencing *)

Lemma run_seq {A B} (m : M A) (k : M B) w a :
  eval m w = Ok a -> (m >> k) w = k (exec m w).
Proof. run. destruct (m w) as [[?|?] ?]; cbn; congruence. Qed.

Lemma run_bind {A B} (m : M A) (k : A -> M B) w a :
  eval m w = Ok a -> (let* x := m in k x) w = k a (exec m w).
Proof. run. destruct (m w) as [[?|?] ?]; cbn; congruence. Qed.

(** ** JSON round trip *)

Lemma jsonify_serializable v : json_serializable v = true -> jsonify v = v.
Proof.
  revert v. fix IH 1.
  intros [| | b | n | s | items | fields] H; cbn in *;
    try reflexivity; try discriminate H.
  - f_equal. induction items as [|x xs IHxs]; cbn in *; [reflexivity|].
    apply andb_prop in H as [Hx Hxs]. rewrite (IHxs Hxs). f_equal.
    pose proof (IH x) as IHx.
    destruct x; try reflexivity; try discriminate Hx; exact (IHx Hx).
  - f_equal. induction fields as [|[k x] xs IHxs]; cbn in *; [reflexivity|].
    apply andb_prop in H as [Hx Hxs]. rewrite (IHxs Hxs).
    pose proof (IH x) as IHx.
    destruct x; try reflexivity; try discriminate Hx;
      f_equal; f_equal; exact (IHx Hx).
Qed.

Lemma jsonify_doc_lookup (c : document) k v :
  c !! k = Some v -> json_serializable v = true -> jsonify_doc c !! k = Some v.
Proof.
  intros Hk Hv. unfold jsonify_doc. rewrite lookup_omap, Hk. cbn.
  rewrite (jsonify_serializable v Hv). destruct v; try reflexivity; discriminate.
Qed.

(** ** The deferred write *)



(** [saveAllData] never throws; it touches the console and the remote
    side only. *)
Lemma saveAllData_run w :
  exists w', saveAllData w = (Ok tt, w')
    /\ vars w' = vars w /\ adapter w' = adapter w
    /\ storage w' = storage w /\ ui w' = ui w
    /\ localStorage (win w') = localStorage (win w)
    /\ clock (win w') = clock (win w)
    /\ timers (win w') = timers (win w)
    /\ next_timer (win w') = next_timer (win w)
    /\ alerts (win w') = alerts (win w).
Proof.
  unfold saveAllData, fetch_patch, send, console_error. run.
  split_cases; eexists; (split; [reflexivity|]); cbn; tauto.
Qed.

Lemma saveAllData_requests w :
  requests (cloud (exec saveAllData w)) =
  (requests (cloud w) ++
    (if truthy_str (configFileId (vars w))
     then [ReqPatch (default "" (configFileId (vars w)))
             (jsonify_doc (cache (adapter w)))]
     else []))%list.
Proof.
  unfold saveAllData, fetch_patch, send, console_error. run.
  split_cases; cbn in *; try discriminate; rewrite ?app_nil_r; reflexivity.
Qed.

(** A write that fails leaves the remote files as they were. *)
Lemma saveAllData_dropped w o rest :
  net (cloud w) = o :: rest -> o <> NetOk ->
  drive (cloud (exec saveAllData w)) = drive (cloud w).
Proof.
  intros Hnet Ho.
  unfold saveAllData, fetch_patch, send, console_error. run.
  split_cases; cbn in *; congruence.
Qed.

Lemma filter_tracked (tms : list (positive * Z)) id :
  (forall tm, In tm tms -> Some id = Some (fst tm)) ->
  List.filter (fun t => negb (Pos.eqb (fst t) id)) tms = [].
Proof.
  induction tms as [|tm tms IH]; cbn; intros H; [reflexivity|].
  assert (Some id = Some (fst tm)) as E by (apply H; now left).
  injection E as ->. rewrite Pos.eqb_refl. cbn. apply IH. intros; apply H; now right.
Qed.

(** On a world whose timers are tracked, [setItem] leaves exactly one
    pending timer: its own, due two seconds from now. *)
Lemma setItem_tracked k v w :
  tracked w ->
  setItem k v w =
  (Ok tt,
   {| vars := vars w;
      adapter := {| cache := <[k := v]> (cache (adapter w));
                    saveTimeout := Some (next_timer (win w)) |};
      win := set_next_timer (Pos.succ (next_timer (win w)))
               (set_timers [(next_timer (win w), clock (win w) + 2000)] (win w));
      cloud := cloud w; storage := storage w; ui := ui w |}).
Proof.
  intros Ht. unfold tracked in Ht.
  destruct w as [m [c st] b r s u]. unfold setItem, clearTimeout, setTimeout. run. cbn in *.
  destruct st as [id|]; cbn.
  - rewrite (filter_tracked _ id Ht). reflexivity.
  - destruct (timers b) as [|tm tms] eqn:E; [reflexivity|].
    specialize (Ht tm (or_introl eq_refl)). discriminate.
Qed.

Lemma setItem_run k v w :
  exists w', setItem k v w = (Ok tt, w')
    /\ vars w' = vars w
    /\ cache (adapter w') = <[k := v]> (cache (adapter w))
    /\ cloud w' = cloud w /\ storage w' = storage w /\ ui w' = ui w
    /\ localStorage (win w') = localStorage (win w)
    /\ alerts (win w') = alerts (win w)
    /\ console_errors (win w') = console_errors (win w).
Proof.
  unfold setItem, clearTimeout, setTimeout. run.
  split_cases; eexists; (split; [reflexivity|]); cbn; tauto.
Qed.


Lemma fire_same_session w tm : same_session w (fire w tm).
Proof.
  unfold fire, exec.
  destruct (saveAllData_run
              (with_win (fun b => set_clock (Z.max (clock b) (snd tm)) b) w))
    as (w' & -> & Hv & Ha & Hs & Hu & Hl & _ & _ & _ & Hal).
  cbn in *. unfold same_session. tauto.
Qed.

Lemma fires_same_session due w : same_session w (fold_left fire due w).
Proof.
  revert w. induction due as [|tm due IH]; intros w; cbn.
  - unfold same_session; tauto.
  - specialize (IH (fire w tm)). pose proof (fire_same_session w tm).
    unfold same_session in *. intuition congruence.
Qed.

Lemma advance_run d w :
  exists w', advance d w = (Ok tt, w') /\ same_session w w'.
Proof.
  unfold advance. eexists; split; [reflexivity|].
  pose proof (fires_same_session
    (List.filter (is_due (clock (win w) + d)) (timers (win w)))
    (with_win (set_timers
       (List.filter (fun tm => negb (is_due (clock (win w) + d) tm)) (timers (win w)))) w))
    as H.
  unfold same_session in *. cbn in *. tauto.
Qed.

Lemma getItem_cached k v w :
  truthy_str (accessToken (vars w)) || truthy_str (configFileId (vars w)) = true ->
  cache (adapter w) !! k = Some v ->
  getItem k w = (Ok (js_or v VNull), w).
Proof.
  intros Hconn Hk. unfold getItem. run.
  assert (Nat.eqb (size (cache (adapter w))) 0 = false) as Hsize.
  { apply Nat.eqb_neq. intros E. apply map_size_empty_iff in E.
    rewrite E, lookup_empty in Hk. discriminate. }
  destruct (truthy_str (accessToken (vars w))), (truthy_str (configFileId (vars w)));
    try discriminate; cbn beta iota delta [negb andb];
    rewrite ?Hsize; unfold get_prop; rewrite Hk; reflexivity.
Qed.


Lemma advance_idle d w :
  0 <= d ->
  (forall tm, In tm (timers (win w)) -> is_due (clock (win w) + d) tm = false) ->
  advance d w = (Ok tt, with_win (set_clock (clock (win w) + d)) w).
Proof.
  intros Hd Hidle. unfold advance.
  assert (List.filter (is_due (clock (win w) + d)) (timers (win w)) = []) as ->.
  { induction (timers (win w)) as [|tm tms IH]; cbn; [reflexivity|].
    rewrite (Hidle tm) by now left. apply IH. intros; apply Hidle; now right. }
  assert (List.filter (fun tm => negb (is_due (clock (win w) + d) tm)) (timers (win w))
          = timers (win w)) as ->.
  { induction (timers (win w)) as [|tm tms IH]; cbn; [reflexivity|].
    rewrite (Hidle tm) by now left. cbn. f_equal. apply IH. intros; apply Hidle; now right. }
  destruct w as [m a b r s u]. destruct b. cbn. repeat f_equal. lia.
Qed.

Lemma advance_single d tm w :
  timers (win w) = [tm] ->
  is_due (clock (win w) + d) tm = true ->
  advance d w =
  (Ok tt, with_win (fun b => set_clock (Z.max (clock b) (clock (win w) + d)) b)
            (fire (with_win (set_timers []) w) tm)).
Proof.
  intros Htm Hdue. unfold advance. rewrite Htm. cbn [List.filter].
  rewrite Hdue. reflexivity.
Qed.



(** ** Reasoning rules for [total] and [preserves] *)

Section Rules.

Context {A B : Type}.

Lemma total_ret (a : A) : total (ret a).
Proof. intros w. now exists a. Qed.

Lemma total_get (f : world -> A) : total (get f).
Proof. intros w. now exists (f w). Qed.

Lemma total_modify f : total (modify f).
Proof. intros w. now exists tt. Qed.

Lemma total_bind (m : M A) (k : A -> M B) :
  total m -> (forall a, total (k a)) -> total (bind m k).
Proof.
  intros Hm Hk w. destruct (Hm w) as [a Ha]. run.
  destruct (m w) as [[a'|e] w']; cbn in *; [|discriminate].
  apply (Hk a' w').
Qed.

Lemma total_try_catch (m : M A) (h : js_error -> M A) :
  (forall e, total (h e)) -> total (try_catch m h).
Proof.
  intros Hh w. run. destruct (m w) as [[a|e] w']; cbn; [now exists a|].
  apply (Hh e w').
Qed.

Lemma total_when (b : bool) (m : M A) : total m -> total (when b m).
Proof.
  intros Hm. unfold when. destruct b; [|intros w; now exists tt].
  intros w. destruct (Hm w) as [a Ha]. run.
  destruct (m w) as [[?|?] ?]; cbn in *; [now exists tt|discriminate].
Qed.

Variable R : world -> world -> Prop.
Hypothesis R_refl : forall w, R w w.
Hypothesis R_trans : forall w1 w2 w3, R w1 w2 -> R w2 w3 -> R w1 w3.

Lemma preserves_ret (a : A) : preserves R (ret a).
Proof. intros w. apply R_refl. Qed.

Lemma preserves_throw e : preserves R (@throw A e).
Proof. intros w. apply R_refl. Qed.

Lemma preserves_get (f : world -> A) : preserves R (get f).
Proof. intros w. apply R_refl. Qed.

Lemma preserves_modify f : (forall w, R w (f w)) -> preserves R (modify f).
Proof. intros H w. apply H. Qed.

Lemma preserves_bind (m : M A) (k : A -> M B) :
  preserves R m -> (forall a, preserves R (k a)) -> preserves R (bind m k).
Proof.
  intros Hm Hk w. specialize (Hm w). run.
  destruct (m w) as [[a|e] w']; cbn in *; [|exact Hm].
  eapply R_trans; [exact Hm|]. apply (Hk a w').
Qed.

Lemma preserves_try_catch (m : M A) (h : js_error -> M A) :
  preserves R m -> (forall e, preserves R (h e)) -> preserves R (try_catch m h).
Proof.
  intros Hm Hh w. specialize (Hm w). run.
  destruct (m w) as [[a|e] w']; cbn in *; [exact Hm|].
  eapply R_trans; [exact Hm|]. apply (Hh e w').
Qed.

Lemma preserves_when (b : bool) (m : M A) : preserves R m -> preserves R (when b m).
Proof.
  intros Hm. unfold when. destruct b; [|intros w; apply R_refl].
  intros w. specialize (Hm w). run. destruct (m w) as [[?|?] ?]; exact Hm.
Qed.

End Rules.

Lemma keeps_refl {B} (f : world -> B) w : keeps f w w.
Proof. reflexivity. Qed.

Lemma keeps_trans {B} (f : world -> B) w1 w2 w3 :
  keeps f w1 w2 -> keeps f w2 w3 -> keeps f w1 w3.
Proof. unfold keeps. congruence. Qed.

Lemma calls_only_refl P w : calls_only P w w.
Proof. exists []. split; [now rewrite app_nil_r|constructor]. Qed.

Lemma calls_only_trans P w1 w2 w3 :
  calls_only P w1 w2 -> calls_only P w2 w3 -> calls_only P w1 w3.
Proof.
  intros (n1 & E1 & F1) (n2 & E2 & F2). exists (n1 ++ n2)%list. split.
  - now rewrite E2, E1, <- app_assoc.
  - apply Forall_app; now split.
Qed.

Lemma calls_only_keeps P w w' :
  keeps (fun w => calls (storage w)) w w' -> calls_only P w w'.
Proof. intros H. exists []. split; [now rewrite app_nil_r|constructor]. Qed.

(** The primitives are [get]s and [modify]s. *)
Ltac prims :=
  unfold ls_getItem, ls_setItem, ls_removeItem, Date_now, alert, console_error,
    clearTimeout, gapi_setToken, gapi_drive, initialize.

(** Syntax-directed proof of [total m]. *)
Ltac totality :=
  repeat first
    [ apply total_ret | apply total_get | apply total_modify
    | apply total_try_catch; intros ?
    | apply total_when
    | apply total_bind; [|intros ?]
    | match goal with
      | |- total (if ?b then _ else _) => destruct b
      | |- total (match ?x with _ => _ end) => destruct x
      end
    | progress prims ].

Create HintDb frames.

(** Syntax-directed proof of [preserves (keeps f) m]. *)
Ltac keeping :=
  repeat first
    [ solve [auto with frames]
    | apply preserves_ret; apply keeps_refl
    | apply preserves_throw; apply keeps_refl
    | apply preserves_get; apply keeps_refl
    | apply preserves_modify; intros ?; reflexivity
    | apply preserves_when; [apply keeps_refl|]
    | apply preserves_try_catch; [apply keeps_trans| |intros ?]
    | apply preserves_bind; [apply keeps_trans| |intros ?]
    | match goal with
      | |- preserves _ (if ?b then _ else _) => destruct b
      | |- preserves _ (match ?x with _ => _ end) => destruct x
      | H : preserves ?R ?m |- preserves ?R ?m => exact H
      end
    | progress prims
    | progress cbv zeta
    | solve [intros ?; unfold keeps; reflexivity] ].

(** ** The storage interface never throws *)

Create HintDb totals.

Lemma total_send q : total (send q).
Proof. intros w. eexists. reflexivity. Qed.

Lemma total_setTimeout d : total (setTimeout d).
Proof. intros w. eexists. reflexivity. Qed.

Lemma total_clearToken : total clearToken.
Proof. unfold clearToken. totality. Qed.

Lemma total_loadAllData : total loadAllData.
Proof. unfold loadAllData. totality. Qed.

Lemma total_saveAllData : total saveAllData.
Proof. unfold saveAllData. totality. Qed.

#[local] Hint Resolve total_send total_setTimeout total_clearToken
  total_loadAllData total_saveAllData : totals.

Lemma total_getItem k : total (getItem k).
Proof. unfold getItem. totality; auto with totals. Qed.

Lemma total_setItem k v : total (setItem k v).
Proof. unfold setItem. totality; auto with totals. Qed.

Lemma total_removeItem k : total (removeItem k).
Proof. unfold removeItem. totality; auto with totals. Qed.

Lemma total_advance d : total (advance d).
Proof. intros w. eexists. reflexivity. Qed.

Lemma total_restoreSession : total restoreSession.
Proof. unfold restoreSession. totality; auto with totals. Qed.

#[local] Hint Resolve total_getItem total_setItem total_removeItem
  total_restoreSession : totals.

(** A read that has to fetch the document and cannot: the cache stays
    empty, the failure goes to the console, the caller gets [null]. *)
Lemma getItem_failed_read k w o rest :
  truthy_str (configFileId (vars w)) = true ->
  cache (adapter w) = ∅ ->
  net (cloud w) = o :: rest -> o <> NetOk ->
  eval (getItem k) w = Ok VNull
  /\ cache (adapter (exec (getItem k) w)) = ∅
  /\ exists msg,
      console_errors (win (exec (getItem k) w)) =
      (console_errors (win w) ++ [msg])%list.
Proof.
  intros Hid Hc Hnet Ho.
  unfold getItem, loadAllData, drive_files_get, gapi_drive, send, console_error. run.
  rewrite Hid. cbn [negb]. rewrite andb_false_r. cbn beta iota.
  rewrite Hc, map_size_empty. cbn. rewrite Hid. cbn.
  destruct (gapiInited (vars w)); cbn.
  - rewrite Hnet. destruct o; [congruence| |]; cbn;
      (split; [reflexivity|split; [reflexivity|eexists; reflexivity]]).
  - split; [reflexivity|split; [reflexivity|eexists; reflexivity]].
Qed.

(** A write that cannot reach the file: nothing is thrown, the file keeps
    its content, the failure goes to the console. *)
Lemma saveAllData_failed_write w o rest :
  net (cloud w) = o :: rest -> o <> NetOk ->
  eval saveAllData w = Ok tt
  /\ drive (cloud (exec saveAllData w)) = drive (cloud w)
  /\ exists msg,
      console_errors (win (exec saveAllData w)) =
      (console_errors (win w) ++ [msg])%list.
Proof.
  intros Hnet Ho. split; [|split].
  - destruct (saveAllData_run w) as (w' & E & _). unfold eval. now rewrite E.
  - eapply saveAllData_dropped; eauto.
  - unfold saveAllData, fetch_patch, send, console_error. run.
    destruct (truthy_str (configFileId (vars w))); cbn; [|eexists; reflexivity].
    rewrite Hnet. destruct o; [congruence| |]; cbn; eexists; reflexivity.
Qed.





(** ** Session recovery *)

Lemma initialize_only_vars w :
  adapter (exec initialize w) = adapter w
  /\ win (exec initialize w) = win w
  /\ cloud (exec initialize w) = cloud w
  /\ storage (exec initialize w) = storage w
  /\ ui (exec initialize w) = ui w
  /\ accessToken (vars (exec initialize w)) = accessToken (vars w)
  /\ tokenExpiry (vars (exec initialize w)) = tokenExpiry (vars w)
  /\ configFileId (vars (exec initialize w)) = configFileId (vars w).
Proof.
  unfold initialize, loadGoogleScripts. run.
  split_cases; cbn; tauto.
Qed.

(** What [restoreSession] does once the scripts are loaded, by the state
    of the stored token. *)
Lemma restoreSession_unusable w :
  stored_token_usable w = false ->
  eval restoreSession w = Ok false
  /\ localStorage (win (exec restoreSession w)) = localStorage (win w)
  /\ accessToken (vars (exec restoreSession w)) = accessToken (vars w)
  /\ tokenExpiry (vars (exec restoreSession w)) = tokenExpiry (vars w)
  /\ configFileId (vars (exec restoreSession w)) = configFileId (vars w)
  /\ cloud (exec restoreSession w) = cloud w
  /\ storage (exec restoreSession w) = storage w
  /\ ui (exec restoreSession w) = ui w.
Proof.
  intros Hu. unfold stored_token_usable in Hu.
  destruct (initialize_only_vars w) as (Ha & Hw & Hc & Hs & Hui & Hat & Hte & Hid).
  unfold restoreSession, ls_getItem, Date_now, alert. run.
  destruct (initialize w) as [[[]|e] w1]; cbn in *.
  - rewrite Hw, Hu. cbn.
    destruct (truthy_str (localStorage (win w) !! "gdrive_token")); cbn;
      rewrite ?Hw; repeat split; assumption.
  - rewrite ?Hw. repeat split; assumption.
Qed.

Lemma restoreSession_api_failure w :
  eval initialize w = Ok tt ->
  stored_token_usable w = true ->
  eval restoreSession w = Ok false ->
  accessToken (vars (exec restoreSession w)) = None
  /\ tokenExpiry (vars (exec restoreSession w)) = None
  /\ localStorage (win (exec restoreSession w)) !! "gdrive_token" = None
  /\ localStorage (win (exec restoreSession w)) !! "gdrive_expiry" = None.
Proof.
  intros Hi Hu. unfold stored_token_usable in Hu.
  destruct (initialize_only_vars w) as (_ & Hw & _).
  unfold restoreSession, ls_getItem, Date_now, alert, console_error, clearToken,
    ls_removeItem. run.
  destruct (initialize w) as [[[]|e] w1]; cbn -[findOrCreateConfigFile] in *;
    [|discriminate].
  rewrite Hw, Hu. unfold gapi_setToken. run.
  destruct (gapiInited (vars w1)); cbn -[findOrCreateConfigFile];
    match goal with
    | |- context [findOrCreateConfigFile ?W] =>
        destruct (findOrCreateConfigFile W) as [[[]|err] w2]
    end; cbn; try discriminate; intros _; repeat split;
    try apply lookup_delete_eq;
    (rewrite lookup_delete_ne by discriminate; apply lookup_delete_eq).
Qed.

(** ** The facade and the save effects *)

Lemma storage_set_run k v w :
  exists w',
    storage_set k v w = (Ok tt, w')
    /\ ui w' = ui w
    /\ active (storage w') = active (storage w)
    /\ vars w' = vars w
    /\ cloud w' = cloud w
    /\ calls (storage w') = (calls (storage w) ++ [CallSet k v])%list.
Proof.
  unfold storage_set, local_setItem. run. cbn -[setItem].
  destruct (active (storage w)) eqn:Ea; cbn -[setItem].
  - eexists. split; [reflexivity|]. cbn. rewrite ?Ea. now repeat split.
  - match goal with
    | |- context [setItem k v ?W] =>
        destruct (setItem_run k v W) as (w' & -> & Hv & _ & Hc & Hs & Hu & _)
    end.
    exists w'. split; [reflexivity|]. rewrite Hs, Hu, Hv, Hc. cbn. rewrite ?Ea.
    now repeat split.
Qed.

Lemma writes_storage_set k v :
  writes_exactly (storage_set k v) (fun _ => [CallSet k v]).
Proof. intros w. apply storage_set_run. Qed.

Lemma writes_ret : writes_exactly (ret tt) (fun _ => []).
Proof. intros w. exists w. rewrite app_nil_r. now repeat split. Qed.

Lemma writes_of_CallSet changed s : Forall is_CallSet (writes_of changed s).
Proof.
  unfold writes_of.
  repeat (apply Forall_app; split);
    repeat match goal with
           | |- context [if ?b then _ else _] => destruct b
           end;
    repeat constructor.
Qed.

Lemma writes_seq m k f g :
  writes_exactly m f -> writes_exactly k g ->
  writes_exactly (m >> k) (fun s => (f s ++ g s)%list).
Proof.
  intros Hm Hk w. destruct (Hm w) as (w1 & E1 & U1 & A1 & V1 & L1 & C1).
  destruct (Hk w1) as (w2 & E2 & U2 & A2 & V2 & L2 & C2).
  exists w2. run. rewrite E1, E2. repeat split; try congruence.
  rewrite C2, C1, U1. now rewrite app_assoc.
Qed.

Lemma writes_when (b : bool) m f :
  writes_exactly m f ->
  writes_exactly (when b m) (fun s => if b then f s else []).
Proof.
  intros Hm. destruct b; [|apply writes_ret].
  intros w. destruct (Hm w) as (w1 & E1 & U1 & A1 & V1 & L1 & C1).
  exists w1. run. now rewrite E1.
Qed.

Lemma writes_with_ui (k : shell -> M unit) (f : shell -> shell -> list storage_call) :
  (forall s, writes_exactly (k s) (f s)) ->
  writes_exactly (let* s := get ui in k s) (fun s => f s s).
Proof. intros Hk w. run. apply (Hk (ui w) w). Qed.

Lemma writes_ext m f g :
  (forall s, f s = g s) -> writes_exactly m f -> writes_exactly m g.
Proof.
  intros E Hm w. destruct (Hm w) as (w1 & ? & ? & ? & ? & ? & C). exists w1.
  rewrite <- E. tauto.
Qed.

(** [commit] makes exactly the calls [writes_of] lists. *)
Lemma commit_writes changed : writes_exactly (commit changed) (writes_of changed).
Proof.
  unfold commit, save_effects, run_effects,
    save_enabledWidgets, save_widgetVisibility, save_currentSpace, save_settings,
    save_todoistConfig, save_musicState, save_customSpaces.
  eapply writes_ext;
    [|repeat first
        [ apply writes_storage_set
        | apply writes_ret
        | apply writes_when
        | apply writes_with_ui; intros ?
        | apply writes_seq ] ].
  intros s. unfold writes_of.
  repeat match goal with
         | |- context [depends_on changed ?d] => destruct (depends_on changed d)
         end;
    destruct (isLoading s); cbn;
    repeat match goal with
           | |- context [truthy ?x] => destruct (truthy x)
           end; reflexivity.
Qed.







(** ** The expiry boundary *)

Lemma commit_run changed w :
  exists w',
    commit changed w = (Ok tt, w')
    /\ ui w' = ui w
    /\ active (storage w') = active (storage w)
    /\ vars w' = vars w
    /\ cloud w' = cloud w
    /\ calls (storage w') = (calls (storage w) ++ writes_of changed (ui w))%list.
Proof. apply commit_writes. Qed.

Lemma expired_not_usable w e t :
  localStorage (win w) !! "gdrive_expiry" = Some e ->
  Number e = Some t -> t <= clock (win w) ->
  stored_token_usable w = false.
Proof.
  intros He Hn Ht. unfold stored_token_usable. rewrite He. cbn. rewrite Hn. cbn.
  assert ((clock (win w) <? t) = false) as -> by lia.
  now rewrite andb_false_r.
Qed.

(** Reduction that leaves the program's own functions folded. *)
Ltac hold :=
  cbn -[initialize loadGoogleScripts restoreSession commit loadData connect
        findOrCreateConfigFile createConfigFile loadAllData saveAllData
        getItem setItem storage_get storage_set storage_setAdapter writes_of] in *.

Lemma init_needs_auth ds dm w :
  localStorage (win w) !! "focusnook-storage-type" = Some "gdrive" ->
  eval initialize w = Ok tt ->
  stored_token_usable w = false ->
  eval (init ds dm) w = Ok tt
  /\ needsDriveAuth (ui (exec (init ds dm) w)) = true
  /\ isLoading (ui (exec (init ds dm) w)) = false
  /\ active (storage (exec (init ds dm) w)) = active (storage w)
  /\ requests (cloud (exec (init ds dm) w)) = requests (cloud w)
  /\ Forall is_CallSet (calls_since w (exec (init ds dm) w)).
Proof.
  intros Hflag Hi Hu.
  destruct (initialize_only_vars w) as (_ & Hw & Hc & Hs & Hui & _).
  unfold init, recover_storage_type, start_with, ls_getItem. run. rewrite Hflag. hold.
  rewrite bool_decide_eq_true_2 by reflexivity.
  destruct (initialize w) as [[[]|e] w1] eqn:Ei; hold; [|discriminate].
  assert (stored_token_usable w1 = false) as Hu1.
  { unfold stored_token_usable in *. now rewrite Hw. }
  destruct (restoreSession_unusable w1 Hu1) as (Hr & _ & _ & _ & _ & Hc2 & Hs2 & Hui2).
  unfold eval, exec in *.
  destruct (restoreSession w1) as [[b|] w2]; hold; [|discriminate].
  injection Hr as ->. hold.
  match goal with
  | |- context [commit [IsLoading] ?W] =>
      destruct (commit_run [IsLoading] W) as (w3 & -> & U3 & A3 & V3 & L3 & C3)
  end.
  hold. rewrite U3, A3, L3, Hs2, Hs, Hc2, Hc. repeat split; try reflexivity.
  unfold calls_since. rewrite C3. hold. rewrite Hs2, Hs, drop_app_length.
  apply writes_of_CallSet.
Qed.

Lemma restoreSession_true_usable w :
  eval restoreSession w = Ok true -> stored_token_usable w = true.
Proof.
  intros H. destruct (stored_token_usable w) eqn:E; [reflexivity|].
  destruct (restoreSession_unusable w E) as (H' & _). congruence.
Qed.

(** C4.  A stored token counts only while [now < expiry].  With a stored
    expiry that is not in the future, one millisecond in the past
    included, [restoreSession] returns [false] without sending any request
    and without resolving a file, [hasValidToken] is false for that expiry,
    and the boot effect of a page whose recorded preference is the remote
    adapter ends on the reconnect screen ([needsDriveAuth]), the adapter
    left as it was and nothing read.  Conversely [restoreSession] returns
    [true] only when the stored expiry is strictly in the future. *)
Theorem expired_token_forces_interactive_auth :
  (forall ds dm w e t,
      localStorage (win w) !! "gdrive_expiry" = Some e ->
      Number e = Some t ->
      t <= clock (win w) ->
      eval restoreSession w = Ok false
      /\ requests (cloud (exec restoreSession w)) = requests (cloud w)
      /\ configFileId (vars (exec restoreSession w)) = configFileId (vars w)
      /\ (tokenExpiry (vars w) = Some t -> eval hasValidToken w = Ok false)
      /\ (localStorage (win w) !! "focusnook-storage-type" = Some "gdrive" ->
          eval initialize w = Ok tt ->
          needsDriveAuth (ui (exec (init ds dm) w)) = true
          /\ active (storage (exec (init ds dm) w)) = active (storage w)
          /\ requests (cloud (exec (init ds dm) w)) = requests (cloud w)
          /\ Forall is_CallSet (calls_since w (exec (init ds dm) w))))
  /\ (forall w,
        eval restoreSession w = Ok true ->
        exists e t,
          localStorage (win w) !! "gdrive_expiry" = Some e
          /\ Number e = Some t
          /\ clock (win w) < t).
Proof.
  split.
  - intros ds dm w e t He Hn Ht.
    pose proof (expired_not_usable w e t He Hn Ht) as Hu.
    destruct (restoreSession_unusable w Hu) as (Hr & _ & _ & _ & Hid & Hc & _).
    split; [exact Hr|]. split; [now rewrite Hc|]. split; [exact Hid|]. split.
    + intros Hte. unfold hasValidToken, Date_now. run. rewrite Hte. cbn.
      assert ((clock (win w) <? t) = false) as -> by lia.
      now rewrite andb_false_r.
    + intros Hflag Hi.
      destruct (init_needs_auth ds dm w Hflag Hi Hu) as (_ & H1 & _ & H2 & H3 & H4).
      now repeat split.
  - intros w Hr. apply restoreSession_true_usable in Hr.
    unfold stored_token_usable in Hr.
    apply andb_prop in Hr as [Hr Hgt]. apply andb_prop in Hr as [_ Hexp].
    destruct (localStorage (win w) !! "gdrive_expiry") as [e|]; [|discriminate].
    cbn in Hgt. destruct (Number e) as [t|] eqn:En; [|discriminate].
    exists e, t. unfold num_gt in Hgt. apply Z.ltb_lt in Hgt. now repeat split.
Qed.

Lemma expired_token_forces_interactive_auth_witness :
  eval restoreSession (returning_visit true (1700000000000 - 1) []) = Ok false
  /\ needsDriveAuth
       (ui (exec (init [] []) (returning_visit true (1700000000000 - 1) []))) = true.
Proof.
  pose proof (proj1 expired_token_forces_interactive_auth [] []
                (returning_visit true (1700000000000 - 1) [])
                "1699999999999" 1699999999999
                ltac:(vm_compute; reflexivity) ltac:(vm_compute; reflexivity)
                ltac:(vm_compute; discriminate)) as (H1 & _ & _ & _ & H5).
  split; [exact H1|].
  apply H5; vm_compute; reflexivity.
Defined.

(** ** Resolving the backing file *)

Lemma send_at q w :
  send q w =
  (Ok (outcome_at 0 w),
   with_cloud (fun r => set_net (tail (net r)) (push_request q r)) w).
Proof. unfold send, outcome_at. destruct (net (cloud w)); reflexivity. Qed.

Lemma findOrCreate_creates w :
  gapiInited (vars w) = true ->
  matching_files w = [] ->
  outcome_at 0 w = NetOk -> outcome_at 1 w = NetOk ->
  eval findOrCreateConfigFile w = Ok tt
  /\ drive (cloud (exec findOrCreateConfigFile w))
     = (drive (cloud w) ++ [new_config_file w])%list
  /\ configFileId (vars (exec findOrCreateConfigFile w))
     = Some (file_id (new_config_file w))
  /\ cache (adapter (exec findOrCreateConfigFile w)) = ∅
  /\ requests (cloud (exec findOrCreateConfigFile w))
     = (requests (cloud w) ++ [ReqList; ReqCreate])%list.
Proof.
  intros Hg Hm H0 H1. unfold matching_files in Hm.
  unfold findOrCreateConfigFile, drive_files_list, createConfigFile, fetch_create,
    gapi_drive, console_error. run.
  rewrite Hg. cbn -[send]. rewrite send_at, H0. cbn -[send]. rewrite Hm.
  cbn -[send]. rewrite send_at.
  match goal with
  | |- context [outcome_at 0 ?W] => assert (outcome_at 0 W = NetOk) as ->
  end.
  { unfold outcome_at in *. cbn. destruct (net (cloud w)) as [|? [|? ?]]; cbn in *;
      congruence. }
  cbn. rewrite <- app_assoc. repeat split.
Qed.

Lemma findOrCreate_create_rejected w :
  gapiInited (vars w) = true ->
  matching_files w = [] ->
  outcome_at 0 w = NetOk -> outcome_at 1 w = NetDown ->
  eval findOrCreateConfigFile w = Throw (TypeError "Failed to fetch")
  /\ drive (cloud (exec findOrCreateConfigFile w)) = drive (cloud w)
  /\ requests (cloud (exec findOrCreateConfigFile w))
     = (requests (cloud w) ++ [ReqList; ReqCreate])%list.
Proof.
  intros Hg Hm H0 H1. unfold matching_files in Hm.
  unfold findOrCreateConfigFile, drive_files_list, createConfigFile, fetch_create,
    gapi_drive, console_error. run.
  rewrite Hg. cbn -[send]. rewrite send_at, H0. cbn -[send]. rewrite Hm.
  cbn -[send]. rewrite send_at.
  match goal with
  | |- context [outcome_at 0 ?W] => assert (outcome_at 0 W = NetDown) as ->
  end.
  { unfold outcome_at in *. cbn. destruct (net (cloud w)) as [|? [|? ?]]; cbn in *;
      congruence. }
  cbn. rewrite <- app_assoc. repeat split.
Qed.

Lemma findOrCreate_search_rejected w :
  gapiInited (vars w) = true ->
  outcome_at 0 w <> NetOk ->
  (exists e, eval findOrCreateConfigFile w = Throw e)
  /\ drive (cloud (exec findOrCreateConfigFile w)) = drive (cloud w)
  /\ configFileId (vars (exec findOrCreateConfigFile w)) = configFileId (vars w).
Proof.
  intros Hg H0.
  unfold findOrCreateConfigFile, drive_files_list, gapi_drive, console_error. run.
  rewrite Hg. cbn -[send]. rewrite send_at.
  destruct (outcome_at 0 w); [congruence| |]; cbn; (split; [eexists; reflexivity|]);
    split; reflexivity.
Qed.

Lemma loadAllData_frame w :
  exists w', loadAllData w = (Ok tt, w')
    /\ vars w' = vars w /\ drive (cloud w') = drive (cloud w)
    /\ storage w' = storage w /\ ui w' = ui w
    /\ localStorage (win w') = localStorage (win w).
Proof.
  unfold loadAllData, drive_files_get, gapi_drive, send, console_error. run.
  split_cases; eexists; (split; [reflexivity|]); cbn; tauto.
Qed.

Lemma findOrCreate_first_match w f fs :
  gapiInited (vars w) = true ->
  matching_files w = f :: fs ->
  outcome_at 0 w = NetOk ->
  eval findOrCreateConfigFile w = Ok tt
  /\ configFileId (vars (exec findOrCreateConfigFile w)) = Some (file_id f)
  /\ drive (cloud (exec findOrCreateConfigFile w)) = drive (cloud w).
Proof.
  intros Hg Hm H0. unfold matching_files in Hm.
  unfold findOrCreateConfigFile, drive_files_list, gapi_drive, console_error. run.
  rewrite Hg. cbn -[send loadAllData]. rewrite send_at, H0. cbn -[send loadAllData].
  rewrite Hm. cbn -[send loadAllData].
  match goal with
  | |- context [loadAllData ?W] =>
      destruct (loadAllData_frame W) as (w' & -> & Hv & Hd & _)
  end.
  cbn. rewrite Hv, Hd. repeat split.
Qed.

(** C6, as the code has it.  Once the search has answered: when no file
    matches and the creation request succeeds, exactly one file is added,
    named [focusnook-data.json], with the empty object as content, it
    becomes the backing file and the call returns normally; when the
    creation request cannot complete, the error is rethrown to the caller
    and no file is added; when one or more files match, the first match
    becomes the backing file and no file is added.  A search that fails is
    rethrown as well. *)
Theorem findOrCreateConfigFile_outcomes w :
  gapiInited (vars w) = true ->
  (outcome_at 0 w = NetOk -> matching_files w = [] -> outcome_at 1 w = NetOk ->
   eval findOrCreateConfigFile w = Ok tt
   /\ drive (cloud (exec findOrCreateConfigFile w))
      = (drive (cloud w) ++ [new_config_file w])%list
   /\ file_name (new_config_file w) = "focusnook-data.json"
   /\ file_body (new_config_file w) = ∅
   /\ configFileId (vars (exec findOrCreateConfigFile w))
      = Some (file_id (new_config_file w))
   /\ requests (cloud (exec findOrCreateConfigFile w))
      = (requests (cloud w) ++ [ReqList; ReqCreate])%list)
  /\ (outcome_at 0 w = NetOk -> matching_files w = [] -> outcome_at 1 w = NetDown ->
      eval findOrCreateConfigFile w = Throw (TypeError "Failed to fetch")
      /\ drive (cloud (exec findOrCreateConfigFile w)) = drive (cloud w))
  /\ (forall f fs,
        outcome_at 0 w = NetOk -> matching_files w = f :: fs ->
        eval findOrCreateConfigFile w = Ok tt
        /\ configFileId (vars (exec findOrCreateConfigFile w)) = Some (file_id f)
        /\ drive (cloud (exec findOrCreateConfigFile w)) = drive (cloud w))
  /\ (outcome_at 0 w <> NetOk ->
      (exists e, eval findOrCreateConfigFile w = Throw e)
      /\ drive (cloud (exec findOrCreateConfigFile w)) = drive (cloud w)).
Proof.
  intros Hg. split; [|split; [|split]].
  - intros H0 Hm H1.
    destruct (findOrCreate_creates w Hg Hm H0 H1) as (E & D & I & _ & Q).
    now repeat split.
  - intros H0 Hm H1.
    destruct (findOrCreate_create_rejected w Hg Hm H0 H1) as (E & D & _).
    now split.
  - intros f fs H0 Hm. now apply (findOrCreate_first_match w f fs).
  - intros H0. destruct (findOrCreate_search_rejected w Hg H0) as (E & D & _).
    now split.
Qed.

Lemma findOrCreateConfigFile_outcomes_witness :
  eval findOrCreateConfigFile (exec initialize first_visit) = Ok tt
  /\ drive (cloud (exec findOrCreateConfigFile (exec initialize first_visit)))
     = [new_config_file (exec initialize first_visit)].
Proof.
  pose proof (proj1 (findOrCreateConfigFile_outcomes (exec initialize first_visit)
                       ltac:(vm_compute; reflexivity))
                ltac:(vm_compute; reflexivity) ltac:(vm_compute; reflexivity)
                ltac:(vm_compute; reflexivity)) as (H1 & H2 & _).
  split; [exact H1|exact H2].
Defined.

(** C6 as stated fails: no file matches, the search succeeds, the creation
    request cannot complete; the call throws and no file exists
    afterwards. *)
Lemma findOrCreateConfigFile_can_throw :
  let w := with_faults [NetOk; NetDown] (exec initialize first_visit) in
  matching_files w = []
  /\ eval findOrCreateConfigFile w = Throw (TypeError "Failed to fetch")
  /\ drive (cloud (exec findOrCreateConfigFile w)) = [].
Proof. vm_compute. repeat split. Qed.

(** ** Task normalisation *)

Lemma map_outcome_objects (tasks : list value) :
  Forall is_object tasks ->
  map_outcome TodoistV1.normalize tasks = Ok (map local_task tasks).
Proof.
  induction 1 as [|t ts Ht _ IH]; cbn; [reflexivity|].
  destruct t; try contradiction. cbn in *. rewrite IH. reflexivity.
Qed.

(** C7, as the code has it.  The current revision of [getTasks], written
    for the v1 API, returns the same result whether the proxy answers with
    the bare array of tasks or with an envelope whose [results] is that
    array; for a successful answer the result is the tasks normalised one
    by one, each object [t] becoming [local_task t].  The earlier revision,
    written for the REST v2 API, normalises the bare array and throws on
    the envelope. *)
Theorem getTasks_shape_independent :
  (forall (flat envelope : proxy) token filter st tasks fields,
      assoc "results" fields = VArr tasks ->
      flat (TodoistV1.API_BASE +:+ tasks_endpoint filter) token
        = Fetched {| status := st; json := Some (VArr tasks) |} ->
      envelope (TodoistV1.API_BASE +:+ tasks_endpoint filter) token
        = Fetched {| status := st; json := Some (VObj fields) |} ->
      TodoistV1.getTasks flat token filter = TodoistV1.getTasks envelope token filter
      /\ (200 <= st <= 299 -> st <> 204 ->
          TodoistV1.getTasks flat token filter
            = map_outcome TodoistV1.normalize tasks
          /\ (Forall is_object tasks ->
              TodoistV1.getTasks envelope token filter = Ok (map local_task tasks))))
  /\ (forall base (flat envelope : proxy) token filter tasks fields,
        flat (TodoistRest2.API_BASE base +:+ tasks_endpoint filter) token
          = Fetched {| status := 200; json := Some (VArr tasks) |} ->
        envelope (TodoistRest2.API_BASE base +:+ tasks_endpoint filter) token
          = Fetched {| status := 200; json := Some (VObj fields) |} ->
        TodoistRest2.getTasks base flat token filter
          = map_outcome TodoistRest2.normalize tasks
        /\ TodoistRest2.getTasks base envelope token filter
           = Throw (TypeError "tasks.map is not a function")).
Proof.
  split.
  - intros flat envelope token filter st tasks fields Hres Hflat Henv.
    unfold TodoistV1.getTasks, TodoistV1.request. rewrite Hflat, Henv.
    unfold response_ok. cbn [status json].
    destruct ((200 <=? st) && (st <=? 299)) eqn:Hok; cbn.
    + destruct (st =? 204) eqn:H204; cbn.
      * split; [reflexivity|]. intros _ Hne. apply Z.eqb_eq in H204. contradiction.
      * rewrite Hres. cbn. split; [reflexivity|]. intros _ _.
        split; [reflexivity|]. apply map_outcome_objects.
    + split; [reflexivity|]. intros Hst. exfalso.
      apply andb_false_iff in Hok as [H|H]; apply Z.leb_gt in H; lia.
  - intros base flat envelope token filter tasks fields Hflat Henv.
    unfold TodoistRest2.getTasks, TodoistRest2.request. rewrite Hflat, Henv.
    cbn. split; reflexivity.
Qed.

Lemma getTasks_shape_independent_witness :
  TodoistV1.getTasks flat_proxy "token" None
  = TodoistV1.getTasks envelope_proxy "token" None
  /\ TodoistV1.getTasks envelope_proxy "token" None = Ok [local_task sample_task].
Proof.
  pose proof (proj1 getTasks_shape_independent flat_proxy envelope_proxy "token" None
                200 [sample_task]
                [("results", VArr [sample_task]); ("next_cursor", VNull)]
                eq_refl eq_refl eq_refl) as (H1 & H2).
  split; [exact H1|].
  apply (proj2 (H2 ltac:(lia) ltac:(discriminate))).
  repeat constructor.
Defined.

(** C7 as stated fails for the REST v2 revision of [getTasks]: the bare
    array is normalised, the envelope carrying the same task makes
    [tasks.map] throw. *)
Lemma getTasks_rest2_rejects_envelope :
  TodoistRest2.getTasks None flat_proxy "token" None
  = Ok [{| id := VStr "6X7r"; text := VStr "Water the plants";
           completed := VBool false; todoistId := VStr "6X7r";
           projectId := VStr "2203306141"; due := VNull |}]
  /\ TodoistRest2.getTasks None envelope_proxy "token" None
     = Throw (TypeError "tasks.map is not a function").
Proof. vm_compute. split; reflexivity. Qed.

(** ** What the adapter leaves alone *)

Lemma preserves_weaken {A} (R R' : world -> world -> Prop) (m : M A) :
  (forall w w', R w w' -> R' w w') -> preserves R m -> preserves R' m.
Proof. intros H Hm w. apply H, Hm. Qed.

Lemma keeps_at {A B} (f : world -> B) (m : M A) w :
  preserves (keeps f) m -> f (exec m w) = f w.
Proof. intros H. apply H. Qed.

Lemma page_side_send q : preserves (keeps page_side) (send q).
Proof. intros w. reflexivity. Qed.

Lemma page_side_setTimeout d : preserves (keeps page_side) (setTimeout d).
Proof. intros w. reflexivity. Qed.

#[local] Hint Resolve page_side_send page_side_setTimeout : frames.

Lemma page_side_loadGoogleScripts : preserves (keeps page_side) loadGoogleScripts.
Proof. unfold loadGoogleScripts. keeping. Qed.

Lemma page_side_loadAllData : preserves (keeps page_side) loadAllData.
Proof. unfold loadAllData, drive_files_get. keeping. Qed.

Lemma page_side_saveAllData : preserves (keeps page_side) saveAllData.
Proof. unfold saveAllData, fetch_patch. keeping. Qed.

#[local] Hint Resolve page_side_loadGoogleScripts page_side_loadAllData
  page_side_saveAllData : frames.

Lemma page_side_createConfigFile : preserves (keeps page_side) createConfigFile.
Proof. unfold createConfigFile, fetch_create. keeping. Qed.

#[local] Hint Resolve page_side_createConfigFile : frames.

Lemma page_side_findOrCreateConfigFile :
  preserves (keeps page_side) findOrCreateConfigFile.
Proof. unfold findOrCreateConfigFile, drive_files_list. keeping. Qed.

Lemma page_side_getItem k : preserves (keeps page_side) (getItem k).
Proof. unfold getItem. keeping. Qed.

Lemma page_side_setItem k v : preserves (keeps page_side) (setItem k v).
Proof. unfold setItem. keeping. Qed.

#[local] Hint Resolve page_side_findOrCreateConfigFile page_side_getItem
  page_side_setItem : frames.

Lemma page_to_preference w w' :
  keeps page_side w w' -> keeps preference_side w w'.
Proof.
  unfold keeps, page_side, preference_side. intros H. injection H as H1 H2 H3.
  now rewrite H1, H2, H3.
Qed.

Lemma preference_side_clearToken : preserves (keeps preference_side) clearToken.
Proof.
  intros w. unfold keeps, preference_side, clearToken, ls_removeItem. run. cbn.
  now rewrite !lookup_delete_ne by discriminate.
Qed.

Lemma preference_side_of_page {A} (m : M A) :
  preserves (keeps page_side) m -> preserves (keeps preference_side) m.
Proof. apply preserves_weaken, page_to_preference. Qed.

Lemma preference_side_initialize : preserves (keeps preference_side) initialize.
Proof. apply preference_side_of_page. unfold initialize. auto with frames. Qed.

Lemma preference_side_findOrCreateConfigFile :
  preserves (keeps preference_side) findOrCreateConfigFile.
Proof. apply preference_side_of_page. auto with frames. Qed.

#[local] Hint Resolve preference_side_clearToken preference_side_initialize
  preference_side_findOrCreateConfigFile : frames.

Lemma preference_side_restoreSession : preserves (keeps preference_side) restoreSession.
Proof. unfold restoreSession. keeping. Qed.

(** ** What the shell's storage traffic looks like *)

(** Syntax-directed proof of [preserves (calls_only P) m]. *)
Ltac calling :=
  repeat first
    [ solve [auto with frames]
    | apply preserves_ret; apply calls_only_refl
    | apply preserves_throw; apply calls_only_refl
    | apply preserves_get; apply calls_only_refl
    | apply preserves_modify; intros ?; apply calls_only_keeps; reflexivity
    | apply preserves_when; [apply calls_only_refl|]
    | apply preserves_try_catch; [apply calls_only_trans| |intros ?]
    | apply preserves_bind; [apply calls_only_trans| |intros ?]
    | match goal with
      | |- preserves _ (if ?b then _ else _) => destruct b
      | |- preserves _ (match ?x with _ => _ end) => destruct x
      end
    | progress prims
    | progress cbv zeta ].

Lemma ls_of_page {A} (m : M A) :
  preserves (keeps page_side) m -> preserves (keeps ls_of) m.
Proof.
  apply preserves_weaken. unfold keeps, page_side, ls_of. intros w w' H.
  now injection H.
Qed.

Lemma calls_of_page {A} P (m : M A) :
  preserves (keeps page_side) m -> preserves (calls_only P) m.
Proof.
  apply preserves_weaken. unfold keeps, page_side. intros w w' H.
  apply calls_only_keeps. unfold keeps. injection H as _ H _. now rewrite H.
Qed.

Lemma ls_of_storage_get k : preserves (keeps ls_of) (storage_get k).
Proof.
  unfold storage_get, local_getItem. keeping; try (apply ls_of_page; auto with frames).
Qed.

Lemma ls_of_storage_set k v : preserves (keeps ls_of) (storage_set k v).
Proof.
  unfold storage_set, local_setItem. keeping; try (apply ls_of_page; auto with frames).
Qed.

Lemma ls_of_storage_setAdapter a : preserves (keeps ls_of) (storage_setAdapter a).
Proof. unfold storage_setAdapter. keeping. Qed.

Lemma ls_of_loadGoogleScripts : preserves (keeps ls_of) loadGoogleScripts.
Proof. apply ls_of_page; auto with frames. Qed.

#[local] Hint Resolve ls_of_storage_get ls_of_storage_set ls_of_storage_setAdapter
  ls_of_loadGoogleScripts : frames.

Lemma ls_of_commit changed : preserves (keeps ls_of) (commit changed).
Proof.
  unfold commit, save_effects, run_effects,
    save_enabledWidgets, save_widgetVisibility, save_currentSpace, save_settings,
    save_todoistConfig, save_musicState, save_customSpaces.
  keeping.
Qed.

Lemma ls_of_find_by_id v xs : preserves (keeps ls_of) (find_by_id v xs).
Proof. induction xs as [|x xs IH]; cbn; unfold member; keeping. Qed.

#[local] Hint Resolve ls_of_commit ls_of_find_by_id : frames.

Lemma ls_of_loadData ds dm : preserves (keeps ls_of) (loadData ds dm).
Proof. unfold loadData, spread. keeping. Qed.

(** The facade calls of one request. *)
Lemma calls_storage_get P k :
  P (CallGet k) -> preserves (calls_only P) (storage_get k).
Proof.
  intros HP. unfold storage_get, local_getItem.
  apply preserves_bind; [apply calls_only_trans| |intros ?].
  - apply preserves_modify. intros w. exists [CallGet k]. split; [reflexivity|].
    now constructor.
  - calling; try (apply calls_of_page; auto with frames).
Qed.

Lemma calls_storage_set P k v :
  P (CallSet k v) -> preserves (calls_only P) (storage_set k v).
Proof.
  intros HP. unfold storage_set, local_setItem.
  apply preserves_bind; [apply calls_only_trans| |intros ?].
  - apply preserves_modify. intros w. exists [CallSet k v]. split; [reflexivity|].
    now constructor.
  - calling; try (apply calls_of_page; auto with frames).
Qed.

Lemma calls_storage_setAdapter P a :
  P (CallSetAdapter a) -> preserves (calls_only P) (storage_setAdapter a).
Proof.
  intros HP. unfold storage_setAdapter. apply preserves_modify. intros w.
  exists [CallSetAdapter a]. split; [reflexivity|]. now constructor.
Qed.

Lemma calls_commit changed : preserves (calls_only is_data_call) (commit changed).
Proof.
  intros w. destruct (commit_run changed w) as (w' & E & _ & _ & _ & _ & C).
  unfold exec. rewrite E. exists (writes_of changed (ui w)). split; [exact C|].
  eapply Forall_impl; [apply writes_of_CallSet|]. now intros [].
Qed.

Lemma calls_find_by_id P v xs : preserves (calls_only P) (find_by_id v xs).
Proof. induction xs as [|x xs IH]; cbn; unfold member; calling. Qed.

Lemma calls_loadGoogleScripts P : preserves (calls_only P) loadGoogleScripts.
Proof. apply calls_of_page; auto with frames. Qed.

Lemma calls_data_storage_get k :
  preserves (calls_only is_data_call) (storage_get k).
Proof. now apply calls_storage_get. Qed.

#[local] Hint Resolve calls_commit calls_find_by_id calls_loadGoogleScripts
  calls_data_storage_get : frames.

Lemma calls_loadData ds dm : preserves (calls_only is_data_call) (loadData ds dm).
Proof. unfold loadData, spread. calling. Qed.

(** ** The boot sequence *)

Lemma truthy_str_spec (s : option string) :
  truthy_str s = true <-> exists x, s = Some x /\ x <> "".
Proof.
  destruct s as [x|]; cbn.
  - destruct x; cbn; split; try discriminate.
    + intros (x & [= <-] & H). congruence.
    + intros _. eexists. split; [reflexivity|discriminate].
    + reflexivity.
  - split; [discriminate|]. intros (x & H & _). discriminate.
Qed.

Lemma stored_token_usable_spec w :
  stored_token_usable w = true <-> valid_stored_token w.
Proof.
  unfold stored_token_usable, valid_stored_token. split.
  - intros H. apply andb_prop in H as [H Hgt]. apply andb_prop in H as [Ht He].
    apply truthy_str_spec in Ht as (tok & Ht & Htok).
    apply truthy_str_spec in He as (e & He & Hne).
    rewrite He in Hgt. cbn in Hgt. destruct (Number e) as [t|] eqn:En; [|discriminate].
    exists tok, e, t. cbn in Hgt. apply Z.ltb_lt in Hgt. now repeat split.
  - intros (tok & e & t & Ht & Htok & He & Hne & En & Hlt).
    rewrite Ht, He. cbn. rewrite En. cbn.
    apply Z.ltb_lt in Hlt. rewrite Hlt.
    destruct tok; [congruence|]. destruct e; [congruence|]. reflexivity.
Qed.

Lemma total_storage_get k : total (storage_get k).
Proof. unfold storage_get, local_getItem. totality; auto with totals. Qed.

Lemma total_storage_setAdapter a : total (storage_setAdapter a).
Proof. unfold storage_setAdapter. totality. Qed.

Lemma total_commit changed : total (commit changed).
Proof.
  intros w. destruct (commit_run changed w) as (w' & E & _). exists tt.
  unfold eval. now rewrite E.
Qed.

#[local] Hint Resolve total_storage_get total_storage_setAdapter total_commit : totals.

Lemma total_loadData ds dm : total (loadData ds dm).
Proof. unfold loadData. totality; auto with totals. Qed.

#[local] Hint Resolve total_loadData : totals.

Lemma total_start_with ds dm st : total (start_with ds dm st).
Proof. unfold start_with. totality; auto with totals. Qed.

Lemma total_init ds dm : total (init ds dm).
Proof.
  unfold init, recover_storage_type.
  totality; auto using total_start_with with totals.
Qed.

Lemma pref_of_ls {A} (m : M A) :
  preserves (keeps ls_of) m -> preserves (keeps pref_of) m.
Proof.
  apply preserves_weaken. unfold keeps, ls_of, pref_of. intros w w' H. now rewrite H.
Qed.

Lemma pref_of_preference {A} (m : M A) :
  preserves (keeps preference_side) m -> preserves (keeps pref_of) m.
Proof.
  apply preserves_weaken. unfold keeps, preference_side, pref_of. intros w w' H.
  now injection H.
Qed.

Lemma active_of_preference {A} (m : M A) :
  preserves (keeps preference_side) m ->
  preserves (keeps (fun w => (storage w, ui w))) m.
Proof.
  apply preserves_weaken. unfold keeps, preference_side. intros w w' H.
  injection H as _ H1 H2. now rewrite H1, H2.
Qed.

Lemma recover_storage_type_run w :
  recover_storage_type w =
  if truthy_str (pref_of w) then (Ok (pref_of w), w)
  else if stored_token_usable w
       then (Ok (Some "gdrive"),
             with_win (fun b =>
               set_localStorage (<["focusnook-storage-type" := "gdrive"]> (localStorage b)) b) w)
       else (Ok (pref_of w), w).
Proof.
  unfold recover_storage_type, pref_of, stored_token_usable, ls_getItem, ls_setItem,
    Date_now. run.
  destruct (truthy_str (localStorage (win w) !! "focusnook-storage-type")); cbn;
    [reflexivity|].
  destruct (truthy_str (localStorage (win w) !! "gdrive_token")
            && truthy_str (localStorage (win w) !! "gdrive_expiry")
            && num_gt (Number (default "" (localStorage (win w) !! "gdrive_expiry")))
                 (clock (win w))); reflexivity.
Qed.

Lemma pref_of_initialize : preserves (keeps pref_of) initialize.
Proof. apply pref_of_preference. auto with frames. Qed.

Lemma pref_of_restoreSession : preserves (keeps pref_of) restoreSession.
Proof. apply pref_of_preference, preference_side_restoreSession. Qed.

Lemma pref_of_storage_setAdapter a : preserves (keeps pref_of) (storage_setAdapter a).
Proof. apply pref_of_ls. auto with frames. Qed.

Lemma pref_of_loadData ds dm : preserves (keeps pref_of) (loadData ds dm).
Proof. apply pref_of_ls, ls_of_loadData. Qed.

Lemma pref_of_commit changed : preserves (keeps pref_of) (commit changed).
Proof. apply pref_of_ls. auto with frames. Qed.

#[local] Hint Resolve pref_of_initialize pref_of_restoreSession
  pref_of_storage_setAdapter pref_of_loadData pref_of_commit : frames.

Lemma pref_of_start_with ds dm st : preserves (keeps pref_of) (start_with ds dm st).
Proof. unfold start_with. keeping. Qed.

Lemma calls_since_refl w : calls_since w w = [].
Proof. unfold calls_since. apply drop_all. Qed.

Lemma calls_since_only P w w' :
  calls_only P w w' -> Forall P (calls_since w w').
Proof.
  intros (new & E & F). unfold calls_since. now rewrite E, drop_app_length.
Qed.

Lemma calls_since_keeps w w' w'' :
  calls (storage w') = calls (storage w) ->
  calls_since w w'' = calls_since w' w''.
Proof. intros E. unfold calls_since. now rewrite E. Qed.

(** Activating an adapter and then loading. *)
Lemma activate_then_load ds dm a w :
  exists w1 post,
    storage_setAdapter a w = (Ok tt, w1)
    /\ calls_since w (exec (loadData ds dm) w1) = (CallSetAdapter a :: post)%list
    /\ Forall is_data_call post
    /\ eval (loadData ds dm) w1 = Ok tt.
Proof.
  set (w1 := with_storage (fun s => push_call (CallSetAdapter a) (set_active a s)) w).
  exists w1.
  destruct (calls_loadData ds dm w1) as (post & E & F).
  destruct (total_loadData ds dm w1) as ([] & T).
  exists post. split; [reflexivity|]. split; [|split; assumption].
  unfold calls_since. rewrite E. subst w1. cbn.
  rewrite <- app_assoc, drop_app_length. reflexivity.
Qed.

Lemma active_of_page {A} (m : M A) :
  preserves (keeps page_side) m -> preserves (keeps active_of) m.
Proof.
  apply preserves_weaken. unfold keeps, page_side, active_of. intros w w' H.
  injection H as _ H _. now rewrite H.
Qed.

Lemma active_of_storage_get k : preserves (keeps active_of) (storage_get k).
Proof.
  unfold storage_get, local_getItem. keeping; try (apply active_of_page; auto with frames).
Qed.

Lemma active_of_commit changed : preserves (keeps active_of) (commit changed).
Proof.
  intros w. destruct (commit_run changed w) as (w' & E & _ & A & _).
  unfold keeps, exec, active_of. now rewrite E.
Qed.

Lemma active_of_loadGoogleScripts : preserves (keeps active_of) loadGoogleScripts.
Proof. apply active_of_page; auto with frames. Qed.

Lemma active_of_find_by_id v xs : preserves (keeps active_of) (find_by_id v xs).
Proof. induction xs as [|x xs IH]; cbn; unfold member; keeping. Qed.

#[local] Hint Resolve active_of_storage_get active_of_commit
  active_of_loadGoogleScripts active_of_find_by_id : frames.

Lemma active_of_loadData ds dm : preserves (keeps active_of) (loadData ds dm).
Proof. unfold loadData, spread. keeping. Qed.

Lemma start_with_trace ds dm st w :
  adapter_then_data w (exec (start_with ds dm st) w)
  /\ (st <> Some "gdrive" ->
      active_of (exec (start_with ds dm st) w) = active_of w
      /\ Forall is_data_call (calls_since w (exec (start_with ds dm st) w))).
Proof.
  unfold start_with. destruct (bool_decide (st = Some "gdrive")) eqn:Hst.
  - apply bool_decide_eq_true_1 in Hst. split; [|congruence].
    pose proof (preference_side_initialize w) as Hi.
    unfold exec, try_catch, bind at 1.
    destruct (initialize w) as [[[]|e] w1] eqn:Ei; unfold keeps, exec in Hi;
      rewrite ?Ei in Hi; cbn [snd] in Hi; injection Hi as _ Hs1 _.
    + pose proof (preference_side_restoreSession w1) as Hr.
      destruct (total_restoreSession w1) as (b & Tb).
      unfold bind at 1. unfold keeps, exec, eval in *.
      destruct (restoreSession w1) as [[b'|] w2]; cbn [fst snd] in *; [|discriminate].
      injection Hr as _ Hs2 _. destruct b'.
      * destruct (activate_then_load ds dm GoogleDriveAdapter w2)
          as (w3 & post & E3 & C3 & F3 & T3).
        unfold bind at 1. rewrite E3. unfold exec, eval in *.
        destruct (loadData ds dm w3) as [[[]|] w4]; cbn [fst snd] in *; [|discriminate].
        exists [CallSetAdapter GoogleDriveAdapter], post.
        rewrite (calls_since_keeps w w2) by (now rewrite Hs2, Hs1).
        split; [exact C3|]. split; [now repeat constructor|exact F3].
      * unfold bind, modify. cbn [fst snd].
        match goal with
        | |- context [commit [IsLoading] ?W] =>
            destruct (commit_run [IsLoading] W) as (w3 & -> & _ & _ & _ & _ & C3)
        end.
        cbn [snd]. exists [], (writes_of [IsLoading]
                                 (set_isLoading false (set_needsDriveAuth true (ui w2)))).
        split.
        -- unfold calls_since. rewrite C3. cbn [with_ui storage ui].
           rewrite Hs2, Hs1, drop_app_length. reflexivity.
        -- split; [constructor|].
           eapply Forall_impl; [apply writes_of_CallSet|]. now intros [].
    + unfold bind at 1, console_error, modify. cbn [fst snd].
      match goal with
      | |- context [(storage_setAdapter _ >> _) ?W] =>
          destruct (activate_then_load ds dm LocalStorageAdapter W)
            as (w3 & post & E3 & C3 & F3 & T3)
      end.
      unfold bind at 1. rewrite E3. unfold exec, eval in *.
      destruct (loadData ds dm w3) as [[[]|] w4]; cbn [fst snd] in *; [|discriminate].
      exists [CallSetAdapter LocalStorageAdapter], post.
      unfold calls_since in *. cbn [with_win storage] in C3. rewrite Hs1 in C3.
      split; [exact C3|]. split; [now repeat constructor|exact F3].
  - apply bool_decide_eq_false_1 in Hst.
    pose proof (calls_since_only _ _ _ (calls_loadData ds dm w)) as F.
    split.
    + exists [], (calls_since w (exec (loadData ds dm) w)). split; [reflexivity|].
      split; [constructor|exact F].
    + intros _. split; [apply (active_of_loadData ds dm w)|exact F].
Qed.

Lemma init_run ds dm w :
  init ds dm w =
  if truthy_str (pref_of w) then start_with ds dm (pref_of w) w
  else if stored_token_usable w
       then start_with ds dm (Some "gdrive")
              (with_win (fun b =>
                 set_localStorage
                   (<["focusnook-storage-type" := "gdrive"]> (localStorage b)) b) w)
       else start_with ds dm (pref_of w) w.
Proof.
  unfold init, bind. rewrite recover_storage_type_run.
  destruct (truthy_str (pref_of w)); [reflexivity|].
  destruct (stored_token_usable w); reflexivity.
Qed.



(** ** The save effects *)

Lemma mutate_run p v w :
  exists w',
    mutate p v w = (Ok tt, w')
    /\ ui w' = setter p v (ui w)
    /\ calls_since w w' = writes_of [p] (setter p v (ui w)).
Proof.
  unfold mutate, bind, modify.
  destruct (commit_run [p] (with_ui (setter p v) w)) as (w' & E & U & _ & _ & _ & C).
  exists w'. rewrite E. split; [reflexivity|]. split; [exact U|].
  unfold calls_since. rewrite C. cbn [with_ui storage ui]. apply drop_app_length.
Qed.

(** C9, as the code has it.  While [isLoading] is true no committed render
    makes a save effect call [storage.set].  Once it is false, a new value
    for one state variable triggers that variable's own effect and no
    other: one call under the variable's own key, except that the current
    space is written (its [id]) only when it is not falsy, and that the
    music state's effect writes two logical keys, ['focusnook-music'] and,
    when its [customStreams] is not falsy, ['chillspace-custom-streams']. *)
Theorem save_effects_scope :
  (forall changed w,
      isLoading (ui w) = true ->
      eval (commit changed) w = Ok tt
      /\ calls_since w (exec (commit changed) w) = [])
  /\ (forall p v w,
        p <> IsLoading -> isLoading (ui w) = false ->
        eval (mutate p v) w = Ok tt
        /\ Forall (fun c => is_CallSet c
                            /\ exists k, call_key c = Some k /\ In k (own_keys p))
             (calls_since w (exec (mutate p v) w))
        /\ (p <> MusicState -> p <> CurrentSpace ->
            exists k, own_keys p = [k]
                      /\ calls_since w (exec (mutate p v) w) = [CallSet k v])
        /\ (p = CurrentSpace ->
            calls_since w (exec (mutate p v) w)
            = if truthy v then [CallSet "focusnook-current-space" (prop "id" v)] else [])
        /\ (p = MusicState ->
            calls_since w (exec (mutate p v) w)
            = CallSet "focusnook-music" v
              :: (if truthy (prop "customStreams" v)
                  then [CallSet "chillspace-custom-streams" (prop "customStreams" v)]
                  else []))).
Proof.
  split.
  - intros changed w Hl.
    destruct (commit_run changed w) as (w' & E & _ & _ & _ & _ & C).
    unfold eval, exec. rewrite E. split; [reflexivity|].
    unfold calls_since. cbn [snd]. rewrite C, drop_app_length.
    unfold writes_of. rewrite Hl. cbn. now rewrite !andb_false_r.
  - intros p v w Hp Hl.
    destruct (mutate_run p v w) as (w' & E & _ & C).
    unfold eval, exec. rewrite E. cbn [fst snd]. rewrite C.
    split; [reflexivity|].
    destruct p; try congruence; unfold writes_of; cbn; rewrite Hl; cbn.
    + split; [repeat constructor; eexists; split; [reflexivity|now left]|].
      split; [intros _ _; eexists; split; reflexivity|].
      split; intros ?; discriminate.
    + split; [destruct (truthy v); repeat constructor;
              eexists; split; [reflexivity|now left]|].
      split; [congruence|].
      split; [intros _; destruct (truthy v); reflexivity|intros ?; discriminate].
    + split; [repeat constructor; eexists; split; [reflexivity|now left]|].
      split; [intros _ _; eexists; split; reflexivity|].
      split; intros ?; discriminate.
    + split; [repeat constructor; eexists; split; [reflexivity|now left]|].
      split; [intros _ _; eexists; split; reflexivity|].
      split; intros ?; discriminate.
    + split; [repeat constructor; eexists; split; [reflexivity|now left]|].
      split; [intros _ _; eexists; split; reflexivity|].
      split; intros ?; discriminate.
    + split; [repeat constructor; eexists; split; [reflexivity|now left]|].
      split; [intros _ _; eexists; split; reflexivity|].
      split; intros ?; discriminate.
    + split.
      { destruct (truthy (prop "customStreams" v)); repeat constructor;
          eexists; (split; [reflexivity|]); cbn; tauto. }
      split; [congruence|]. split; [intros ?; discriminate|].
      intros _. destruct (truthy (prop "customStreams" v)); reflexivity.
Qed.

Lemma save_effects_scope_witness :
  calls_since first_visit (exec (commit all_pieces) first_visit) = []
  /\ exists k,
      own_keys Settings = [k]
      /\ calls_since loaded_locally
           (exec (mutate Settings (VObj [("showClock", VBool false)])) loaded_locally)
         = [CallSet k (VObj [("showClock", VBool false)])].
Proof.
  split.
  - apply (proj1 save_effects_scope all_pieces first_visit eq_refl).
  - apply (proj2 save_effects_scope Settings (VObj [("showClock", VBool false)])
             loaded_locally ltac:(discriminate) ltac:(vm_compute; reflexivity));
      discriminate.
Defined.

(** C9 as stated fails: after the load, a new music state makes its effect
    write two different logical keys. *)
Lemma musicState_mutation_writes_two_keys :
  isLoading (ui loaded_locally) = false
  /\ map call_key
       (calls_since loaded_locally
          (exec (mutate MusicState one_custom_stream) loaded_locally))
     = [Some "focusnook-music"; Some "chillspace-custom-streams"].
Proof. vm_compute. split; reflexivity. Qed.

(** ** Keys written, keys read *)

Lemma stays_absent_refl k w : stays_absent k w w.
Proof. intros H. exact H. Qed.

Lemma stays_absent_trans k w1 w2 w3 :
  stays_absent k w1 w2 -> stays_absent k w2 w3 -> stays_absent k w1 w3.
Proof. unfold stays_absent. tauto. Qed.

(** Syntax-directed proof of [preserves (stays_absent k) m]. *)
Ltac absenting :=
  repeat first
    [ solve [auto with frames]
    | apply preserves_ret; apply stays_absent_refl
    | apply preserves_throw; apply stays_absent_refl
    | apply preserves_get; apply stays_absent_refl
    | apply preserves_modify; intros ? ?; assumption
    | apply preserves_when; [apply stays_absent_refl|]
    | apply preserves_try_catch; [apply stays_absent_trans| |intros ?]
    | apply preserves_bind; [apply stays_absent_trans| |intros ?]
    | match goal with
      | |- preserves _ (if ?b then _ else _) => destruct b
      | |- preserves _ (match ?x with _ => _ end) => destruct x
      end
    | progress prims
    | progress cbv zeta
    | solve [intros ? ?; assumption] ].

Lemma find_file_body k id fs f :
  Forall (fun f => file_body f !! k = None) fs ->
  find_file id fs = Some f -> file_body f !! k = None.
Proof.
  intros HF Hf. unfold find_file in Hf. apply find_some in Hf as [Hin _].
  rewrite Forall_forall in HF. apply HF. now apply list_elem_of_In.
Qed.

Lemma put_body_absent k id body fs :
  body !! k = None ->
  Forall (fun f => file_body f !! k = None) fs ->
  Forall (fun f => file_body f !! k = None) (put_body id body fs).
Proof.
  intros Hb HF. unfold put_body. apply Forall_fmap.
  eapply Forall_impl; [exact HF|]. intros f Hf. cbn.
  destruct (String.eqb (file_id f) id); assumption.
Qed.

Lemma jsonify_doc_absent k (c : document) :
  c !! k = None -> jsonify_doc c !! k = None.
Proof. intros H. unfold jsonify_doc. now rewrite lookup_omap, H. Qed.

Lemma absent_loadAllData k : preserves (stays_absent k) loadAllData.
Proof.
  unfold preserves, stays_absent, absent. intros w (Hc & Hl & Hd).
  unfold loadAllData, drive_files_get, gapi_drive, send, console_error. run.
  split_cases; cbn; repeat split; try assumption; try apply lookup_empty.
  all: eapply find_file_body; eauto.
Qed.

Lemma absent_saveAllData k : preserves (stays_absent k) saveAllData.
Proof.
  unfold preserves, stays_absent, absent. intros w (Hc & Hl & Hd).
  unfold saveAllData, fetch_patch, send, console_error. run.
  split_cases; cbn; repeat split; try assumption.
  all: apply put_body_absent; [now apply jsonify_doc_absent|assumption].
Qed.

Lemma absent_createConfigFile k : preserves (stays_absent k) createConfigFile.
Proof.
  unfold preserves, stays_absent, absent. intros w (Hc & Hl & Hd).
  unfold createConfigFile, fetch_create, send, console_error. run.
  split_cases; cbn; repeat split; try assumption; try apply lookup_empty.
  all: apply Forall_app; split; [assumption|]; repeat constructor.
Qed.

#[local] Hint Resolve absent_loadAllData absent_saveAllData
  absent_createConfigFile : frames.

Lemma absent_findOrCreateConfigFile k :
  preserves (stays_absent k) findOrCreateConfigFile.
Proof. unfold findOrCreateConfigFile, drive_files_list. absenting. Qed.

Lemma absent_loadGoogleScripts k : preserves (stays_absent k) loadGoogleScripts.
Proof. unfold loadGoogleScripts. absenting. Qed.

Lemma absent_clearToken k : preserves (stays_absent k) clearToken.
Proof. unfold clearToken. absenting. Qed.

Lemma absent_getItem k key : preserves (stays_absent k) (getItem key).
Proof. unfold getItem. absenting. Qed.

Lemma absent_setItem k key v : key <> k -> preserves (stays_absent k) (setItem key v).
Proof.
  intros Hne. unfold setItem.
  apply preserves_bind; [apply stays_absent_trans| |intros ?].
  - apply preserves_modify. intros w (Hc & Hl & Hd). repeat split; try assumption.
    cbn. now rewrite lookup_insert_ne.
  - absenting.
Qed.

Lemma absent_removeItem k key : preserves (stays_absent k) (removeItem key).
Proof.
  unfold removeItem.
  apply preserves_bind; [apply stays_absent_trans| |intros ?].
  - apply preserves_modify. intros w (Hc & Hl & Hd). repeat split; try assumption.
    cbn. destruct (decide (key = k)) as [->|Hne];
      [apply lookup_delete_eq|now rewrite lookup_delete_ne].
  - absenting.
Qed.

Lemma absent_local_setItem k key v :
  key <> k -> preserves (stays_absent k) (local_setItem key v).
Proof.
  intros Hne. unfold local_setItem. apply preserves_modify.
  intros w (Hc & Hl & Hd). repeat split; try assumption. cbn.
  destruct v; rewrite ?lookup_insert_ne, ?lookup_delete_ne by assumption; assumption.
Qed.

#[local] Hint Resolve absent_findOrCreateConfigFile absent_loadGoogleScripts
  absent_clearToken absent_getItem absent_removeItem : frames.

Lemma absent_storage_get k key : preserves (stays_absent k) (storage_get key).
Proof. unfold storage_get, local_getItem. absenting. Qed.

Lemma absent_storage_set k key v :
  key <> k -> preserves (stays_absent k) (storage_set key v).
Proof.
  intros Hne.
  pose proof (absent_local_setItem k key v Hne).
  pose proof (absent_setItem k key v Hne).
  unfold storage_set. absenting.
Qed.

Lemma absent_storage_setAdapter k a : preserves (stays_absent k) (storage_setAdapter a).
Proof. unfold storage_setAdapter. absenting. Qed.

Lemma absent_restoreSession k : preserves (stays_absent k) restoreSession.
Proof. unfold restoreSession. absenting. Qed.

Lemma absent_connect k : preserves (stays_absent k) connect.
Proof. unfold connect, authenticate, saveToken. absenting. Qed.

Lemma absent_find_by_id k v xs : preserves (stays_absent k) (find_by_id v xs).
Proof. induction xs as [|x xs IH]; cbn; unfold member; absenting. Qed.

#[local] Hint Resolve absent_storage_get absent_storage_setAdapter
  absent_restoreSession absent_connect absent_find_by_id : frames.

(** No save effect writes under a key the bulk load reads the custom lists
    from. *)
Lemma absent_commit k changed :
  custom_read_key k -> preserves (stays_absent k) (commit changed).
Proof.
  intros Hk.
  unfold commit, save_effects, run_effects,
    save_enabledWidgets, save_widgetVisibility, save_currentSpace, save_settings,
    save_todoistConfig, save_musicState, save_customSpaces.
  assert (forall key v, In key (flat_map own_keys all_pieces) ->
                        preserves (stays_absent k) (storage_set key v)) as Hset.
  { intros key v Hin. apply absent_storage_set.
    cbn in Hin. destruct Hk as [-> | ->]; intuition (subst; discriminate). }
  pose proof (fun v => Hset "focusnook-enabled-widgets" v ltac:(cbn; tauto)).
  pose proof (fun v => Hset "focusnook-widget-visibility" v ltac:(cbn; tauto)).
  pose proof (fun v => Hset "focusnook-current-space" v ltac:(cbn; tauto)).
  pose proof (fun v => Hset "focusnook-settings" v ltac:(cbn; tauto)).
  pose proof (fun v => Hset "focusnook-todoist" v ltac:(cbn; tauto)).
  pose proof (fun v => Hset "focusnook-music" v ltac:(cbn; tauto)).
  pose proof (fun v => Hset "chillspace-custom-streams" v ltac:(cbn; tauto)).
  pose proof (fun v => Hset "chillspace-custom-spaces" v ltac:(cbn; tauto)).
  clear Hset. absenting.
Qed.

Lemma absent_loadData ds dm k :
  custom_read_key k -> preserves (stays_absent k) (loadData ds dm).
Proof.
  intros Hk. pose proof (fun ch => absent_commit k ch Hk).
  unfold loadData, spread. absenting.
Qed.

Lemma absent_init ds dm k :
  custom_read_key k -> preserves (stays_absent k) (init ds dm).
Proof.
  intros Hk. pose proof (fun ch => absent_commit k ch Hk).
  pose proof (absent_loadData ds dm k Hk).
  unfold init, recover_storage_type, start_with. absenting.
Qed.

Lemma absent_handleDriveConnect ds dm k :
  custom_read_key k -> preserves (stays_absent k) (handleDriveConnect ds dm).
Proof.
  intros Hk. pose proof (absent_loadData ds dm k Hk).
  unfold handleDriveConnect. absenting.
Qed.

Lemma absent_mutate k p v :
  custom_read_key k -> preserves (stays_absent k) (mutate p v).
Proof.
  intros Hk. pose proof (fun ch => absent_commit k ch Hk).
  unfold mutate. absenting.
Qed.

Lemma absent_advance k d : preserves (stays_absent k) (advance d).
Proof.
  assert (forall tms w0, absent k w0 -> absent k (fold_left fire tms w0)) as Hfold.
  { intros tms. induction tms as [|tm tms IH]; intros w0 H0; cbn; [exact H0|].
    apply IH. unfold fire. apply (absent_saveAllData k). exact H0. }
  intros w H. unfold advance, exec. cbn [snd].
  match goal with
  | |- absent k (with_win _ (fold_left fire ?due ?w0)) =>
      assert (absent k (fold_left fire due w0)) as H' by (apply Hfold; exact H)
  end.
  exact H'.
Qed.

(** A key that no store holds reads as [null], through either adapter. *)
Lemma getItem_absent k w : absent k w -> eval (getItem k) w = Ok VNull.
Proof.
  intros Habs. pose proof (absent_loadAllData k w Habs) as (Hc' & _).
  destruct Habs as (Hc & _).
  destruct (loadAllData_frame w) as (w' & E & _).
  unfold exec in Hc'. rewrite E in Hc'. cbn [snd] in Hc'.
  unfold getItem. run.
  destruct (negb (truthy_str (accessToken (vars w)))
            && negb (truthy_str (configFileId (vars w)))); [reflexivity|].
  cbn beta iota.
  destruct (truthy_str (configFileId (vars w))
            && Nat.eqb (size (cache (adapter w))) 0); cbn beta iota.
  - rewrite E. cbn. unfold get_prop. now rewrite Hc'.
  - cbn. unfold get_prop. now rewrite Hc.
Qed.

Lemma storage_get_absent k w :
  absent k w ->
  eval (storage_get k) w = Ok VNull
  /\ ui (exec (storage_get k) w) = ui w.
Proof.
  intros Habs. split.
  - unfold storage_get, local_getItem. run. cbn -[getItem].
    destruct (active (storage w)); cbn -[getItem].
    + destruct Habs as (_ & Hl & _). now rewrite Hl.
    + match goal with
      | |- context [getItem k ?W] => pose proof (getItem_absent k W Habs) as Hg
      end.
      unfold eval in Hg. exact Hg.
  - assert (preserves (keeps ui) (storage_get k)) as Hui.
    { unfold storage_get, local_getItem. keeping. }
    apply Hui.
Qed.

(** Pointwise versions of the sequencing rules. *)
Lemma keeps_bind_at {A B C} (f : world -> C) (m : M A) (k : A -> M B) w a :
  eval m w = Ok a ->
  f (exec m w) = f w ->
  f (exec (k a) (exec m w)) = f (exec m w) ->
  f (exec (bind m k) w) = f w.
Proof.
  intros Hm Hf Hk. unfold exec, eval, bind in *.
  destruct (m w) as [[a'|e] w']; cbn in *; [|discriminate].
  injection Hm as ->. congruence.
Qed.

Lemma keeps_try_catch_at {A C} (f : world -> C) (m : M A) (h : js_error -> M A) w :
  f (exec m w) = f w ->
  (forall e, preserves (keeps f) (h e)) ->
  f (exec (try_catch m h) w) = f w.
Proof.
  intros Hm Hh. unfold exec, try_catch in *.
  destruct (m w) as [[a|e] w']; cbn in *; [exact Hm|].
  rewrite <- Hm. apply (Hh e w').
Qed.

Lemma ui_of_page {A} (m : M A) :
  preserves (keeps page_side) m -> preserves (keeps ui) m.
Proof.
  apply preserves_weaken. unfold keeps, page_side. intros w w' H. now injection H.
Qed.

Lemma ui_storage_get k : preserves (keeps ui) (storage_get k).
Proof. unfold storage_get, local_getItem. keeping. Qed.

Lemma ui_commit changed : preserves (keeps ui) (commit changed).
Proof.
  intros w. destruct (commit_run changed w) as (w' & E & U & _).
  unfold keeps, exec. now rewrite E.
Qed.

Lemma ui_loadGoogleScripts : preserves (keeps ui) loadGoogleScripts.
Proof. apply ui_of_page. auto with frames. Qed.

Lemma customSpaces_storage_get k :
  preserves (keeps (fun w => customSpaces (ui w))) (storage_get k).
Proof.
  eapply preserves_weaken; [|apply ui_storage_get]. unfold keeps. intros ? ? H.
  now rewrite H.
Qed.

Lemma customSpaces_commit changed :
  preserves (keeps (fun w => customSpaces (ui w))) (commit changed).
Proof.
  eapply preserves_weaken; [|apply ui_commit]. unfold keeps. intros ? ? H.
  now rewrite H.
Qed.

Lemma customSpaces_find_by_id v xs :
  preserves (keeps (fun w => customSpaces (ui w))) (find_by_id v xs).
Proof. induction xs as [|x xs IH]; cbn; unfold member; keeping. Qed.

#[local] Hint Resolve customSpaces_storage_get customSpaces_commit
  customSpaces_find_by_id : frames.

(** With nothing stored under ['focusnook-custom-spaces'], the bulk load
    leaves the custom spaces as they were. *)
Lemma keeps_bind_tail {A B C} (f : world -> C) (m : M A) (k : A -> M B) w :
  f (exec m w) = f w ->
  (forall a, preserves (keeps f) (k a)) ->
  f (exec (bind m k) w) = f w.
Proof.
  intros Hm Hk. unfold exec, bind in *.
  destruct (m w) as [[a|e] w']; cbn in *; [|exact Hm].
  rewrite <- Hm. apply (Hk a w').
Qed.

Lemma total_load_scripts :
  total (try_catch loadGoogleScripts (fun e => console_error (error_text e))).
Proof. totality. Qed.

Lemma loadData_customSpaces ds dm w :
  absent "focusnook-custom-spaces" w ->
  customSpaces (ui (exec (loadData ds dm) w)) = customSpaces (ui w).
Proof.
  intros Habs. unfold loadData.
  eapply (keeps_bind_at (fun w => customSpaces (ui w)) _ _ w tt);
    [reflexivity|reflexivity|].
  set (w0 := exec (modify (with_ui (set_isLoading true))) w).
  assert (absent "focusnook-custom-spaces" w0) as Habs0 by exact Habs.
  clearbody w0. clear Habs w.
  apply (keeps_bind_tail (fun w => customSpaces (ui w))); [|intros ?; keeping].
  apply (keeps_try_catch_at (fun w => customSpaces (ui w))); [|intros ?; keeping].
  destruct (total_load_scripts w0) as ([] & T).
  eapply (keeps_bind_at (fun w => customSpaces (ui w)) _ _ w0 tt T).
  { apply (keeps_at (fun w => customSpaces (ui w))). keeping. }
  assert (absent "focusnook-custom-spaces"
            (exec (try_catch loadGoogleScripts
                     (fun e => console_error (error_text e))) w0)) as Habs1.
  { revert Habs0. generalize w0.
    change (preserves (stays_absent "focusnook-custom-spaces")
              (try_catch loadGoogleScripts (fun e => console_error (error_text e)))).
    absenting. }
  set (w1 := exec (try_catch loadGoogleScripts
                     (fun e => console_error (error_text e))) w0) in *.
  clearbody w1. clear T Habs0 w0.
  destruct (storage_get_absent _ w1 Habs1) as (Hv & Hu).
  eapply (keeps_bind_at (fun w => customSpaces (ui w)) _ _ w1 VNull Hv).
  { now rewrite Hu. }
  apply (keeps_at (fun w => customSpaces (ui w))).
  cbn [truthy when js_or]. unfold spread. keeping.
Qed.

Lemma streams_reset_refl w : streams_reset w w.
Proof. now left. Qed.

Lemma streams_reset_trans w1 w2 w3 :
  streams_reset w1 w2 -> streams_reset w2 w3 -> streams_reset w1 w3.
Proof.
  unfold streams_reset. intros [E1|E1] [E2|E2]; try (now right).
  - left. congruence.
  - right. congruence.
Qed.

Lemma streams_reset_keeps w w' : keeps ui w w' -> streams_reset w w'.
Proof. unfold keeps. intros H. left. now rewrite H. Qed.

Lemma assoc_obj_assign k v fields : assoc k (obj_assign k v fields) = v.
Proof.
  induction fields as [|[k' v'] rest IH]; cbn.
  - now rewrite String.eqb_refl.
  - destruct (String.eqb k k') eqn:E; cbn; rewrite ?String.eqb_refl, ?E; auto.
Qed.

Section At.

Context {A B : Type}.
Variable R : world -> world -> Prop.
Hypothesis R_trans : forall w1 w2 w3, R w1 w2 -> R w2 w3 -> R w1 w3.

Lemma rel_bind_at (m : M A) (k : A -> M B) w a :
  eval m w = Ok a ->
  R w (exec m w) ->
  R (exec m w) (exec (k a) (exec m w)) ->
  R w (exec (bind m k) w).
Proof.
  intros Hm Hf Hk. unfold exec, eval, bind in *.
  destruct (m w) as [[a'|e] w']; cbn in *; [|discriminate].
  injection Hm as ->. eauto.
Qed.

Lemma rel_bind_tail (m : M A) (k : A -> M B) w :
  R w (exec m w) ->
  (forall a, preserves R (k a)) ->
  R w (exec (bind m k) w).
Proof.
  intros Hm Hk. unfold exec, bind in *.
  destruct (m w) as [[a|e] w']; cbn in *; [|exact Hm].
  eapply R_trans; [exact Hm|]. apply (Hk a w').
Qed.

Lemma rel_try_catch_at (m : M A) (h : js_error -> M A) w :
  R w (exec m w) ->
  (forall e, preserves R (h e)) ->
  R w (exec (try_catch m h) w).
Proof.
  intros Hm Hh. unfold exec, try_catch in *.
  destruct (m w) as [[a|e] w']; cbn in *; [exact Hm|].
  eapply R_trans; [exact Hm|]. apply (Hh e w').
Qed.

End At.

(** Syntax-directed proof of [preserves streams_reset m]. *)
Ltac resetting :=
  repeat first
    [ solve [auto with frames]
    | apply preserves_ret; apply streams_reset_refl
    | apply preserves_throw; apply streams_reset_refl
    | apply preserves_get; apply streams_reset_refl
    | apply preserves_modify; intros ?; apply streams_reset_keeps; reflexivity
    | apply preserves_modify; intros ?; left; reflexivity
    | apply preserves_modify; intros ?; right; cbn; apply assoc_obj_assign
    | apply preserves_when; [apply streams_reset_refl|]
    | apply preserves_try_catch; [apply streams_reset_trans| |intros ?]
    | apply preserves_bind; [apply streams_reset_trans| |intros ?]
    | match goal with
      | |- preserves _ (if ?b then _ else _) => destruct b
      | |- preserves _ (match ?x with _ => _ end) => destruct x
      end
    | progress prims
    | progress cbv zeta ].

Lemma reset_of_ui {A} (m : M A) :
  preserves (keeps ui) m -> preserves streams_reset m.
Proof. apply preserves_weaken, streams_reset_keeps. Qed.

Lemma reset_storage_get k : preserves streams_reset (storage_get k).
Proof. apply reset_of_ui, ui_storage_get. Qed.

Lemma reset_commit changed : preserves streams_reset (commit changed).
Proof. apply reset_of_ui, ui_commit. Qed.

Lemma reset_loadGoogleScripts : preserves streams_reset loadGoogleScripts.
Proof. apply reset_of_ui, ui_loadGoogleScripts. Qed.

Lemma reset_find_by_id v xs : preserves streams_reset (find_by_id v xs).
Proof. induction xs as [|x xs IH]; cbn; unfold member; resetting. Qed.

#[local] Hint Resolve reset_storage_get reset_commit reset_loadGoogleScripts
  reset_find_by_id : frames.

(** With nothing stored under ['focusnook-custom-streams'], the bulk load
    never restores a custom stream: the music state is left as it was, or
    rebuilt with an empty list of custom streams. *)
Lemma loadData_customStreams ds dm w :
  absent "focusnook-custom-streams" w ->
  streams_reset w (exec (loadData ds dm) w).
Proof.
  intros Habs. unfold loadData.
  eapply (rel_bind_at streams_reset streams_reset_trans _ _ w tt);
    [reflexivity|now left|].
  set (w0 := exec (modify (with_ui (set_isLoading true))) w).
  assert (absent "focusnook-custom-streams" w0) as Habs0 by exact Habs.
  clearbody w0. clear Habs w.
  apply (rel_bind_tail streams_reset streams_reset_trans); [|intros ?; resetting].
  apply (rel_try_catch_at streams_reset streams_reset_trans); [|intros ?; resetting].
  destruct (total_load_scripts w0) as ([] & T).
  eapply (rel_bind_at streams_reset streams_reset_trans _ _ w0 tt T).
  { revert w0 Habs0 T. intros w0 _ _. revert w0.
    change (preserves streams_reset
              (try_catch loadGoogleScripts (fun e => console_error (error_text e)))).
    resetting. }
  assert (absent "focusnook-custom-streams"
            (exec (try_catch loadGoogleScripts
                     (fun e => console_error (error_text e))) w0)) as Habs1.
  { revert Habs0. generalize w0.
    change (preserves (stays_absent "focusnook-custom-streams")
              (try_catch loadGoogleScripts (fun e => console_error (error_text e)))).
    absenting. }
  set (w1 := exec (try_catch loadGoogleScripts
                     (fun e => console_error (error_text e))) w0) in *.
  clearbody w1. clear T Habs0 w0.
  do 7 (match goal with
        | |- streams_reset ?W (exec (bind (storage_get ?key) _) ?W) =>
            let a := fresh "saved" in
            let T := fresh "T" in
            let H := fresh "Habs" in
            destruct (total_storage_get key W) as (a & T);
            eapply (rel_bind_at streams_reset streams_reset_trans _ _ W a T);
            [apply reset_storage_get|];
            pose proof (absent_storage_get "focusnook-custom-streams" key W
                          ltac:(assumption)) as H;
            let W' := fresh "w" in
            set (W' := exec (storage_get key) W) in *;
            clearbody W'
        end).
  match goal with
  | |- streams_reset ?W _ =>
      destruct (storage_get_absent "focusnook-custom-streams" W ltac:(assumption))
        as (Hv & Hu);
      eapply (rel_bind_at streams_reset streams_reset_trans _ _ W VNull Hv);
      [apply reset_storage_get|]
  end.
  match goal with
  | |- streams_reset ?W (exec ?m ?W) =>
      generalize W; change (preserves streams_reset m)
  end.
  cbn [truthy js_or]. unfold spread. resetting.
Qed.

Lemma absent_reload ds dm k w : absent k w -> absent k (reload ds dm w).
Proof.
  intros (_ & Hl & Hd). unfold reload, page_load, absent. cbn.
  split; [apply lookup_empty|split; [exact Hl|exact Hd]].
Qed.

(** C10.  The shell saves the custom spaces under
    ['chillspace-custom-spaces'] and the custom streams under
    ['chillspace-custom-streams'], and reads them at startup from
    ['focusnook-custom-spaces'] and ['focusnook-custom-streams'].  Nothing
    the shell does (a state change, the passing of time with its flushes,
    a reload, the boot effect, an interactive connect) ever stores a value
    under one of the two keys read, in the cache, in the local entries or
    in a remote file; so whatever was saved, those keys read as [null] at
    the next startup, the custom spaces stay as they were before the load
    and the music state is left alone or rebuilt with no custom stream. *)
Theorem custom_lists_not_read_back ds dm :
  (forall w v,
      isLoading (ui w) = false ->
      calls_since w (exec (mutate CustomSpaces v) w)
      = [CallSet "chillspace-custom-spaces" v])
  /\ (forall w v,
        isLoading (ui w) = false -> truthy (prop "customStreams" v) = true ->
        calls_since w (exec (mutate MusicState v) w)
        = [CallSet "focusnook-music" v;
           CallSet "chillspace-custom-streams" (prop "customStreams" v)])
  /\ (forall k,
        custom_read_key k ->
        ~ In k (flat_map own_keys all_pieces)
        /\ (forall p v, preserves (stays_absent k) (mutate p v))
        /\ (forall d, preserves (stays_absent k) (advance d))
        /\ preserves (stays_absent k) (init ds dm)
        /\ preserves (stays_absent k) (handleDriveConnect ds dm)
        /\ (forall w, absent k w -> absent k (reload ds dm w))
        /\ (forall w, absent k w -> eval (storage_get k) w = Ok VNull))
  /\ (forall w,
        absent "focusnook-custom-spaces" w ->
        customSpaces (ui (exec (loadData ds dm) w)) = customSpaces (ui w))
  /\ (forall w,
        absent "focusnook-custom-streams" w ->
        streams_reset w (exec (loadData ds dm) w)).
Proof.
  split; [|split; [|split; [|split]]].
  - intros w v Hl. destruct (mutate_run CustomSpaces v w) as (w' & E & _ & C).
    unfold exec. rewrite E. cbn [snd]. rewrite C.
    unfold writes_of. cbn. rewrite Hl. reflexivity.
  - intros w v Hl Hcs. destruct (mutate_run MusicState v w) as (w' & E & _ & C).
    unfold exec. rewrite E. cbn [snd]. rewrite C.
    unfold writes_of. cbn. rewrite Hl, Hcs. reflexivity.
  - intros k Hk. split.
    { cbn. destruct Hk as [-> | ->]; intuition discriminate. }
    split; [intros p v; now apply absent_mutate|].
    split; [intros d; apply absent_advance|].
    split; [now apply absent_init|].
    split; [now apply absent_handleDriveConnect|].
    split; [intros w; apply absent_reload|].
    intros w Hw. apply (storage_get_absent k w Hw).
  - apply loadData_customSpaces.
  - apply loadData_customStreams.
Qed.

Lemma custom_lists_not_read_back_witness :
  eval (storage_get "focusnook-custom-spaces") next_visit_local = Ok VNull
  /\ eval (storage_get "focusnook-custom-spaces") next_visit_remote = Ok VNull.
Proof.
  split.
  - apply (proj2 (proj2 (proj2 (proj2 (proj2 (proj2
             (proj1 (proj2 (proj2 (custom_lists_not_read_back [] [])))
                "focusnook-custom-spaces" (or_introl eq_refl)))))))).
    vm_compute. repeat split. constructor.
  - apply (proj2 (proj2 (proj2 (proj2 (proj2 (proj2
             (proj1 (proj2 (proj2 (custom_lists_not_read_back [] [])))
                "focusnook-custom-spaces" (or_introl eq_refl)))))))).
    vm_compute. repeat split. repeat constructor.
Defined.

(** The scenario behind C10, run.  A custom space saved in one session
    sits under the ['chillspace-'] key when the session ends, in the local
    entries or in the remote file.  The next boot does not restore it: the
    shell comes up with no custom space, and the save effects that run when
    the load completes write that empty list over the saved one. *)
Lemma saved_custom_space_is_not_restored :
  local_entries (storage after_save_local) !! "chillspace-custom-spaces"
  = Some one_custom_space
  /\ customSpaces (ui next_visit_local) = VArr []
  /\ eval (storage_get "chillspace-custom-spaces") next_visit_local = Ok (VArr [])
  /\ map (fun f => file_body f !! "chillspace-custom-spaces")
       (drive (cloud after_save_remote)) = [Some one_custom_space]
  /\ active_of next_visit_remote = GoogleDriveAdapter
  /\ customSpaces (ui next_visit_remote) = VArr []
  /\ eval (storage_get "chillspace-custom-spaces") next_visit_remote = Ok (VArr []).
Proof. vm_compute. repeat split. Qed.

(* ===================================================================== *)
(** * Further properties *)
(* ===================================================================== *)

(** ** The stored expiry: [String(n)] read back by [Number] *)

Lemma digits_from_pretty_go (x : N) :
  forall s, exists p, forall acc,
    digits_from acc (pretty_N_go x s) = digits_from (acc * p + Z.of_N x) s.
Proof.
  induction (N.lt_wf_0 x) as [x _ IH]. intros s.
  destruct (decide (x = 0)%N) as [->|Hx].
  - exists 1. intros acc. rewrite pretty_N_go_0. f_equal. lia.
  - rewrite pretty_N_go_step by lia.
    destruct (IH (x `div` 10)%N ltac:(apply N.div_lt; lia)
                (String (pretty_N_char (x `mod` 10)) s)) as [p Hp].
    exists (10 * p). intros acc. rewrite Hp. cbn [digits_from].
    assert (digit_of (pretty_N_char (x `mod` 10)) = Some (Z.of_N (x `mod` 10))) as ->.
    { pose proof (N.mod_lt x 10 ltac:(lia)) as Hlt.
      set (r := (x `mod` 10)%N) in *. clearbody r.
      assert (r = 0 \/ r = 1 \/ r = 2 \/ r = 3 \/ r = 4 \/ r = 5 \/ r = 6
              \/ r = 7 \/ r = 8 \/ r = 9)%N as H by lia.
      repeat destruct H as [H|H]; rewrite H; reflexivity. }
    f_equal. pose proof (N.div_mod x 10 ltac:(lia)) as Hdm.
    replace (acc * (10 * p)) with (10 * (acc * p)) by ring.
    set (q := (x `div` 10)%N) in *. set (r := (x `mod` 10)%N) in *.
    set (ap := acc * p). lia.
Qed.

Lemma digits_from_pretty_positive (p : positive) :
  digits_from 0 (pretty_N_go (N.pos p) "") = Some (Z.pos p).
Proof.
  destruct (digits_from_pretty_go (N.pos p) "") as [q Hq]. rewrite Hq. reflexivity.
Qed.

(** [Number(String(n)) = n] for every integer [n]. *)
Lemma Number_String_of_num (n : Z) : Number (String_of_num n) = Some n.
Proof.
  unfold String_of_num, pretty, pretty_Z.
  destruct n as [|p|p].
  - reflexivity.
  - unfold pretty, pretty_positive, pretty, pretty_N. cbn [decide].
    destruct (decide (N.pos p = 0%N)) as [E|_]; [discriminate E|].
    pose proof (digits_from_pretty_positive p) as H.
    pose proof (pretty_N_go_ne_dash (N.pos p) "" "") as Hd.
    destruct (pretty_N_go (N.pos p) "") as [|c rest] eqn:E; [discriminate H|].
    unfold Number.
    destruct (Ascii.ascii_dec c "-") as [->|Hc].
    + exfalso. cbn in H. discriminate H.
    + destruct c as [[] [] [] [] [] [] [] []]; try exact H. congruence.
  - unfold pretty, pretty_positive, pretty, pretty_N.
    destruct (decide (N.pos p = 0%N)) as [E|_]; [discriminate E|].
    pose proof (digits_from_pretty_positive p) as H.
    cbn [String.app]. unfold Number.
    destruct (pretty_N_go (N.pos p) "") as [|c rest] eqn:E; [discriminate H|].
    change (Z.opp <$> digits_from 0 (String c rest) = Some (Z.neg p)).
    rewrite H. reflexivity.
Qed.

Lemma String_of_num_nonempty (n : Z) : String_of_num n <> "".
Proof.
  intros E. pose proof (Number_String_of_num n) as H. rewrite E in H.
  cbn in H. injection H as <-. vm_compute in E. discriminate E.
Qed.

(** ** The passing of time *)

Lemma fire_clock w tm :
  clock (win (fire w tm)) = Z.max (clock (win w)) (snd tm).
Proof.
  unfold fire, exec.
  destruct (saveAllData_run
              (with_win (fun b => set_clock (Z.max (clock b) (snd tm)) b) w))
    as (w' & -> & _ & _ & _ & _ & _ & Hc & _).
  exact Hc.
Qed.

Lemma fires_clock t tms w :
  clock (win w) <= t ->
  Forall (fun tm => is_due t tm = true) tms ->
  clock (win w) <= clock (win (fold_left fire tms w)) <= t.
Proof.
  revert w. induction tms as [|tm tms IH]; intros w Hw Hdue; cbn.
  - lia.
  - inversion Hdue as [|? ? Htm Hrest]; subst.
    pose proof (fire_clock w tm) as Hc.
    unfold is_due in Htm. apply Z.leb_le in Htm.
    specialize (IH (fire w tm) ltac:(lia) Hrest). lia.
Qed.

(** Letting [d] milliseconds go by moves the clock by [d]. *)
Lemma advance_clock d w :
  0 <= d -> clock (win (exec (advance d) w)) = clock (win w) + d.
Proof.
  intros Hd. unfold advance, exec. cbn [snd].
  set (t := clock (win w) + d).
  set (w1 := with_win (set_timers _) w).
  pose proof (fires_clock t (List.filter (is_due t) (timers (win w))) w1) as H.
  assert (clock (win w1) = clock (win w)) as E1 by reflexivity.
  specialize (H ltac:(lia)).
  assert (Forall (fun tm => is_due t tm = true)
            (List.filter (is_due t) (timers (win w)))) as Hall.
  { apply List.Forall_forall. intros tm Hin. apply filter_In in Hin. tauto. }
  specialize (H Hall). cbn. lia.
Qed.

(** ** The lifetime of a token *)

Lemma authenticate_run tok w :
  tokenClient (vars w) = true ->
  consent (env (cloud w)) = Some tok ->
  exists w',
    authenticate w = (Ok tok, w')
    /\ accessToken (vars w') = Some tok
    /\ tokenExpiry (vars w') = Some (clock (win w) + TOKEN_LIFETIME)
    /\ localStorage (win w') =
       <["gdrive_expiry" := String_of_num (clock (win w) + TOKEN_LIFETIME)]>
         (<["gdrive_token" := tok]> (localStorage (win w)))
    /\ clock (win w') = clock (win w)
    /\ timers (win w') = timers (win w)
    /\ alerts (win w') = alerts (win w)
    /\ configFileId (vars w') = configFileId (vars w)
    /\ gapiInited (vars w') = gapiInited (vars w)
    /\ gisInited (vars w') = gisInited (vars w)
    /\ adapter w' = adapter w /\ cloud w' = cloud w
    /\ storage w' = storage w /\ ui w' = ui w.
Proof.
  intros Htc Hc.
  unfold authenticate, saveToken, gapi_setToken, gapi_client_present, ls_setItem,
    Date_now. run.
  rewrite Htc. cbn. rewrite Hc. cbn.
  destruct (gapiInited (vars w)); cbn; eexists; (split; [reflexivity|]); cbn;
    repeat split.
Qed.

(** X1.  A token obtained by [authenticate] at time [t] is good for
    3 550 000 ms: [d] milliseconds later [hasValidToken] holds exactly when
    [d < 3 550 000], the pair kept in local storage passes the test of
    [restoreSession] and of the boot effect exactly then, in the same page
    and after a reload, and from that moment on [restoreSession] on a
    reloaded page returns [false]. *)
Theorem saved_token_lifetime ds dm tok d w :
  tokenClient (vars w) = true ->
  consent (env (cloud w)) = Some tok ->
  tok <> "" ->
  0 <= d ->
  let later := exec (authenticate >> advance d) w in
  eval authenticate w = Ok tok
  /\ eval hasValidToken later = Ok (d <? TOKEN_LIFETIME)
  /\ stored_token_usable later = (d <? TOKEN_LIFETIME)
  /\ stored_token_usable (reload ds dm later) = (d <? TOKEN_LIFETIME)
  /\ (TOKEN_LIFETIME <= d -> eval restoreSession (reload ds dm later) = Ok false).
Proof.
  intros Htc Hc Htok Hd later.
  destruct (authenticate_run tok w Htc Hc)
    as (w1 & E1 & Hat & Hte & Hls & Hck & _).
  assert (later = exec (advance d) w1) as Hlater.
  { assert (exec authenticate w = w1) as X1 by (unfold exec; now rewrite E1).
    unfold later, exec at 1.
    rewrite (run_seq _ _ w tok) by (unfold eval; now rewrite E1).
    now rewrite X1. }
  destruct (advance_run d w1) as (w2 & E2 & Hv2 & _ & _ & _ & Hl2 & _).
  pose proof (advance_clock d w1 Hd) as Hc2.
  unfold exec in Hlater, Hc2. rewrite E2 in Hlater, Hc2. cbn [snd] in Hlater, Hc2.
  assert (stored_token_usable later = (d <? TOKEN_LIFETIME)) as Hu.
  { unfold stored_token_usable. rewrite Hlater, Hl2, Hls, Hc2, Hck.
    rewrite lookup_insert_ne by discriminate.
    rewrite !lookup_insert_eq. cbn [default truthy_str Datatypes.id].
    rewrite Number_String_of_num. cbn [num_gt].
    assert (negb (String.eqb tok "") = true) as ->.
    { destruct tok; [congruence|reflexivity]. }
    assert (negb (String.eqb (String_of_num (clock (win w) + TOKEN_LIFETIME)) "") = true)
      as ->.
    { pose proof (String_of_num_nonempty (clock (win w) + TOKEN_LIFETIME)).
      destruct (String_of_num _); [congruence|reflexivity]. }
    cbn [andb]. destruct (d <? TOKEN_LIFETIME) eqn:E; lia. }
  split; [unfold eval; now rewrite E1|]. split; [|split; [exact Hu|split]].
  - unfold hasValidToken, Date_now. run. rewrite Hlater, Hv2, Hat, Hte, Hc2, Hck.
    cbn. f_equal. destruct (d <? TOKEN_LIFETIME) eqn:E; lia.
  - exact Hu.
  - intros Hexp. apply restoreSession_unusable.
    change (stored_token_usable later = false). rewrite Hu. lia.
Qed.

Lemma saved_token_lifetime_witness :
  eval hasValidToken (exec (authenticate >> advance 3549999) (exec initialize first_visit))
    = Ok true
  /\ eval restoreSession
       (reload [] [] (exec (authenticate >> advance 3550000) (exec initialize first_visit)))
     = Ok false.
Proof.
  split.
  - exact (proj1 (proj2 (saved_token_lifetime [] [] "ya29.demo" 3549999
                           (exec initialize first_visit)
                           ltac:(vm_compute; reflexivity) ltac:(vm_compute; reflexivity)
                           ltac:(discriminate) ltac:(lia)))).
  - apply (saved_token_lifetime [] [] "ya29.demo" 3550000
             (exec initialize first_visit)
             ltac:(vm_compute; reflexivity) ltac:(vm_compute; reflexivity)
             ltac:(discriminate) ltac:(lia)).
    vm_compute. discriminate.
Defined.

(** ** Deferred writes: at most one is pending *)

Lemma one_pending_tracked w : one_pending w -> tracked w.
Proof.
  intros [E|(id & due & E & Hs)] tm; rewrite E; cbn; [tauto|].
  intros [<-|[]]. exact Hs.
Qed.

Lemma pending_send q : preserves (keeps pending_of) (send q).
Proof. intros w. reflexivity. Qed.

Lemma pending_loadGoogleScripts : preserves (keeps pending_of) loadGoogleScripts.
Proof. unfold loadGoogleScripts. keeping. Qed.

Lemma pending_loadAllData : preserves (keeps pending_of) loadAllData.
Proof. unfold loadAllData, drive_files_get. pose proof pending_send. keeping. Qed.

Lemma pending_saveAllData : preserves (keeps pending_of) saveAllData.
Proof. unfold saveAllData, fetch_patch. pose proof pending_send. keeping. Qed.

Lemma pending_createConfigFile : preserves (keeps pending_of) createConfigFile.
Proof. unfold createConfigFile, fetch_create. pose proof pending_send. keeping. Qed.

Lemma pending_findOrCreateConfigFile :
  preserves (keeps pending_of) findOrCreateConfigFile.
Proof.
  unfold findOrCreateConfigFile, drive_files_list.
  pose proof pending_send. pose proof pending_loadAllData.
  pose proof pending_createConfigFile. keeping.
Qed.

Lemma pending_clearToken : preserves (keeps pending_of) clearToken.
Proof. unfold clearToken. keeping. Qed.

Lemma pending_authenticate : preserves (keeps pending_of) authenticate.
Proof. unfold authenticate, saveToken. keeping. Qed.

Lemma pending_connect : preserves (keeps pending_of) connect.
Proof.
  unfold connect. pose proof pending_loadGoogleScripts.
  pose proof pending_authenticate. pose proof pending_findOrCreateConfigFile.
  keeping.
Qed.

Lemma pending_restoreSession : preserves (keeps pending_of) restoreSession.
Proof.
  unfold restoreSession. pose proof pending_loadGoogleScripts.
  pose proof pending_clearToken. pose proof pending_findOrCreateConfigFile.
  keeping.
Qed.

Lemma pending_getItem k : preserves (keeps pending_of) (getItem k).
Proof. unfold getItem. pose proof pending_loadAllData. keeping. Qed.

Lemma pending_removeItem k : preserves (keeps pending_of) (removeItem k).
Proof. unfold removeItem. pose proof pending_saveAllData. keeping. Qed.

Lemma pending_attempt {A} (m : M A) :
  preserves (keeps pending_of) m -> preserves (keeps pending_of) (attempt m).
Proof. intros H. unfold attempt. keeping. Qed.

Lemma one_pending_keeps w w' : keeps pending_of w w' -> one_pending w -> one_pending w'.
Proof.
  unfold keeps, pending_of, one_pending. intros E. injection E as Et Es.
  rewrite Et, Es. tauto.
Qed.

Lemma fires_pending tms w :
  pending_of (fold_left fire tms w) = pending_of w.
Proof.
  revert w. induction tms as [|tm tms IH]; intros w; cbn; [reflexivity|].
  rewrite IH. unfold fire, exec.
  destruct (saveAllData_run
              (with_win (fun b => set_clock (Z.max (clock b) (snd tm)) b) w))
    as (w' & -> & _ & Ha & _ & _ & _ & _ & Ht & _).
  unfold pending_of. cbn [snd]. rewrite Ha, Ht. reflexivity.
Qed.

(** Time passing drops the timers that fell due and keeps the others. *)
Lemma advance_pending d w :
  pending_of (exec (advance d) w) =
  (List.filter (fun tm => negb (is_due (clock (win w) + d) tm)) (timers (win w)),
   saveTimeout (adapter w)).
Proof.
  unfold advance, exec. cbn [snd].
  match goal with
  | |- pending_of (with_win ?f (fold_left fire ?tms ?w1)) = _ =>
      pose proof (fires_pending tms w1) as H
  end.
  unfold pending_of in *. cbn in *. exact H.
Qed.

Lemma one_pending_advance d w : one_pending w -> one_pending (exec (advance d) w).
Proof.
  intros Hw. pose proof (advance_pending d w) as H.
  pose proof (f_equal fst H) as Ht. pose proof (f_equal snd H) as Hs.
  unfold pending_of in Ht, Hs. cbn [fst snd] in Ht, Hs.
  unfold one_pending. rewrite Ht, Hs.
  destruct Hw as [->|(id & due & -> & ->)]; cbn; [now left|].
  destruct (negb (is_due (clock (win w) + d) (id, due))); [right; eauto|now left].
Qed.

Lemma one_pending_setItem k v w : one_pending w -> one_pending (exec (setItem k v) w).
Proof.
  intros Hw. unfold exec. rewrite (setItem_tracked k v w (one_pending_tracked w Hw)).
  right. cbn. eauto.
Qed.

Lemma one_pending_op o w : one_pending w -> one_pending (exec (run_op o) w).
Proof.
  intros Hw.
  assert (forall A (m : M A), preserves (keeps pending_of) m ->
            one_pending (exec (attempt m) w)) as Hkeep.
  { intros A m Hm. apply (one_pending_keeps w); [|exact Hw].
    now apply pending_attempt. }
  destruct o; cbn [run_op].
  - apply Hkeep, pending_loadGoogleScripts.
  - apply Hkeep, pending_connect.
  - apply Hkeep, pending_restoreSession.
  - apply Hkeep, pending_getItem.
  - unfold attempt, exec, try_catch, bind.
    pose proof (one_pending_setItem key v w Hw) as H. unfold exec in H.
    destruct (setItem key v w) as [[[]|e] w']; exact H.
  - apply Hkeep, pending_removeItem.
  - now apply one_pending_advance.
Qed.

(** X2.  Whatever the page does with the adapter, in whatever order and
    however the network and the consent popup answer, at most one deferred
    write is pending at any time, and it is the one whose handle the
    adapter keeps in [saveTimeout].  The invariant holds at page load,
    where no timer is pending. *)
Theorem at_most_one_pending_write ops w :
  one_pending w ->
  one_pending (exec (run_ops ops) w) /\ tracked (exec (run_ops ops) w).
Proof.
  revert w. induction ops as [|o ops IH]; intros w Hw.
  - cbn. split; [exact Hw|now apply one_pending_tracked].
  - cbn [run_ops].
    assert (eval (run_op o) w = Ok tt) as Ho.
    { destruct o; cbn [run_op]; unfold attempt, eval, try_catch, bind, ret;
        try (match goal with
             | |- context [?m w] => destruct (m w) as [[?|?] ?]
             end; reflexivity).
      reflexivity. }
    pose proof (one_pending_op o w Hw) as H1.
    specialize (IH (exec (run_op o) w) H1).
    unfold eval, exec in *. unfold bind.
    destruct (run_op o w) as [[[]|e] w1]; cbn in *; [exact IH|discriminate].
Qed.

Lemma at_most_one_pending_write_witness :
  one_pending
    (exec (run_ops [OpConnect; OpSetItem "focusnook-settings" (VNum 1); OpWait 500;
                    OpSetItem "focusnook-music" (VNum 2); OpRemoveItem "focusnook-todoist";
                    OpWait 1999; OpGetItem "focusnook-settings"])
       first_visit).
Proof.
  apply (at_most_one_pending_write _ first_visit). left. reflexivity.
Defined.

(** ** Deferred writes: a burst is one request *)

Lemma cache_after_lookup writes (c : document) k :
  cache_after writes c !! k =
  match last_write k writes with
  | Some v => Some v
  | None => c !! k
  end.
Proof.
  revert c. induction writes as [|[[k' v'] p] rest IH]; intros c; cbn; [reflexivity|].
  unfold cache_after in *. cbn. rewrite IH.
  destruct (last_write k rest); [reflexivity|].
  destruct (String.eqb k k') eqn:E.
  - apply String.eqb_eq in E as ->. apply lookup_insert_eq.
  - apply String.eqb_neq in E. apply lookup_insert_ne. congruence.
Qed.

(** One write of a burst: the timer is replaced, nothing is sent. *)
Lemma burst_step k v pause w :
  tracked w -> 0 <= pause < 2000 ->
  exists w',
    (setItem k v >> advance pause) w = (Ok tt, w')
    /\ vars w' = vars w /\ cloud w' = cloud w
    /\ cache (adapter w') = <[k := v]> (cache (adapter w))
    /\ exists id due,
         timers (win w') = [(id, due)] /\ saveTimeout (adapter w') = Some id
         /\ clock (win w') < due <= clock (win w') + 2000.
Proof.
  intros Ht Hp.
  pose proof (setItem_tracked k v w Ht) as E1.
  set (w1 := {| vars := vars w;
                adapter := {| cache := <[k := v]> (cache (adapter w));
                              saveTimeout := Some (next_timer (win w)) |};
                win := set_next_timer (Pos.succ (next_timer (win w)))
                         (set_timers [(next_timer (win w), clock (win w) + 2000)] (win w));
                cloud := cloud w; storage := storage w; ui := ui w |}) in *.
  assert (advance pause w1 = (Ok tt, with_win (set_clock (clock (win w1) + pause)) w1))
    as E2.
  { apply advance_idle; [lia|]. cbn. intros tm [<-|[]]. unfold is_due. cbn. lia. }
  exists (with_win (set_clock (clock (win w1) + pause)) w1). split.
  - rewrite (run_seq _ _ w tt) by (unfold eval; now rewrite E1).
    unfold exec. rewrite E1. exact E2.
  - cbn. repeat split. exists (next_timer (win w)), (clock (win w) + 2000).
    repeat split; lia.
Qed.

Lemma burst_run writes w :
  tracked w -> writes <> [] ->
  Forall (fun kvp => 0 <= snd kvp < 2000) writes ->
  exists w',
    burst writes w = (Ok tt, w')
    /\ vars w' = vars w /\ cloud w' = cloud w
    /\ cache (adapter w') = cache_after writes (cache (adapter w))
    /\ exists id due,
         timers (win w') = [(id, due)] /\ saveTimeout (adapter w') = Some id
         /\ clock (win w') < due <= clock (win w') + 2000.
Proof.
  revert w. induction writes as [|[[k v] p] rest IH]; intros w Ht Hne Hall;
    [congruence|].
  inversion Hall as [|? ? Hp Hrest]; subst. cbn [snd] in Hp.
  destruct (burst_step k v p w Ht Hp)
    as (w1 & E1 & Hv1 & Hc1 & Hk1 & id & due & Htm & Hst & Hdue).
  assert (burst ((k, v, p) :: rest) w = burst rest w1) as Hstep.
  { cbn [burst]. unfold bind in *. destruct (setItem k v w) as [[[]|e] w0];
      [|discriminate E1].
    rewrite E1. reflexivity. }
  rewrite Hstep.
  destruct rest as [|wr rest'].
  - exists w1. cbn. repeat split; try assumption. eauto.
  - assert (tracked w1) as Ht1.
    { intros tm. rewrite Htm. cbn. intros [<-|[]]. exact Hst. }
    destruct (IH w1 Ht1 ltac:(discriminate) Hrest)
      as (w' & E & Hv & Hc & Hk & Hpend).
    exists w'. split; [exact E|]. split; [congruence|]. split; [congruence|].
    split; [|exact Hpend].
    rewrite Hk, Hk1. reflexivity.
Qed.

(** X3.  A burst of writes, each following the previous one by less than
    two seconds, is answered by one request: two seconds after the last
    write, on an adapter whose backing file is known, exactly one flush has
    been sent; it carries the whole cached document, in which every key
    written in the burst has the value written last; no timer is left
    pending. *)
Theorem burst_one_flush writes d fid w :
  tracked w -> writes <> [] ->
  Forall (fun kvp => 0 <= snd kvp < 2000) writes ->
  2000 <= d ->
  configFileId (vars w) = Some fid -> fid <> "" ->
  let w' := exec (burst writes >> advance d) w in
  exists body,
    flushes w' = (flushes w ++ [(fid, body)])%list
    /\ body = jsonify_doc (cache (adapter w'))
    /\ (forall k v, last_write k writes = Some v -> json_serializable v = true ->
                    body !! k = Some v)
    /\ timers (win w') = [].
Proof.
  intros Ht Hne Hall Hd Hid Hfid w'.
  destruct (burst_run writes w Ht Hne Hall)
    as (w1 & E1 & Hv1 & Hc1 & Hk1 & id & due & Htm & Hst & Hdue).
  pose proof (advance_single d (id, due) w1 Htm) as E2.
  assert (is_due (clock (win w1) + d) (id, due) = true) as Hdue'.
  { unfold is_due. cbn. apply Z.leb_le. lia. }
  specialize (E2 Hdue').
  assert (w' = with_win (fun b => set_clock (Z.max (clock b) (clock (win w1) + d)) b)
                 (fire (with_win (set_timers []) w1) (id, due))) as ->.
  { unfold w', exec.
    rewrite (run_seq _ _ w tt) by (unfold eval; now rewrite E1).
    unfold exec. rewrite E1. cbn [snd]. now rewrite E2. }
  set (F := with_win (fun b => set_clock (Z.max (clock b) (snd (id, due))) b)
              (with_win (set_timers []) w1)).
  destruct (saveAllData_run F) as (w2 & Es & _ & Ha & _ & _ & _ & _ & Htm2 & _).
  pose proof (saveAllData_requests F) as Hreq.
  unfold fire. fold F. unfold exec in *. rewrite Es in *. cbn [snd] in *.
  assert (truthy_str (configFileId (vars F)) = true) as Htr.
  { cbn. rewrite Hv1, Hid. cbn. destruct fid; [congruence|reflexivity]. }
  rewrite Htr in Hreq.
  exists (jsonify_doc (cache (adapter F))). split; [|split; [|split]].
  - unfold flushes. cbn [with_win cloud]. rewrite Hreq.
    cbn [with_win cloud F vars]. rewrite Hc1, Hv1, Hid, omap_app. reflexivity.
  - cbn. rewrite Ha. reflexivity.
  - intros k v Hlast Hser. apply jsonify_doc_lookup; [|exact Hser].
    cbn. rewrite Hk1, cache_after_lookup, Hlast. reflexivity.
  - cbn. rewrite Htm2. reflexivity.
Qed.

Lemma burst_one_flush_witness :
  exists body,
    flushes (exec (burst [("focusnook-settings", VNum 1, 300);
                          ("focusnook-music", VNum 7, 1999);
                          ("focusnook-settings", VNum 2, 0)]
                   >> advance 2000) signed_in)
    = (flushes signed_in ++ [("file-0", body)])%list
    /\ body !! "focusnook-settings" = Some (VNum 2)
    /\ body !! "focusnook-music" = Some (VNum 7).
Proof.
  destruct (burst_one_flush
              [("focusnook-settings", VNum 1, 300); ("focusnook-music", VNum 7, 1999);
               ("focusnook-settings", VNum 2, 0)] 2000 "file-0" signed_in
              ltac:(intros tm; vm_compute; intros [])
              ltac:(discriminate)
              ltac:(repeat constructor; cbn; lia)
              ltac:(lia) ltac:(vm_compute; reflexivity) ltac:(discriminate))
    as (body & Hf & _ & Hk & _).
  exists body. split; [exact Hf|]. split; apply Hk; reflexivity.
Defined.

(** ** Reads and the network *)

Lemma size_nonempty (c : document) : c <> ∅ -> Nat.eqb (size c) 0 = false.
Proof.
  intros Hc. apply Nat.eqb_neq. intros E. apply Hc. now apply map_size_empty_iff.
Qed.

(** A read that needs no fetch changes nothing at all. *)
Lemma getItem_pure k w :
  cache (adapter w) <> ∅ \/ truthy_str (configFileId (vars w)) = false ->
  getItem k w =
  (Ok (if negb (truthy_str (accessToken (vars w)))
          && negb (truthy_str (configFileId (vars w)))
       then VNull else js_or (get_prop k (cache (adapter w))) VNull), w).
Proof.
  intros H. unfold getItem. run.
  destruct (negb (truthy_str (accessToken (vars w)))
            && negb (truthy_str (configFileId (vars w)))); [reflexivity|].
  cbn beta iota.
  destruct H as [H|H].
  - rewrite (size_nonempty _ H), andb_false_r. reflexivity.
  - rewrite H. reflexivity.
Qed.

(** A read on an empty cache with a known file fetches the document. *)
Lemma getItem_hydrate k fid f w :
  configFileId (vars w) = Some fid -> fid <> "" ->
  cache (adapter w) = ∅ ->
  gapiInited (vars w) = true ->
  outcome_at 0 w = NetOk ->
  find_file fid (drive (cloud w)) = Some f ->
  getItem k w =
  (Ok (js_or (get_prop k (file_body f)) VNull),
   with_adapter (set_cache (file_body f))
     (with_cloud (fun r => set_net (tail (net r)) (push_request (ReqGet fid) r)) w)).
Proof.
  intros Hid Hfid Hc Hg H0 Hf.
  assert (truthy_str (Some fid) = true) as Htr.
  { cbn. destruct fid; [congruence|reflexivity]. }
  unfold getItem, loadAllData, drive_files_get, gapi_drive. run.
  rewrite Hid, Htr. cbn [negb]. rewrite andb_false_r. cbn beta iota.
  rewrite Hc, map_size_empty. cbn -[send]. rewrite Hid, Htr. cbn -[send].
  rewrite Hg. cbn -[send]. rewrite send_at, H0. cbn -[find_file]. rewrite Hf. cbn.
  reflexivity.
Qed.

(** X5.  [getItem] talks to the network only while the cache is empty and
    the backing file is known.  Otherwise it sends nothing and changes
    nothing.  On an empty cache it fetches the document once and keeps it;
    a second read is then served from the cache, unless the document is
    the empty object, in which case every read fetches it again. *)
Theorem getItem_fetches_only_on_empty_cache k k' w :
  (cache (adapter w) <> ∅ \/ truthy_str (configFileId (vars w)) = false ->
   exec (getItem k) w = w)
  /\ (forall fid f,
        configFileId (vars w) = Some fid -> fid <> "" ->
        cache (adapter w) = ∅ ->
        gapiInited (vars w) = true ->
        outcome_at 0 w = NetOk ->
        find_file fid (drive (cloud w)) = Some f ->
        eval (getItem k) w = Ok (js_or (get_prop k (file_body f)) VNull)
        /\ cache (adapter (exec (getItem k) w)) = file_body f
        /\ requests (cloud (exec (getItem k) w))
           = (requests (cloud w) ++ [ReqGet fid])%list
        /\ (file_body f <> ∅ ->
            requests (cloud (exec (getItem k >> getItem k') w))
            = (requests (cloud w) ++ [ReqGet fid])%list)
        /\ (file_body f = ∅ -> outcome_at 1 w = NetOk ->
            requests (cloud (exec (getItem k >> getItem k') w))
            = (requests (cloud w) ++ [ReqGet fid; ReqGet fid])%list)).
Proof.
  split.
  - intros H. unfold exec. now rewrite (getItem_pure k w H).
  - intros fid f Hid Hfid Hc Hg H0 Hf.
    pose proof (getItem_hydrate k fid f w Hid Hfid Hc Hg H0 Hf) as E.
    set (w1 := with_adapter (set_cache (file_body f))
                 (with_cloud (fun r => set_net (tail (net r))
                                         (push_request (ReqGet fid) r)) w)) in *.
    assert (exec (getItem k >> getItem k') w = exec (getItem k') w1) as Hseq.
    { assert (exec (getItem k) w = w1) as X by (unfold exec; now rewrite E).
      unfold exec at 1. rewrite (run_seq _ _ w _) by (unfold eval; now rewrite E).
      now rewrite X. }
    unfold eval, exec at 1 2. rewrite E. cbn [fst snd].
    split; [reflexivity|]. split; [reflexivity|]. split; [reflexivity|]. split.
    + intros Hne. rewrite Hseq. unfold exec.
      rewrite (getItem_pure k' w1) by (left; exact Hne). reflexivity.
    + intros He H1. rewrite Hseq. unfold exec.
      assert (outcome_at 0 w1 = NetOk) as H0'.
      { unfold outcome_at in *. cbn. destruct (net (cloud w)) as [|? [|? ?]]; cbn in *;
          congruence. }
      rewrite (getItem_hydrate k' fid f w1 Hid Hfid He Hg H0' Hf).
      cbn. now rewrite <- app_assoc.
Qed.

Lemma getItem_fetches_only_on_empty_cache_witness :
  requests (cloud (exec (getItem "focusnook-settings" >> getItem "focusnook-music")
                     signed_in))
  = (requests (cloud signed_in) ++ [ReqGet "file-0"; ReqGet "file-0"])%list.
Proof.
  destruct (proj2 (getItem_fetches_only_on_empty_cache
                     "focusnook-settings" "focusnook-music" signed_in)
              "file-0" (new_config_file (exec initialize first_visit))
              ltac:(vm_compute; reflexivity) ltac:(discriminate)
              ltac:(vm_compute; reflexivity) ltac:(vm_compute; reflexivity)
              ltac:(vm_compute; reflexivity) ltac:(vm_compute; reflexivity))
    as (_ & _ & _ & _ & H).
  apply H; vm_compute; reflexivity.
Defined.

(** ** Removing a key *)

Lemma removeItem_run k w :
  exists w',
    removeItem k w = (Ok tt, w')
    /\ vars w' = vars w
    /\ cache (adapter w') = delete k (cache (adapter w))
    /\ pending_of w' = pending_of w
    /\ requests (cloud w') =
       (requests (cloud w) ++
          (if truthy_str (configFileId (vars w))
           then [ReqPatch (default "" (configFileId (vars w)))
                   (jsonify_doc (delete k (cache (adapter w))))]
           else []))%list.
Proof.
  unfold removeItem, bind, modify.
  set (w0 := with_adapter (fun a => set_cache (delete k (cache a)) a) w).
  destruct (saveAllData_run w0) as (w' & E & Hv & Ha & _ & _ & _ & _ & Ht & _).
  pose proof (saveAllData_requests w0) as Hr. unfold exec in Hr. rewrite E in *.
  exists w'. split; [reflexivity|]. split; [exact Hv|]. split; [now rewrite Ha|].
  split; [|exact Hr]. unfold pending_of. now rewrite Ha, Ht.
Qed.

(** X4.  [removeItem] writes at once: on an adapter whose backing file is
    known it sends exactly one request, the cached document without the
    key, and it leaves a pending deferred write as it is.  A read of the
    key that follows yields [null] as long as the cache holds another key.
    When the removed key was the only one and the write could not reach
    the file, the read fetches the document again and the key is back with
    the value the file holds. *)
Theorem removeItem_writes_at_once k fid w :
  configFileId (vars w) = Some fid -> fid <> "" ->
  let w' := exec (removeItem k) w in
  eval (removeItem k) w = Ok tt
  /\ flushes w' = (flushes w ++ [(fid, jsonify_doc (delete k (cache (adapter w))))])%list
  /\ jsonify_doc (delete k (cache (adapter w))) !! k = None
  /\ pending_of w' = pending_of w
  /\ (forall k' v', k' <> k -> cache (adapter w) !! k' = Some v' ->
        eval (removeItem k >> getItem k) w = Ok VNull)
  /\ (forall v f o,
        cache (adapter w) = {[k := v]} ->
        gapiInited (vars w) = true ->
        outcome_at 0 w = o -> o <> NetOk -> outcome_at 1 w = NetOk ->
        find_file fid (drive (cloud w)) = Some f ->
        eval (removeItem k >> getItem k) w = Ok (js_or (get_prop k (file_body f)) VNull)).
Proof.
  intros Hid Hfid w'.
  assert (truthy_str (Some fid) = true) as Htr.
  { cbn. destruct fid; [congruence|reflexivity]. }
  destruct (removeItem_run k w) as (w1 & E & Hv & Hc & Hp & Hr).
  assert (exec (removeItem k) w = w1) as X by (unfold exec; now rewrite E).
  assert (eval (removeItem k >> getItem k) w = eval (getItem k) w1) as Hseq.
  { unfold eval at 1. rewrite (run_seq _ _ w tt) by (unfold eval; now rewrite E).
    now rewrite X. }
  unfold w'. rewrite X.
  split; [unfold eval; now rewrite E|]. split; [|split; [|split; [exact Hp|split]]].
  - unfold flushes. rewrite Hr, Hid, Htr, omap_app. reflexivity.
  - apply jsonify_doc_absent, lookup_delete_eq.
  - intros k' v' Hne Hk'. rewrite Hseq. unfold eval.
    rewrite (getItem_pure k w1).
    + cbn [fst]. rewrite Hv, Hid, Htr. cbn [negb]. rewrite andb_false_r.
      unfold get_prop. rewrite Hc, lookup_delete_eq. reflexivity.
    + left. rewrite Hc. intros He.
      assert (delete k (cache (adapter w)) !! k' = Some v') as Hl
        by (rewrite lookup_delete_ne by congruence; exact Hk').
      rewrite He, lookup_empty in Hl. discriminate.
  - intros v f o Hone Hg H0 Ho H1 Hf. rewrite Hseq.
    assert (cache (adapter w1) = ∅) as Hc1.
    { rewrite Hc, Hone. apply delete_singleton_eq. }
    assert (drive (cloud w1) = drive (cloud w) /\ net (cloud w1) = tail (net (cloud w)))
      as [Hd Hn].
    { unfold removeItem, saveAllData, fetch_patch, send, console_error in E.
      revert E. run. cbn -[truthy_str]. rewrite Hid, Htr. cbn.
      unfold outcome_at in H0.
      destruct (net (cloud w)) as [|o' rest] eqn:En; cbn in H0; [congruence|].
      subst o'. destruct o; [congruence| |]; cbn; intros E; injection E as <-;
        split; reflexivity. }
    unfold eval. rewrite (getItem_hydrate k fid f w1); try assumption.
    + reflexivity.
    + now rewrite Hv.
    + now rewrite Hv.
    + unfold outcome_at in *. rewrite Hn.
      destruct (net (cloud w)) as [|? [|? ?]]; cbn in *; congruence.
    + now rewrite Hd.
Qed.

Lemma removeItem_writes_at_once_witness :
  eval (removeItem "focusnook-settings" >> getItem "focusnook-settings")
    (offline settings_flushed) = Ok (VNum 5).
Proof.
  destruct (removeItem_writes_at_once "focusnook-settings" "file-0"
              (offline settings_flushed)
              ltac:(vm_compute; reflexivity) ltac:(discriminate))
    as (_ & _ & _ & _ & _ & H).
  etransitivity.
  - apply (H (VNum 5)
             {| file_id := "file-0"; file_name := CONFIG_NAME; file_trashed := false;
                file_body := {["focusnook-settings" := VNum 5]} |}
             NetDown);
      try (vm_compute; reflexivity). discriminate.
  - vm_compute. reflexivity.
Defined.

(** ** Loading the client libraries *)

Lemma initialize_ready w :
  scripts_will_load w ->
  exists w1,
    initialize w = (Ok tt, w1)
    /\ scripts_ready w1
    /\ adapter w1 = adapter w /\ win w1 = win w /\ cloud w1 = cloud w
    /\ storage w1 = storage w /\ ui w1 = ui w
    /\ accessToken (vars w1) = accessToken (vars w)
    /\ tokenExpiry (vars w1) = tokenExpiry (vars w)
    /\ configFileId (vars w1) = configFileId (vars w).
Proof.
  intros [(Hp & Hg & Hs & Ht)|(Hp & Hpre & Hga & Hgi)];
    unfold initialize, loadGoogleScripts; run; rewrite Hp; cbn.
  - exists w. repeat split; assumption.
  - rewrite Hpre, Hga, Hgi. cbn. eexists. split; [reflexivity|].
    unfold scripts_ready. cbn. repeat split.
Qed.

(** The promise is settled once: a second call answers as the first did
    and changes nothing, whatever has become of the page meanwhile. *)
Lemma loadGoogleScripts_settled w p :
  scriptsPromise (vars w) = Some p ->
  loadGoogleScripts w =
  (match p with Resolved => Ok tt | Rejected e => Throw e end, w).
Proof.
  intros Hp. unfold loadGoogleScripts. run. rewrite Hp. destruct p; reflexivity.
Qed.

Lemma loadGoogleScripts_settles w :
  exists p,
    scriptsPromise (vars (exec loadGoogleScripts w)) = Some p
    /\ eval loadGoogleScripts w
       = match p with Resolved => Ok tt | Rejected e => Throw e end.
Proof.
  unfold loadGoogleScripts. run.
  destruct (scriptsPromise (vars w)) as [[|e]|] eqn:Hp; cbn.
  - exists Resolved. now rewrite Hp.
  - exists (Rejected e). now rewrite Hp.
  - destruct (preloaded (env (cloud w))); cbn; [now exists Resolved|].
    destruct (gapi_loads (env (cloud w))); cbn;
      [destruct (gis_loads (env (cloud w))); cbn|]; eexists; split; reflexivity.
Qed.

(** X6.  A failure to load the client libraries is permanent for the
    page.  Once [initialize] has thrown, every later [initialize] and
    [connect] throws the same error and [restoreSession] returns [false]
    with an alert, without a request being sent and without the token or
    the backing file being touched, even when the libraries could be
    loaded by then and the network works: the rejected promise is the one
    kept in [scriptsPromise]. *)
Theorem script_failure_is_permanent w e w' :
  eval initialize w = Throw e ->
  vars w' = vars (exec initialize w) ->
  eval initialize w' = Throw e
  /\ eval connect w' = Throw e
  /\ session_of (exec connect w') = session_of w'
  /\ eval restoreSession w' = Ok false
  /\ session_of (exec restoreSession w') = session_of w'
  /\ alerts (win (exec restoreSession w'))
     = (alerts (win w') ++ ["Google Scripts Failed to Load: " +:+ error_message e])%list.
Proof.
  intros Hi Hv.
  destruct (loadGoogleScripts_settles w) as (p & Hp & He).
  unfold initialize in *. rewrite Hi in He. destruct p as [|e']; [discriminate|].
  injection He as <-.
  assert (scriptsPromise (vars w') = Some (Rejected e)) as Hp' by now rewrite Hv.
  pose proof (loadGoogleScripts_settled w' _ Hp') as E.
  unfold eval, exec, connect, restoreSession, initialize, alert, session_of. run.
  rewrite E. cbn. repeat split.
Qed.

Lemma script_failure_is_permanent_witness :
  eval connect
    (with_cloud (fun r => {| drive := drive r; net := net r; requests := requests r;
                             next_file := next_file r; env := demo_env |})
       (exec initialize broken_scripts_visit))
  = Throw (Error "Failed to load gapi script").
Proof.
  refine (proj1 (proj2 (script_failure_is_permanent broken_scripts_visit
                          (Error "Failed to load gapi script") _ _ _))).
  - vm_compute. reflexivity.
  - reflexivity.
Defined.

(** X7.  When both client libraries are already on the page at the first
    call of [loadGoogleScripts], the promise resolves at once and neither
    client is initialised: [initialize] returns normally, yet [connect]
    throws ['Google scripts failed to initialize'] before asking for
    consent, now and at every later attempt on this page, and sends no
    request. *)
Theorem preloaded_libraries_block_connect w w' :
  scriptsPromise (vars w) = None ->
  preloaded (env (cloud w)) = true ->
  gisInited (vars w) && gapiInited (vars w) = false ->
  vars w' = vars (exec initialize w) ->
  eval initialize w = Ok tt
  /\ eval connect w = Throw (Error "Google scripts failed to initialize")
  /\ session_of (exec connect w) = session_of w
  /\ eval connect w' = Throw (Error "Google scripts failed to initialize")
  /\ session_of (exec connect w') = session_of w'.
Proof.
  intros Hp Hpre Hflags Hv.
  assert (initialize w = (Ok tt, with_vars (set_scriptsPromise (Some Resolved)) w)) as E.
  { unfold initialize, loadGoogleScripts. run. now rewrite Hp, Hpre. }
  unfold exec in Hv. rewrite E in Hv. cbn in Hv.
  assert (scriptsPromise (vars w') = Some Resolved) as Hp' by now rewrite Hv.
  pose proof (loadGoogleScripts_settled w' _ Hp') as E'.
  assert (negb (gisInited (vars w)) || negb (gapiInited (vars w)) = true) as Hn.
  { destruct (gisInited (vars w)), (gapiInited (vars w)); cbn in *; congruence. }
  assert (negb (gisInited (vars w')) || negb (gapiInited (vars w')) = true) as Hn'.
  { rewrite Hv. exact Hn. }
  unfold initialize in *.
  unfold eval, exec, connect, initialize, session_of. run. rewrite E, E'. cbn.
  rewrite Hn, Hn'. repeat split.
Qed.

Lemma preloaded_libraries_block_connect_witness :
  eval connect preloaded_visit = Throw (Error "Google scripts failed to initialize").
Proof.
  refine (proj1 (proj2 (preloaded_libraries_block_connect preloaded_visit
                          (exec initialize preloaded_visit) _ _ _ _)));
    vm_compute; reflexivity.
Defined.

(** ** Interactive sign-in *)

(** X8.  Consent comes before everything else [connect] does on the
    remote side: when the user refuses, [connect] throws what the consent
    popup answered, no request has been sent, no token is kept in memory
    or in local storage, and no backing file is resolved. *)
Theorem connect_refused_consent_sends_nothing w :
  scripts_will_load w ->
  consent (env (cloud w)) = None ->
  (exists code, eval connect w = Throw (ConsentError code))
  /\ session_of (exec connect w) = session_of w
  /\ pending_of (exec connect w) = pending_of w
  /\ cache (adapter (exec connect w)) = cache (adapter w).
Proof.
  intros Hl Hc.
  destruct (initialize_ready w Hl)
    as (w1 & E & (_ & Hg & Hs & Ht) & Ha & Hw & Hcl & _ & _ & Hat & Hte & Hid).
  unfold eval, exec, connect, authenticate, session_of, pending_of. run. rewrite E. cbn.
  rewrite Hs, Hg. cbn. rewrite Ht. cbn. rewrite Hcl, Hc. cbn.
  rewrite Hcl, Hat, Hte, Hid, Hw, Ha. repeat split. now eexists.
Qed.

Lemma connect_refused_consent_sends_nothing_witness :
  session_of (exec connect refusing_visit) = session_of refusing_visit.
Proof.
  apply connect_refused_consent_sends_nothing.
  - right. vm_compute. repeat split.
  - reflexivity.
Defined.

(** ** Resolving the backing file, in full *)

Lemma outcome_at_next i w w' :
  net (cloud w') = tail (net (cloud w)) ->
  outcome_at i w' = outcome_at (S i) w.
Proof.
  intros H. unfold outcome_at. rewrite H.
  destruct (net (cloud w)); [now destruct i|reflexivity].
Qed.

(** The search finds a file: it becomes the backing file and its content
    is fetched into the cache; a fetch that fails leaves the cache
    empty. *)
Lemma findOrCreate_found w f fs :
  gapiInited (vars w) = true ->
  outcome_at 0 w = NetOk ->
  matching_files w = f :: fs ->
  file_id f <> "" ->
  exists w',
    findOrCreateConfigFile w = (Ok tt, w')
    /\ vars w' = set_configFileId (Some (file_id f)) (vars w)
    /\ drive (cloud w') = drive (cloud w)
    /\ env (cloud w') = env (cloud w)
    /\ net (cloud w') = tail (tail (net (cloud w)))
    /\ requests (cloud w') = (requests (cloud w) ++ [ReqList; ReqGet (file_id f)])%list
    /\ storage w' = storage w /\ ui w' = ui w
    /\ localStorage (win w') = localStorage (win w)
    /\ clock (win w') = clock (win w)
    /\ timers (win w') = timers (win w)
    /\ alerts (win w') = alerts (win w)
    /\ gapiToken (win w') = gapiToken (win w)
    /\ saveTimeout (adapter w') = saveTimeout (adapter w)
    /\ (outcome_at 1 w = NetOk ->
        forall f', find_file (file_id f) (drive (cloud w)) = Some f' ->
                   cache (adapter w') = file_body f').
Proof.
  intros Hg H0 Hm Hne. unfold matching_files in Hm.
  assert (truthy_str (Some (file_id f)) = true) as Htr.
  { cbn. destruct (file_id f); [congruence|reflexivity]. }
  unfold findOrCreateConfigFile, drive_files_list, loadAllData, drive_files_get,
    gapi_drive, console_error. run.
  rewrite Hg. cbn -[send find_file truthy_str]. rewrite send_at, H0.
  cbn -[send find_file truthy_str].
  rewrite Hm. cbn -[send find_file truthy_str]. rewrite Htr.
  cbn -[send find_file truthy_str].
  rewrite Hg. cbn -[send find_file truthy_str]. rewrite send_at.
  match goal with
  | |- context [outcome_at 0 ?W] => rewrite (outcome_at_next 0 w W) by reflexivity
  end.
  destruct (outcome_at 1 w) eqn:H1; cbn -[find_file].
  - destruct (find_file (file_id f) (drive (cloud w))) as [f'|] eqn:Hf; cbn;
      eexists; (split; [reflexivity|]); cbn; rewrite <- app_assoc; repeat split;
      intros; congruence.
  - eexists; (split; [reflexivity|]); cbn; rewrite <- app_assoc; repeat split;
      intros; congruence.
  - eexists; (split; [reflexivity|]); cbn; rewrite <- app_assoc; repeat split;
      intros; congruence.
Qed.

Lemma quiet_send q : preserves (keeps quiet_of) (send q).
Proof. intros w. reflexivity. Qed.

Lemma quiet_loadGoogleScripts : preserves (keeps quiet_of) loadGoogleScripts.
Proof. unfold loadGoogleScripts. keeping. Qed.

Lemma quiet_loadAllData : preserves (keeps quiet_of) loadAllData.
Proof. unfold loadAllData, drive_files_get. pose proof quiet_send. keeping. Qed.

Lemma quiet_saveAllData : preserves (keeps quiet_of) saveAllData.
Proof. unfold saveAllData, fetch_patch. pose proof quiet_send. keeping. Qed.

Lemma quiet_createConfigFile : preserves (keeps quiet_of) createConfigFile.
Proof. unfold createConfigFile, fetch_create. pose proof quiet_send. keeping. Qed.

Lemma quiet_findOrCreateConfigFile : preserves (keeps quiet_of) findOrCreateConfigFile.
Proof.
  unfold findOrCreateConfigFile, drive_files_list.
  pose proof quiet_send. pose proof quiet_loadAllData.
  pose proof quiet_createConfigFile. keeping.
Qed.

Lemma quiet_clearToken : preserves (keeps quiet_of) clearToken.
Proof. unfold clearToken. keeping. Qed.

Lemma quiet_authenticate : preserves (keeps quiet_of) authenticate.
Proof. unfold authenticate, saveToken. keeping. Qed.

Lemma quiet_connect : preserves (keeps quiet_of) connect.
Proof.
  unfold connect. pose proof quiet_loadGoogleScripts.
  pose proof quiet_authenticate. pose proof quiet_findOrCreateConfigFile.
  keeping.
Qed.

Lemma quiet_restoreSession : preserves (keeps quiet_of) restoreSession.
Proof.
  unfold restoreSession. pose proof quiet_loadGoogleScripts.
  pose proof quiet_clearToken. pose proof quiet_findOrCreateConfigFile.
  keeping.
Qed.

Lemma token_send q : preserves (keeps token_of) (send q).
Proof. intros w. reflexivity. Qed.

Lemma token_loadAllData : preserves (keeps token_of) loadAllData.
Proof. unfold loadAllData, drive_files_get. pose proof token_send. keeping. Qed.

Lemma token_createConfigFile : preserves (keeps token_of) createConfigFile.
Proof. unfold createConfigFile, fetch_create. pose proof token_send. keeping. Qed.

Lemma token_findOrCreateConfigFile : preserves (keeps token_of) findOrCreateConfigFile.
Proof.
  unfold findOrCreateConfigFile, drive_files_list.
  pose proof token_send. pose proof token_loadAllData.
  pose proof token_createConfigFile. keeping.
Qed.

Lemma scripts_send q : preserves (keeps scripts_of) (send q).
Proof. intros w. reflexivity. Qed.

Lemma scripts_loadAllData : preserves (keeps scripts_of) loadAllData.
Proof. unfold loadAllData, drive_files_get. pose proof scripts_send. keeping. Qed.

Lemma scripts_createConfigFile : preserves (keeps scripts_of) createConfigFile.
Proof. unfold createConfigFile, fetch_create. pose proof scripts_send. keeping. Qed.

Lemma scripts_findOrCreateConfigFile :
  preserves (keeps scripts_of) findOrCreateConfigFile.
Proof.
  unfold findOrCreateConfigFile, drive_files_list.
  pose proof scripts_send. pose proof scripts_loadAllData.
  pose proof scripts_createConfigFile. keeping.
Qed.

Lemma scripts_ready_of w w' : scripts_of w' = scripts_of w -> scripts_ready w -> scripts_ready w'.
Proof.
  unfold scripts_of, scripts_ready. intros E. injection E as -> -> -> ->. tauto.
Qed.

(** The search finds nothing and the creation request is answered, with
    a file or with an error status. *)
Lemma findOrCreate_answered w :
  gapiInited (vars w) = true ->
  outcome_at 0 w = NetOk ->
  matching_files w = [] ->
  outcome_at 1 w <> NetDown ->
  eval findOrCreateConfigFile w = Ok tt
  /\ cache (adapter (exec findOrCreateConfigFile w)) = ∅
  /\ net (cloud (exec findOrCreateConfigFile w)) = tail (tail (net (cloud w)))
  /\ requests (cloud (exec findOrCreateConfigFile w))
     = (requests (cloud w) ++ [ReqList; ReqCreate])%list
  /\ (outcome_at 1 w = NetOk ->
      configFileId (vars (exec findOrCreateConfigFile w))
      = Some (file_id (new_config_file w))
      /\ drive (cloud (exec findOrCreateConfigFile w))
         = (drive (cloud w) ++ [new_config_file w])%list)
  /\ (forall st, outcome_at 1 w = NetHttp st ->
      configFileId (vars (exec findOrCreateConfigFile w)) = None
      /\ drive (cloud (exec findOrCreateConfigFile w)) = drive (cloud w)).
Proof.
  intros Hg H0 Hm H1. unfold matching_files in Hm.
  unfold findOrCreateConfigFile, drive_files_list, createConfigFile, fetch_create,
    gapi_drive, console_error. run.
  rewrite Hg. cbn -[send]. rewrite send_at, H0. cbn -[send]. rewrite Hm.
  cbn -[send]. rewrite send_at.
  match goal with
  | |- context [outcome_at 0 ?W] => rewrite (outcome_at_next 0 w W) by reflexivity
  end.
  destruct (outcome_at 1 w) eqn:E1; [| |congruence]; cbn; rewrite <- app_assoc;
    repeat split; intros; congruence.
Qed.

(** [connect] up to the resolution of the backing file. *)
Lemma connect_signed w tok :
  scripts_will_load w ->
  consent (env (cloud w)) = Some tok ->
  exists w1,
    connect w =
    (let (o, w2) := findOrCreateConfigFile w1 in
     (match o with Ok _ => Ok true | Throw e => Throw e end, w2))
    /\ scripts_ready w1
    /\ token_of w1 =
       (Some tok, Some (clock (win w) + TOKEN_LIFETIME), Some tok,
        <["gdrive_expiry" := String_of_num (clock (win w) + TOKEN_LIFETIME)]>
          (<["gdrive_token" := tok]> (localStorage (win w))),
        alerts (win w))
    /\ quiet_of w1 = quiet_of w
    /\ configFileId (vars w1) = configFileId (vars w)
    /\ cache (adapter w1) = cache (adapter w)
    /\ cloud w1 = cloud w.
Proof.
  intros Hl Hc.
  destruct (initialize_ready w Hl)
    as (w0 & E & Hr & Ha & Hw & Hcl & Hs & Hu & Hat & Hte & Hid).
  pose proof Hr as (_ & Hg & Hgi & Ht).
  unfold connect, authenticate, saveToken, gapi_setToken, gapi_client_present,
    ls_setItem, Date_now. run. rewrite E. cbn -[findOrCreateConfigFile].
  rewrite Hgi, Hg. cbn -[findOrCreateConfigFile]. rewrite Ht.
  cbn -[findOrCreateConfigFile]. rewrite Hcl, Hc. cbn -[findOrCreateConfigFile].
  rewrite Hg. cbn -[findOrCreateConfigFile].
  match goal with
  | |- context [findOrCreateConfigFile ?W] => exists W
  end.
  split.
  - match goal with
    | |- context [findOrCreateConfigFile ?W] =>
        destruct (findOrCreateConfigFile W) as [[[]|e] w2]
    end; reflexivity.
  - unfold scripts_ready, token_of, quiet_of in *. cbn.
    rewrite Hw, Ha, Hs, Hu, Hcl, Hid. repeat split; tauto.
Qed.

(** [restoreSession] with a usable stored token, up to the resolution of
    the backing file. *)
Lemma restoreSession_usable w tok :
  scripts_will_load w ->
  localStorage (win w) !! "gdrive_token" = Some tok ->
  stored_token_usable w = true ->
  exists w1,
    restoreSession w =
    (let (o, w2) := findOrCreateConfigFile w1 in
     match o with
     | Ok _ => (Ok true, w2)
     | Throw err =>
         (console_error ("[Drive Debug] Cached token invalid or expired on usage: "
                         +:+ error_text err) >>
          alert ("Session Restore API Error: " +:+ error_text err) >>
          clearToken >> ret false) w2
     end)
    /\ scripts_ready w1
    /\ token_of w1 =
       (Some tok, Number (default "" (localStorage (win w) !! "gdrive_expiry")),
        Some tok, localStorage (win w), alerts (win w))
    /\ quiet_of w1 = quiet_of w
    /\ configFileId (vars w1) = configFileId (vars w)
    /\ cache (adapter w1) = cache (adapter w)
    /\ cloud w1 = cloud w.
Proof.
  intros Hl Htok Hu. unfold stored_token_usable in Hu.
  destruct (initialize_ready w Hl)
    as (w0 & E & Hr & Ha & Hw & Hcl & Hs & Hui & Hat & Hte & Hid).
  pose proof Hr as (Hp & Hg & Hgi & Ht).
  unfold restoreSession, gapi_setToken, gapi_client_present, ls_getItem, Date_now. run.
  rewrite E. cbn -[findOrCreateConfigFile clearToken]. rewrite Hw, Hu.
  cbn -[findOrCreateConfigFile clearToken]. rewrite Hg.
  cbn -[findOrCreateConfigFile clearToken].
  match goal with
  | |- context [findOrCreateConfigFile ?W] => exists W
  end.
  split.
  - match goal with
    | |- context [findOrCreateConfigFile ?W] =>
        destruct (findOrCreateConfigFile W) as [[[]|e] w2]
    end; reflexivity.
  - unfold scripts_ready, token_of, quiet_of in *. cbn.
    rewrite ?Hw, ?Ha, ?Hs, ?Hui, ?Hcl, ?Hid, ?Htok. repeat split; tauto.
Qed.

(** Two seconds after a burst the one deferred write runs. *)
Lemma burst_fires writes d w :
  tracked w -> writes <> [] ->
  Forall (fun kvp => 0 <= snd kvp < 2000) writes ->
  2000 <= d ->
  exists F t,
    exec (burst writes >> advance d) w
    = with_win (fun b => set_clock (Z.max (clock b) t) b) (exec saveAllData F)
    /\ vars F = vars w /\ cloud F = cloud w
    /\ cache (adapter F) = cache_after writes (cache (adapter w))
    /\ timers (win F) = [].
Proof.
  intros Ht Hne Hall Hd.
  destruct (burst_run writes w Ht Hne Hall)
    as (w1 & E1 & Hv1 & Hc1 & Hk1 & id & due & Htm & Hst & Hdue).
  pose proof (advance_single d (id, due) w1 Htm) as E2.
  assert (is_due (clock (win w1) + d) (id, due) = true) as Hdue'.
  { unfold is_due. cbn. apply Z.leb_le. lia. }
  specialize (E2 Hdue').
  exists (with_win (fun b => set_clock (Z.max (clock b) (snd (id, due))) b)
            (with_win (set_timers []) w1)), (clock (win w1) + d).
  split; [|cbn; repeat split; assumption].
  unfold exec at 1.
  rewrite (run_seq _ _ w tt) by (unfold eval; now rewrite E1).
  unfold exec at 1. rewrite E1. cbn [snd]. rewrite E2. reflexivity.
Qed.

Lemma saveAllData_no_file w :
  truthy_str (configFileId (vars w)) = false ->
  cloud (exec saveAllData w) = cloud w.
Proof.
  intros H. unfold saveAllData, console_error. run. rewrite H. reflexivity.
Qed.

(** X9.  A creation request that is answered with an error status goes
    unnoticed: [fetch] resolves, the answer has no [id], and [connect]
    returns [true] with a token but without a backing file.  Every write
    of the session is then skipped: whatever is set, nothing is ever sent
    and no file appears. *)
Theorem rejected_creation_leaves_no_file w tok st writes d :
  scripts_will_load w ->
  consent (env (cloud w)) = Some tok ->
  outcome_at 0 w = NetOk -> matching_files w = [] -> outcome_at 1 w = NetHttp st ->
  let w' := exec connect w in
  eval connect w = Ok true
  /\ accessToken (vars w') = Some tok
  /\ configFileId (vars w') = None
  /\ drive (cloud w') = drive (cloud w)
  /\ (one_pending w -> writes <> [] ->
      Forall (fun kvp => 0 <= snd kvp < 2000) writes -> 2000 <= d ->
      cloud (exec (burst writes >> advance d) w') = cloud w').
Proof.
  intros Hl Hc H0 Hm H1 w'.
  destruct (connect_signed w tok Hl Hc)
    as (w1 & E & Hr & Htk & Hq & Hid & Hca & Hcl).
  pose proof Hr as (_ & Hg & _).
  assert (outcome_at 0 w1 = NetOk) as H0' by (unfold outcome_at; now rewrite Hcl).
  assert (matching_files w1 = []) as Hm' by (unfold matching_files; now rewrite Hcl).
  assert (outcome_at 1 w1 = NetHttp st) as H1' by (unfold outcome_at; now rewrite Hcl).
  destruct (findOrCreate_answered w1 Hg H0' Hm' ltac:(congruence))
    as (Ev & _ & _ & _ & _ & Hhttp).
  destruct (Hhttp st H1') as (Hnone & Hdr).
  pose proof (token_findOrCreateConfigFile w1) as Htf.
  pose proof (pending_findOrCreateConfigFile w1) as Hpf.
  assert (pending_of w1 = pending_of w) as Hp1.
  { unfold pending_of, quiet_of in *. injection Hq as _ _ _ Ht Hs _.
    now rewrite Ht, Hs. }
  unfold keeps, eval, exec in *.
  assert (w' = snd (findOrCreateConfigFile w1)) as Hw'.
  { unfold w', exec. rewrite E.
    destruct (findOrCreateConfigFile w1) as [[[]|e] w2]; reflexivity. }
  assert (fst (connect w) = Ok true) as Hev.
  { rewrite E. destruct (findOrCreateConfigFile w1) as [[[]|e] w2]; cbn in *;
      [reflexivity|discriminate]. }
  rewrite Hw'. split; [exact Hev|]. split; [|split; [exact Hnone|split]].
  - unfold token_of in Htf, Htk. rewrite Htk in Htf. now injection Htf.
  - rewrite Hdr, Hcl. reflexivity.
  - intros Hone Hne Hall Hd.
    assert (tracked (snd (findOrCreateConfigFile w1))) as Htr.
    { apply one_pending_tracked. apply (one_pending_keeps w); [|exact Hone].
      unfold keeps. now rewrite Hpf, Hp1. }
    destruct (burst_fires writes d _ Htr Hne Hall Hd) as (F & t & EF & Hv & Hc' & _).
    unfold exec in EF. rewrite EF. cbn [with_win cloud].
    pose proof (saveAllData_no_file F) as Hno. unfold exec in Hno.
    rewrite Hno; [exact Hc'|]. now rewrite Hv, Hnone.
Qed.

Lemma rejected_creation_leaves_no_file_witness :
  let w := with_faults [NetOk; NetHttp 403] first_visit in
  eval connect w = Ok true
  /\ configFileId (vars (exec connect w)) = None
  /\ cloud (exec (burst [("focusnook-settings", VNum 1, 0)] >> advance 2000)
              (exec connect w))
     = cloud (exec connect w).
Proof.
  intros w.
  destruct (rejected_creation_leaves_no_file w "ya29.demo" 403
              [("focusnook-settings", VNum 1, 0)] 2000
              ltac:(right; vm_compute; repeat split)
              ltac:(reflexivity) ltac:(reflexivity) ltac:(reflexivity)
              ltac:(reflexivity))
    as (H1 & _ & H3 & _ & H5).
  split; [exact H1|]. split; [exact H3|].
  apply H5; [left; reflexivity|discriminate|repeat constructor; cbn; lia|lia].
Defined.

(** ** Silent restore *)

(** [restoreSession] when everything it needs is there. *)
Lemma restoreSession_succeeds w tok :
  scripts_will_load w ->
  localStorage (win w) !! "gdrive_token" = Some tok ->
  stored_token_usable w = true ->
  outcome_at 0 w = NetOk ->
  matching_files w <> [] \/ outcome_at 1 w <> NetDown ->
  let w' := exec restoreSession w in
  eval restoreSession w = Ok true
  /\ accessToken (vars w') = Some tok
  /\ gapiToken (win w') = Some tok
  /\ localStorage (win w') = localStorage (win w)
  /\ alerts (win w') = alerts (win w)
  /\ quiet_of w' = quiet_of w
  /\ (forall f fs, matching_files w = f :: fs ->
        configFileId (vars w') = Some (file_id f)
        /\ drive (cloud w') = drive (cloud w)).
Proof.
  intros Hl Htok Hu H0 Hnet w'.
  destruct (restoreSession_usable w tok Hl Htok Hu)
    as (w1 & E & Hr & Htk & Hq & Hid & Hca & Hcl).
  pose proof Hr as (_ & Hg & _).
  assert (outcome_at 0 w1 = NetOk) as H0' by (unfold outcome_at; now rewrite Hcl).
  assert (matching_files w1 = matching_files w) as Hm'
    by (unfold matching_files; now rewrite Hcl).
  assert (outcome_at 1 w1 = outcome_at 1 w) as H1'
    by (unfold outcome_at; now rewrite Hcl).
  pose proof (token_findOrCreateConfigFile w1) as Htf.
  pose proof (quiet_findOrCreateConfigFile w1) as Hqf.
  assert (eval findOrCreateConfigFile w1 = Ok tt) as Hev.
  { destruct (matching_files w) as [|f fs] eqn:Hm.
    - destruct Hnet as [Hnet|Hnet]; [congruence|].
      apply (findOrCreate_answered w1 Hg H0' Hm'). now rewrite H1'.
    - apply (findOrCreate_first_match w1 f fs Hg Hm' H0'). }
  unfold keeps, eval, exec in *.
  assert (restoreSession w = (Ok true, snd (findOrCreateConfigFile w1))) as Hrun.
  { rewrite E. destruct (findOrCreateConfigFile w1) as [[[]|e] w2]; cbn in *;
      [reflexivity|discriminate]. }
  unfold w', exec. rewrite Hrun. cbn [fst snd].
  unfold token_of in Htf, Htk. rewrite Htk in Htf. injection Htf as Hat _ Hgt Hls Hal.
  split; [reflexivity|]. split; [exact Hat|]. split; [exact Hgt|].
  split; [exact Hls|]. split; [exact Hal|]. split; [congruence|].
  intros f fs Hm. rewrite Hm in Hm'.
  destruct (findOrCreate_first_match w1 f fs Hg Hm' H0') as (_ & Hi & Hd).
  unfold exec in *. split; [exact Hi|]. now rewrite Hd, Hcl.
Qed.

(** X10.  [restoreSession] succeeds without any dialog when the client
    libraries load, the stored token passes the expiry test, the search
    request is answered, and either a file matches or the creation request
    completes.  It then holds the stored token in memory and in the gapi
    client, has the first match as backing file, leaves local storage as
    it was and shows no alert. *)
Theorem silent_restore_succeeds w tok :
  scripts_will_load w ->
  localStorage (win w) !! "gdrive_token" = Some tok ->
  stored_token_usable w = true ->
  outcome_at 0 w = NetOk ->
  matching_files w <> [] \/ outcome_at 1 w <> NetDown ->
  let w' := exec restoreSession w in
  eval restoreSession w = Ok true
  /\ accessToken (vars w') = Some tok
  /\ gapiToken (win w') = Some tok
  /\ localStorage (win w') = localStorage (win w)
  /\ alerts (win w') = alerts (win w)
  /\ quiet_of w' = quiet_of w
  /\ (forall f fs, matching_files w = f :: fs ->
        configFileId (vars w') = Some (file_id f)
        /\ drive (cloud w') = drive (cloud w)).
Proof. apply restoreSession_succeeds. Qed.


Lemma silent_restore_succeeds_witness :
  eval restoreSession (returning_visit true 1700000003000 []) = Ok true.
Proof.
  apply (silent_restore_succeeds (returning_visit true 1700000003000 []) "ya29.demo").
  - right. vm_compute. repeat split.
  - vm_compute. reflexivity.
  - vm_compute. reflexivity.
  - reflexivity.
  - right. vm_compute. discriminate.
Defined.

(** ** A write reaches the file and comes back after a reload *)

Lemma put_body_matching id body fs :
  List.filter matches_query (put_body id body fs)
  = put_body id body (List.filter matches_query fs).
Proof.
  unfold put_body. induction fs as [|f fs IH]; cbn [map List.filter]; [reflexivity|].
  assert (matches_query
            (if String.eqb (file_id f) id
             then {| file_id := file_id f; file_name := file_name f;
                     file_trashed := file_trashed f; file_body := body |}
             else f) = matches_query f) as ->.
  { destruct (String.eqb (file_id f) id); reflexivity. }
  destruct (matches_query f); cbn [map]; now rewrite IH.
Qed.

Lemma put_body_find id body fs f :
  find_file id fs = Some f ->
  find_file id (put_body id body fs)
  = Some {| file_id := file_id f; file_name := file_name f;
            file_trashed := file_trashed f; file_body := body |}.
Proof.
  unfold find_file. induction fs as [|g fs IH]; cbn; [discriminate|].
  destruct (String.eqb (file_id g) id) eqn:E; cbn.
  - rewrite E. intros [= ->]. reflexivity.
  - rewrite E. exact IH.
Qed.

(** A deferred write that reaches the file. *)
Lemma saveAllData_written w fid f :
  configFileId (vars w) = Some fid -> fid <> "" ->
  outcome_at 0 w = NetOk ->
  find_file fid (drive (cloud w)) = Some f ->
  cloud (exec saveAllData w)
  = set_drive (put_body fid (jsonify_doc (cache (adapter w))) (drive (cloud w)))
      (set_net (tail (net (cloud w)))
         (push_request (ReqPatch fid (jsonify_doc (cache (adapter w)))) (cloud w))).
Proof.
  intros Hid Hfid H0 Hf.
  assert (truthy_str (Some fid) = true) as Htr.
  { cbn. destruct fid; [congruence|reflexivity]. }
  unfold saveAllData, fetch_patch, console_error. run.
  rewrite Hid, Htr. cbn -[send find_file]. rewrite send_at, H0.
  cbn -[find_file]. rewrite Hf. reflexivity.
Qed.

(** One write and the quiet period after it. *)
Lemma setItem_then_wait k v d w :
  tracked w -> 2000 <= d ->
  exists F,
    exec (setItem k v >> advance d) w
    = with_win (fun b => set_clock (Z.max (clock b) (clock (win w) + d)) b)
        (exec saveAllData F)
    /\ vars F = vars w /\ cloud F = cloud w
    /\ cache (adapter F) = <[k := v]> (cache (adapter w))
    /\ storage F = storage w /\ ui F = ui w
    /\ localStorage (win F) = localStorage (win w)
    /\ timers (win F) = []
    /\ clock (win F) = clock (win w) + 2000.
Proof.
  intros Ht Hd.
  pose proof (setItem_tracked k v w Ht) as E1.
  set (w1 := {| vars := vars w;
                adapter := {| cache := <[k := v]> (cache (adapter w));
                              saveTimeout := Some (next_timer (win w)) |};
                win := set_next_timer (Pos.succ (next_timer (win w)))
                         (set_timers [(next_timer (win w), clock (win w) + 2000)] (win w));
                cloud := cloud w; storage := storage w; ui := ui w |}) in *.
  pose proof (advance_single d (next_timer (win w), clock (win w) + 2000) w1 eq_refl)
    as E2.
  assert (is_due (clock (win w1) + d) (next_timer (win w), clock (win w) + 2000) = true)
    as Hdue.
  { unfold is_due. cbn. apply Z.leb_le. lia. }
  specialize (E2 Hdue).
  exists (with_win (fun b => set_clock (Z.max (clock b) (clock (win w) + 2000)) b)
            (with_win (set_timers []) w1)).
  split; [|cbn; repeat split; lia].
  unfold exec at 1.
  rewrite (run_seq _ _ w tt) by (unfold eval; now rewrite E1).
  unfold exec at 1. rewrite E1. cbn [snd]. rewrite E2. reflexivity.
Qed.

(** One write, the quiet period, a reload and the silent restore: the
    cache of the new page is the document the old page flushed. *)
Lemma flush_reload_restore ds dm k v d w fid f fs tok e t :
  tracked w ->
  configFileId (vars w) = Some fid -> fid <> "" ->
  matching_files w = f :: fs -> file_id f = fid ->
  find_file fid (drive (cloud w)) = Some f ->
  net (cloud w) = [] ->
  preloaded (env (cloud w)) = false ->
  gapi_loads (env (cloud w)) = true -> gis_loads (env (cloud w)) = true ->
  localStorage (win w) !! "gdrive_token" = Some tok -> tok <> "" ->
  localStorage (win w) !! "gdrive_expiry" = Some e -> e <> "" ->
  Number e = Some t -> clock (win w) + d < t ->
  2000 <= d ->
  let w1 := exec (setItem k v >> advance d) w in
  let body := jsonify_doc (<[k := v]> (cache (adapter w))) in
  (exists f', find_file fid (drive (cloud w1)) = Some f' /\ file_body f' = body)
  /\ exists w4,
       restoreSession (reload ds dm w1) = (Ok true, w4)
       /\ cache (adapter w4) = body
       /\ configFileId (vars w4) = Some fid
       /\ accessToken (vars w4) = Some tok
       /\ storage w4 = storage (reload ds dm w1)
       /\ ui w4 = ui (reload ds dm w1)
       /\ localStorage (win w4) = localStorage (win w)
       /\ localStorage (win (reload ds dm w1)) = localStorage (win w)
       /\ scripts_will_load (reload ds dm w1).
Proof.
  intros Ht Hid Hfid Hm Hf Hfind Hnet Hpre Hga Hgi Htok Htokne He Hene Hn Hexp
    Hd w1 body0. subst fid.
  destruct (setItem_then_wait k v d w Ht Hd)
    as (F & EF & HvF & HcF & HkF & HsF & HuF & HlF & HtF & HclF).
  assert (outcome_at 0 F = NetOk) as H0F.
  { unfold outcome_at. now rewrite HcF, Hnet. }
  pose proof (saveAllData_written F (file_id f) f) as Hw.
  rewrite HvF, HcF in Hw. specialize (Hw Hid Hfid H0F Hfind).
  destruct (saveAllData_run F) as (F' & EF' & HvF' & _ & HsF' & _ & HlF' & HkF' & _).
  unfold exec in Hw. rewrite EF' in Hw. cbn [snd] in Hw.
  set (body := jsonify_doc (cache (adapter F))) in *.
  assert (body = body0) as Hbody by (unfold body, body0; now rewrite HkF).
  set (f' := {| file_id := file_id f; file_name := file_name f;
                file_trashed := file_trashed f; file_body := body |}).
  assert (w1 = with_win (fun b => set_clock (Z.max (clock b) (clock (win w) + d)) b) F')
    as Hw1.
  { unfold w1. rewrite EF. unfold exec. now rewrite EF'. }
  assert (find_file (file_id f) (drive (cloud w1)) = Some f') as Hfind1.
  { rewrite Hw1. cbn [with_win cloud]. rewrite Hw. cbn [drive set_drive].
    now apply put_body_find. }
  split; [exists f'; split; [exact Hfind1|exact Hbody]|].
  set (w2 := reload ds dm w1).
  assert (localStorage (win w2) = localStorage (win w)) as Hl2.
  { unfold w2, reload, page_load. rewrite Hw1. cbn. now rewrite HlF', HlF. }
  assert (clock (win w2) = clock (win w) + d) as Hk2.
  { unfold w2, reload, page_load. rewrite Hw1. cbn. rewrite HkF', HclF. lia. }
  assert (cloud w2 = cloud F') as Hc2.
  { unfold w2, reload, page_load. rewrite Hw1. reflexivity. }
  assert (scripts_will_load w2) as Hl.
  { right. rewrite Hc2, Hw. cbn. rewrite Hpre, Hga, Hgi. repeat split. }
  assert (stored_token_usable w2 = true) as Hu.
  { unfold stored_token_usable. rewrite Hl2, Hk2, Htok, He.
    cbn [default truthy_str Datatypes.id].
    rewrite Hn. cbn [num_gt].
    destruct tok; [congruence|]. destruct e; [congruence|]. cbn.
    apply Z.ltb_lt. lia. }
  assert (localStorage (win w2) !! "gdrive_token" = Some tok) as Htok2
    by now rewrite Hl2.
  destruct (restoreSession_usable w2 tok Hl Htok2 Hu)
    as (w3 & E3 & Hr3 & Htk3 & Hq3 & Hid3 & Hca3 & Hcl3).
  pose proof Hr3 as (_ & Hg3 & _).
  assert (net (cloud w3) = []) as Hn3.
  { rewrite Hcl3, Hc2, Hw. cbn. now rewrite Hnet. }
  assert (outcome_at 0 w3 = NetOk) as H03 by (unfold outcome_at; now rewrite Hn3).
  assert (outcome_at 1 w3 = NetOk) as H13 by (unfold outcome_at; now rewrite Hn3).
  assert (matching_files w3 = f' :: put_body (file_id f) body fs) as Hm3.
  { unfold matching_files in *. rewrite Hcl3, Hc2, Hw. cbn [drive set_drive].
    rewrite put_body_matching, Hm. unfold put_body. cbn [map].
    rewrite String.eqb_refl. reflexivity. }
  assert (find_file (file_id f') (drive (cloud w3)) = Some f') as Hf3.
  { rewrite Hcl3, Hc2, Hw. cbn [drive set_drive file_id f'].
    now apply put_body_find. }
  destruct (findOrCreate_found w3 f' (put_body (file_id f) body fs) Hg3 H03 Hm3
              ltac:(cbn; congruence))
    as (w4 & E4 & Hv4 & _ & _ & _ & _ & Hs4 & Hu4 & Hl4 & _ & _ & _ & _ & _ & Hcache).
  specialize (Hcache H13 f' Hf3). cbn [file_body f'] in Hcache.
  assert (restoreSession w2 = (Ok true, w4)) as Hrun.
  { rewrite E3, E4. reflexivity. }
  unfold quiet_of, token_of in *.
  injection Hq3 as Hqs Hqu _ _ _ _. injection Htk3 as Hat _ _ Hls _.
  exists w4. split; [exact Hrun|]. split; [now rewrite Hcache|].
  split; [now rewrite Hv4|]. split; [now rewrite Hv4|].
  split; [now rewrite Hs4|]. split; [now rewrite Hu4|].
  split; [now rewrite Hl4, Hls|]. split; [exact Hl2|exact Hl].
Qed.

(** X11.  A value written on the remote adapter survives a reload.  On a
    connected page whose backing file is the first match of the search,
    with the network up, [setItem k v] followed by the quiet period puts
    [v] into the file; after a reload, while the stored token has not
    expired, [restoreSession] followed by [getItem k] returns [v], for
    every JSON-serializable [v] that is not falsy. *)
Theorem remote_write_survives_reload ds dm k v d w fid f fs tok e t :
  tracked w ->
  configFileId (vars w) = Some fid -> fid <> "" ->
  matching_files w = f :: fs -> file_id f = fid ->
  find_file fid (drive (cloud w)) = Some f ->
  net (cloud w) = [] ->
  preloaded (env (cloud w)) = false ->
  gapi_loads (env (cloud w)) = true -> gis_loads (env (cloud w)) = true ->
  localStorage (win w) !! "gdrive_token" = Some tok -> tok <> "" ->
  localStorage (win w) !! "gdrive_expiry" = Some e -> e <> "" ->
  Number e = Some t -> clock (win w) + d < t ->
  truthy v = true -> json_serializable v = true ->
  2000 <= d ->
  let w1 := exec (setItem k v >> advance d) w in
  (exists f', find_file fid (drive (cloud w1)) = Some f' /\ file_body f' !! k = Some v)
  /\ eval (restoreSession >> getItem k) (reload ds dm w1) = Ok v.
Proof.
  intros Ht Hid Hfid Hm Hf Hfind Hnet Hpre Hga Hgi Htok Htokne He Hene Hn Hexp
    Hv Hser Hd w1.
  destruct (flush_reload_restore ds dm k v d w fid f fs tok e t Ht Hid Hfid Hm Hf
              Hfind Hnet Hpre Hga Hgi Htok Htokne He Hene Hn Hexp Hd)
    as ((f' & Hfind1 & Hbody) & w4 & Hrun & Hcache & Hid4 & _).
  fold w1 in Hfind1, Hrun.
  assert (jsonify_doc (<[k := v]> (cache (adapter w))) !! k = Some v) as Hbk.
  { apply jsonify_doc_lookup; [|exact Hser]. apply lookup_insert_eq. }
  split; [exists f'; split; [exact Hfind1|now rewrite Hbody]|].
  unfold eval. rewrite (run_seq _ _ _ true) by (unfold eval; now rewrite Hrun).
  unfold exec. rewrite Hrun. cbn [snd].
  rewrite (getItem_cached k v w4).
  - cbn. unfold js_or. now rewrite Hv.
  - rewrite Hid4. cbn. destruct fid; [congruence|]. cbn. now rewrite orb_true_r.
  - now rewrite Hcache.
Qed.


Lemma remote_write_survives_reload_witness :
  eval (restoreSession >> getItem "focusnook-settings")
    (reload [] [] (exec (setItem "focusnook-settings" (VNum 5) >> advance 2000) signed_in))
  = Ok (VNum 5).
Proof.
  apply (remote_write_survives_reload [] [] "focusnook-settings" (VNum 5) 2000 signed_in
           "file-0" (new_config_file (exec initialize first_visit)) [] "ya29.demo"
           "1700003550000" 1700003550000);
    try (vm_compute; reflexivity); try discriminate.
  intros tm. vm_compute. intros [].
Defined.

(** ** The bulk load, call by call *)

Lemma write_back_spec s :
  isLoading s = false -> writes_of all_pieces s = write_back s.
Proof.
  intros H. unfold writes_of, write_back. rewrite H. cbn.
  destruct (truthy (currentSpace s)), (truthy (prop "customStreams" (musicState s)));
    reflexivity.
Qed.

Lemma keeps_try_catch_handler {A C} (f : world -> C) (m : M A) (h : js_error -> M A) w :
  (forall e, preserves (keeps f) (h e)) ->
  f (exec (try_catch m h) w) = f (exec m w).
Proof.
  intros Hh. unfold exec, try_catch.
  destruct (m w) as [[a|e] w']; cbn; [reflexivity|]. apply (Hh e w').
Qed.

Lemma exec_bind_total {A B} (m : M A) (k : A -> M B) w :
  total m -> exists a, eval m w = Ok a /\ exec (bind m k) w = exec (k a) (exec m w).
Proof.
  intros Hm. destruct (Hm w) as [a Ha]. exists a. split; [exact Ha|].
  unfold exec, eval, bind in *. destruct (m w) as [[a'|e] w']; cbn in *; congruence.
Qed.

Lemma calls_of_page_side {A} (m : M A) :
  preserves (keeps page_side) m -> preserves (keeps calls_of) m.
Proof.
  apply preserves_weaken. unfold keeps, page_side, calls_of. intros w w' H.
  injection H as _ Hs _. now rewrite Hs.
Qed.

Lemma storage_get_calls k w :
  calls_of (exec (storage_get k) w) = (calls_of w ++ [CallGet k])%list.
Proof.
  unfold storage_get.
  destruct (exec_bind_total (modify (with_storage (push_call (CallGet k))))
              (fun _ => let* a := get (fun w => active (storage w)) in
                        match a with
                        | LocalStorageAdapter => local_getItem k
                        | GoogleDriveAdapter => getItem k
                        end) w ltac:(apply total_modify)) as ([] & _ & ->).
  set (w1 := exec (modify (with_storage (push_call (CallGet k)))) w).
  assert (calls_of w1 = (calls_of w ++ [CallGet k])%list) as <- by reflexivity.
  generalize w1. clear.
  change (preserves (keeps calls_of)
            (let* a := get (fun w => active (storage w)) in
             match a with
             | LocalStorageAdapter => local_getItem k
             | GoogleDriveAdapter => getItem k
             end)).
  pose proof (calls_of_page_side _ (page_side_getItem k)).
  unfold local_getItem. keeping.
Qed.

Lemma calls_of_loadGoogleScripts : preserves (keeps calls_of) loadGoogleScripts.
Proof. apply calls_of_page_side, page_side_loadGoogleScripts. Qed.

Lemma calls_of_find_by_id v xs : preserves (keeps calls_of) (find_by_id v xs).
Proof. induction xs as [|x xs IH]; cbn; unfold member; keeping. Qed.

(** The bulk load, in full: outcome, flags, adapter and facade traffic. *)
Lemma loadData_run ds dm w :
  let w' := exec (loadData ds dm) w in
  eval (loadData ds dm) w = Ok tt
  /\ isLoading (ui w') = false
  /\ needsDriveAuth (ui w') = needsDriveAuth (ui w)
  /\ active_of w' = active_of w
  /\ calls_since w w' = (map CallGet load_keys ++ write_back (ui w'))%list.
Proof.
  intros w'.
  destruct (total_loadData ds dm w) as ([] & Hev).
  split; [exact Hev|].
  pose proof (active_of_loadData ds dm w) as Hact.
  assert (exists w2,
             w' = exec (commit all_pieces) w2
             /\ isLoading (ui w2) = false
             /\ needsDriveAuth (ui w2) = needsDriveAuth (ui w)
             /\ calls_of w2 = (calls_of w ++ map CallGet load_keys)%list) as Hmid.
  { unfold w', loadData.
    match goal with
    | |- context [exec (bind (modify (with_ui (set_isLoading true))) ?K) w] =>
        destruct (exec_bind_total (modify (with_ui (set_isLoading true))) K w
                    ltac:(apply total_modify)) as ([] & _ & ->)
    end.
    set (w0 := exec (modify (with_ui (set_isLoading true))) w).
    assert (calls_of w0 = calls_of w) as Hc0 by reflexivity.
    assert (needsDriveAuth (ui w0) = needsDriveAuth (ui w)) as Hn0 by reflexivity.
    clearbody w0.
    match goal with
    | |- context [exec (bind (try_catch ?T ?h) ?K) w0] =>
        destruct (exec_bind_total (try_catch T h) K w0) as ([] & _ & ->);
          [totality; auto with totals|];
        set (wT := exec (try_catch T h) w0);
        assert (calls_of wT = (calls_of w0 ++ map CallGet load_keys)%list
                /\ needsDriveAuth (ui wT) = needsDriveAuth (ui w0)) as [HcT HnT]
    end.
    { subst wT. split.
      - rewrite keeps_try_catch_handler by (intros ?; keeping).
        match goal with
        | |- context [exec (bind (try_catch loadGoogleScripts ?h) ?K) w0] =>
            destruct (exec_bind_total (try_catch loadGoogleScripts h) K w0
                        total_load_scripts) as ([] & _ & ->)
        end.
        set (w1 := exec (try_catch loadGoogleScripts _) w0).
        assert (calls_of w1 = calls_of w0) as <-.
        { subst w1. pose proof calls_of_loadGoogleScripts.
          apply (keeps_at calls_of). keeping. }
        clearbody w1. clear.
        repeat match goal with
               | |- context [exec (bind (storage_get ?k) ?K) ?W] =>
                   let a := fresh "a" in
                   destruct (exec_bind_total (storage_get k) K W
                               (total_storage_get k)) as (a & _ & ->);
                   let W' := fresh "w" in
                   let HW := fresh "Hw" in
                   pose proof (storage_get_calls k W) as HW;
                   set (W' := exec (storage_get k) W) in *; clearbody W'
               end.
        match goal with
        | |- calls_of (exec ?m ?W) = _ =>
            assert (preserves (keeps calls_of) m) as Hrest
        end.
        { pose proof calls_of_find_by_id. unfold spread. keeping. }
        rewrite (Hrest _). cbn [map load_keys app].
        repeat match goal with H : calls_of _ = _ |- _ => rewrite H; clear H end.
        rewrite <- !app_assoc. reflexivity.
      - apply (keeps_at (fun w => needsDriveAuth (ui w))).
        assert (forall k, preserves (keeps (fun w => needsDriveAuth (ui w)))
                            (storage_get k)) as Hg.
        { intros k. eapply preserves_weaken; [|apply ui_storage_get].
          unfold keeps. intros ? ? H. now rewrite H. }
        assert (forall v xs, preserves (keeps (fun w => needsDriveAuth (ui w)))
                               (find_by_id v xs)) as Hf.
        { intros v xs. induction xs as [|x xs IH]; cbn; unfold member; keeping. }
        assert (preserves (keeps (fun w => needsDriveAuth (ui w))) loadGoogleScripts)
          as Hs.
        { eapply preserves_weaken; [|apply ui_loadGoogleScripts].
          unfold keeps. intros ? ? H. now rewrite H. }
        unfold spread. keeping. }
    clearbody wT.
    destruct (exec_bind_total (modify (with_ui (set_isLoading false)))
                (fun _ => commit all_pieces) wT ltac:(apply total_modify))
      as ([] & _ & ->).
    eexists. split; [reflexivity|]. cbn. split; [reflexivity|]. split; [congruence|].
    unfold calls_of in *. cbn. now rewrite <- Hc0. }
  unfold keeps in Hact. fold w' in Hact.
  destruct Hmid as (w2 & Hw' & Hl2 & Hn2 & Hc2).
  destruct (commit_run all_pieces w2) as (w3 & E3 & U3 & _ & _ & _ & C3).
  unfold exec in Hw'. rewrite E3 in Hw'. cbn [snd] in Hw'. rewrite Hw' in *.
  rewrite U3.
  split; [exact Hl2|]. split; [exact Hn2|]. split; [exact Hact|].
  - unfold calls_since. rewrite C3. unfold calls_of in Hc2. rewrite Hc2.
    rewrite <- app_assoc, drop_app_length, (write_back_spec _ Hl2). reflexivity.
Qed.

(** X12.  The bulk load never throws and always ends with [isLoading]
    false.  What it asks of the facade is fixed: the eight reads, in the
    order of the source, and then, because the end of the load triggers
    every save effect at once, the write-back of the whole shell state,
    defaults included.  Nothing else is read or written and the adapter is
    left as it is. *)
Theorem loadData_reads_then_writes_back ds dm w :
  let w' := exec (loadData ds dm) w in
  eval (loadData ds dm) w = Ok tt
  /\ isLoading (ui w') = false
  /\ needsDriveAuth (ui w') = needsDriveAuth (ui w)
  /\ active_of w' = active_of w
  /\ calls_since w w' = (map CallGet load_keys ++ write_back (ui w'))%list.
Proof. apply loadData_run. Qed.


(** ** The boot effect always leaves the loading screen *)

Lemma usable_of_token_store w w' :
  token_store_of w' = token_store_of w ->
  stored_token_usable w' = stored_token_usable w.
Proof.
  unfold token_store_of, stored_token_usable. intros E. injection E as -> ->.
  reflexivity.
Qed.

Lemma initialize_again w :
  eval initialize w = Ok tt -> eval initialize (exec initialize w) = Ok tt.
Proof.
  intros H. unfold initialize in *.
  destruct (loadGoogleScripts_settles w) as (p & Hp & He). rewrite H in He.
  destruct p; [|discriminate].
  unfold eval. now rewrite (loadGoogleScripts_settled _ _ Hp).
Qed.

Lemma token_store_commit changed : preserves (keeps token_store_of) (commit changed).
Proof.
  assert (forall k v, preserves (keeps token_store_of) (storage_set k v)) as Hset.
  { intros k v. unfold storage_set, local_setItem, setItem, setTimeout.
    keeping. }
  unfold commit, save_effects, run_effects, save_enabledWidgets, save_widgetVisibility,
    save_currentSpace, save_settings, save_todoistConfig, save_musicState,
    save_customSpaces.
  keeping.
Qed.

(** When [restoreSession] says no, the stored token is not usable
    afterwards: it was unusable, or it has been cleared. *)
Lemma restoreSession_false_unusable w :
  eval initialize w = Ok tt ->
  eval restoreSession w = Ok false ->
  stored_token_usable (exec restoreSession w) = false.
Proof.
  intros Hi Hr.
  pose proof (quiet_restoreSession w) as Hq. unfold keeps, quiet_of in Hq.
  injection Hq as _ _ Hck _ _ _.
  destruct (stored_token_usable w) eqn:Hu.
  - destruct (restoreSession_api_failure w Hi Hu Hr) as (_ & _ & Ht & _).
    unfold stored_token_usable. now rewrite Ht.
  - destruct (restoreSession_unusable w Hu) as (_ & Hls & _).
    rewrite <- Hu. apply usable_of_token_store. unfold token_store_of.
    now rewrite Hls, Hck.
Qed.

Lemma start_with_ends ds dm st w :
  let w' := exec (start_with ds dm st) w in
  isLoading (ui w') = false
  /\ (needsDriveAuth (ui w) = false -> needsDriveAuth (ui w') = true ->
      st = Some "gdrive"
      /\ stored_token_usable w' = false
      /\ active_of w' = active_of w
      /\ Forall is_CallSet (calls_since w w')).
Proof.
  intros w'. remember w' as wf eqn:Ewf. subst w'.
  unfold start_with in Ewf.
  destruct (bool_decide (st = Some "gdrive")) eqn:Hst.
  - apply bool_decide_eq_true_1 in Hst.
    pose proof (preference_side_initialize w) as Hi.
    unfold exec, try_catch, bind at 1 in Ewf.
    destruct (initialize w) as [[[]|e] w1] eqn:Ei; unfold keeps, exec in Hi;
      rewrite ?Ei in Hi; cbn [snd] in Hi; injection Hi as _ Hs1 Hu1.
    + pose proof (preference_side_restoreSession w1) as Hr.
      destruct (total_restoreSession w1) as (b & Tb).
      assert (eval initialize w1 = Ok tt) as Hi1.
      { pose proof (initialize_again w) as H. unfold eval, exec in H.
        rewrite Ei in H. now apply H. }
      pose proof (restoreSession_false_unusable w1 Hi1) as Hfalse.
      unfold bind at 1 in Ewf. unfold keeps, exec, eval in *.
      destruct (restoreSession w1) as [[b'|] w2]; cbn [fst snd] in *; [|discriminate].
      injection Hr as _ Hs2 Hu2. destruct b'.
      * unfold bind at 1 in Ewf. cbn [storage_setAdapter modify] in Ewf.
        match type of Ewf with
        | context [loadData ds dm ?W] =>
            destruct (loadData_run ds dm W) as (Hev & Hl & Hn & _);
              unfold exec, eval in Hev, Hl, Hn;
              destruct (loadData ds dm W) as [[[]|] w4]; [|discriminate]
        end.
        cbn [fst snd] in *. subst wf. split; [exact Hl|].
        intros H0 H1. rewrite Hn in H1. cbn in H1. congruence.
      * unfold bind, modify in Ewf. cbn [fst snd] in Ewf.
        match type of Ewf with
        | context [commit [IsLoading] ?W] =>
            pose proof (token_store_commit [IsLoading] W) as Hts;
            destruct (commit_run [IsLoading] W) as (w3 & E3 & U3 & A3 & _ & _ & C3)
        end.
        unfold keeps, exec in Hts. rewrite E3 in *. cbn [snd] in *. subst wf.
        rewrite U3. cbn. split; [reflexivity|]. intros _ _.
        split; [exact Hst|]. split; [|split].
        -- rewrite (usable_of_token_store _ _ Hts). now apply Hfalse.
        -- unfold active_of. rewrite A3. cbn. now rewrite Hs2, Hs1.
        -- unfold calls_since. rewrite C3. cbn [with_ui storage ui].
           rewrite Hs2, Hs1, drop_app_length. apply writes_of_CallSet.
    + unfold bind at 1, console_error, modify in Ewf. cbn [fst snd] in Ewf.
      unfold bind at 1 in Ewf. cbn [storage_setAdapter modify] in Ewf.
      match type of Ewf with
      | context [loadData ds dm ?W] =>
          destruct (loadData_run ds dm W) as (Hev & Hl & Hn & _);
            unfold exec, eval in Hev, Hl, Hn;
            destruct (loadData ds dm W) as [[[]|] w4]; [|discriminate]
      end.
      cbn [fst snd] in *. subst wf. split; [exact Hl|].
      intros H0 H1. rewrite Hn in H1. cbn in H1. congruence.
  - destruct (loadData_run ds dm w) as (_ & Hl & Hn & _). subst wf.
    split; [exact Hl|]. intros H0 H1. congruence.
Qed.

(** The boot effect, in short. *)
Lemma init_ends ds dm w :
  let w' := exec (init ds dm) w in
  eval (init ds dm) w = Ok tt
  /\ isLoading (ui w') = false
  /\ (needsDriveAuth (ui w) = false -> needsDriveAuth (ui w') = true ->
      pref_of w' = Some "gdrive"
      /\ stored_token_usable w' = false
      /\ active_of w' = active_of w
      /\ Forall is_CallSet (calls_since w w')).
Proof.
  intros w'. subst w'.
  split. { destruct (total_init ds dm w) as ([] & T). exact T. }
  unfold exec. rewrite init_run.
  destruct (truthy_str (pref_of w)) eqn:Hrec; [|destruct (stored_token_usable w) eqn:Hu].
  - destruct (start_with_ends ds dm (pref_of w) w) as (Hl & Hre).
    pose proof (pref_of_start_with ds dm (pref_of w) w) as Hp.
    unfold keeps, exec in *. split; [exact Hl|]. intros H0 H1.
    destruct (Hre H0 H1) as (Hst & Hun & Ha & Hc). rewrite Hp. now repeat split.
  - set (w1 := with_win (fun b =>
                 set_localStorage
                   (<["focusnook-storage-type" := "gdrive"]> (localStorage b)) b) w).
    destruct (start_with_ends ds dm (Some "gdrive") w1) as (Hl & Hre).
    pose proof (pref_of_start_with ds dm (Some "gdrive") w1) as Hp.
    unfold keeps, exec in *. split; [exact Hl|]. intros H0 H1.
    destruct (Hre H0 H1) as (_ & Hun & Ha & Hc). rewrite Hp.
    split; [unfold pref_of, w1; cbn; apply lookup_insert_eq|]. now repeat split.
  - destruct (start_with_ends ds dm (pref_of w) w) as (Hl & Hre).
    unfold exec in *. split; [exact Hl|]. intros H0 H1.
    destruct (Hre H0 H1) as (Hst & _). rewrite Hst in Hrec. discriminate.
Qed.

(** X13.  The boot effect never throws and never leaves the page on the
    loading screen: when it is over [isLoading] is false.  It ends on the
    reconnect screen only on the remote path, with ['gdrive'] as recorded
    preference and with no usable token left in local storage; in that
    case no adapter has been activated and nothing has been read. *)
Theorem boot_leaves_the_loading_screen ds dm w :
  let w' := exec (init ds dm) w in
  eval (init ds dm) w = Ok tt
  /\ isLoading (ui w') = false
  /\ (needsDriveAuth (ui w) = false -> needsDriveAuth (ui w') = true ->
      pref_of w' = Some "gdrive"
      /\ stored_token_usable w' = false
      /\ active_of w' = active_of w
      /\ Forall is_CallSet (calls_since w w')).
Proof. apply init_ends. Qed.


Lemma boot_leaves_the_loading_screen_witness :
  let w := returning_visit true 1699999999999 [] in
  isLoading (ui (exec (init [] []) w)) = false
  /\ stored_token_usable (exec (init [] []) w) = false.
Proof.
  intros w.
  destruct (boot_leaves_the_loading_screen [] [] w) as (_ & Hl & Hre).
  split; [exact Hl|].
  apply Hre; vm_compute; reflexivity.
Defined.

(** ** Switching backends *)



Lemma commit_nothing w : commit [] w = (Ok tt, w).
Proof. reflexivity. Qed.

Lemma continueWithLocalStorage_run w :
  continueWithLocalStorage w =
  (Ok tt,
   with_ui (set_needsDriveAuth false)
     (with_win (fun b => set_localStorage (delete "focusnook-storage-type" (localStorage b)) b)
        (with_storage (fun s => push_call (CallSetAdapter LocalStorageAdapter)
                                  (set_active LocalStorageAdapter s)) w))).
Proof. reflexivity. Qed.

(** A stored token that is not usable now is not usable later. *)
Lemma unusable_later w w' :
  localStorage (win w') !! "gdrive_token" = localStorage (win w) !! "gdrive_token" ->
  localStorage (win w') !! "gdrive_expiry" = localStorage (win w) !! "gdrive_expiry" ->
  clock (win w) <= clock (win w') ->
  stored_token_usable w = false -> stored_token_usable w' = false.
Proof.
  unfold stored_token_usable. intros -> -> Hck H.
  destruct (truthy_str (localStorage (win w) !! "gdrive_token")); [|reflexivity].
  destruct (truthy_str (localStorage (win w) !! "gdrive_expiry")); [|reflexivity].
  cbn in *. destruct (Number _) as [t|]; [|reflexivity]. cbn in *.
  apply Z.ltb_ge in H. apply Z.ltb_ge. lia.
Qed.

(** The boot effect on a page with no recorded preference and no usable
    token: the data is loaded from the adapter the page starts with. *)
Lemma init_local ds dm w :
  pref_of w = None -> stored_token_usable w = false ->
  init ds dm w = loadData ds dm w.
Proof.
  intros Hp Hu. rewrite init_run, Hp, Hu. cbn [truthy_str]. unfold start_with.
  rewrite bool_decide_eq_false_2 by discriminate. reflexivity.
Qed.

(** X14.  The reconnect screen's "Continue with Local Storage" is
    lasting.  The click switches the facade to the local adapter, forgets
    the recorded preference and leaves the screen, reading nothing.  As the
    boot effect reaches the reconnect screen only when no usable token is
    left, the recovery rule cannot bring the remote adapter back: the next
    visit, however much later, boots on the local adapter without asking
    again. *)
Theorem continue_with_local_storage_sticks ds dm d w :
  needsDriveAuth (ui w) = false ->
  let w1 := exec (init ds dm) w in
  needsDriveAuth (ui w1) = true ->
  0 <= d ->
  let w2 := exec (continueWithLocalStorage >> advance d) w1 in
  let w3 := exec (init ds dm) (reload ds dm w2) in
  (active_of w2 = LocalStorageAdapter
   /\ pref_of w2 = None
   /\ needsDriveAuth (ui w2) = false
   /\ calls_since w1 w2 = [CallSetAdapter LocalStorageAdapter])
  /\ (active_of w3 = LocalStorageAdapter
      /\ pref_of w3 = None
      /\ needsDriveAuth (ui w3) = false
      /\ isLoading (ui w3) = false).
Proof.
  intros H0 w1 H1 Hd w2 w3.
  destruct (init_ends ds dm w) as (_ & _ & Hre).
  destruct (Hre H0 H1) as (_ & Hun & _). fold w1 in Hun.
  set (wc := exec continueWithLocalStorage w1).
  assert (w2 = exec (advance d) wc) as Hw2.
  { unfold w2, exec at 1. rewrite (run_seq _ _ w1 tt) by reflexivity. reflexivity. }
  destruct (advance_run d wc) as (wa & Ea & Hva & Haa & Hsa & Hua & Hla & _).
  pose proof (advance_clock d wc Hd) as Hck.
  unfold exec in Hw2, Hck. rewrite Ea in Hw2, Hck. cbn [snd] in Hw2, Hck. subst wa.
  assert (storage w2 = storage wc /\ ui w2 = ui wc
          /\ localStorage (win w2) = localStorage (win wc)) as (Hs2 & Hu2 & Hl2)
    by tauto.
  assert (pref_of w2 = None) as Hp2.
  { unfold pref_of. rewrite Hl2. unfold wc, exec.
    rewrite continueWithLocalStorage_run. cbn. apply lookup_delete_eq. }
  split.
  - unfold active_of, calls_since. rewrite Hs2, Hu2. unfold wc, exec.
    rewrite continueWithLocalStorage_run. cbn. rewrite drop_app_length.
    now repeat split.
  - set (wr := reload ds dm w2).
    assert (pref_of wr = None) as Hpr by exact Hp2.
    assert (stored_token_usable wr = false) as Hur.
    { apply (unusable_later w1).
      - change (localStorage (win w2) !! "gdrive_token"
                = localStorage (win w1) !! "gdrive_token").
        rewrite Hl2. unfold wc, exec. rewrite continueWithLocalStorage_run. cbn.
        now rewrite lookup_delete_ne by discriminate.
      - change (localStorage (win w2) !! "gdrive_expiry"
                = localStorage (win w1) !! "gdrive_expiry").
        rewrite Hl2. unfold wc, exec. rewrite continueWithLocalStorage_run. cbn.
        now rewrite lookup_delete_ne by discriminate.
      - change (clock (win w1) <= clock (win w2)). rewrite Hck. unfold wc, exec.
        rewrite continueWithLocalStorage_run. cbn. lia.
      - exact Hun. }
    unfold w3, exec. fold wr. rewrite (init_local ds dm wr Hpr Hur).
    destruct (loadData_run ds dm wr) as (_ & Hl & Hn & Ha & _).
    pose proof (pref_of_loadData ds dm wr) as Hp.
    unfold keeps, exec in *. rewrite Ha, Hp, Hn. now repeat split.
Qed.

Lemma continue_with_local_storage_sticks_witness :
  let w1 := exec (init [] []) (returning_visit true 1699999999999 []) in
  active_of (exec (init [] [])
               (reload [] [] (exec (continueWithLocalStorage >> advance 86400000) w1)))
  = LocalStorageAdapter.
Proof.
  intros w1.
  apply (continue_with_local_storage_sticks [] [] 86400000
           (returning_visit true 1699999999999 []));
    [reflexivity|vm_compute; reflexivity|lia].
Defined.

(** The bulk load shows no dialog. *)
Lemma alerts_storage_get k : preserves (keeps alerts_of) (storage_get k).
Proof.
  assert (preserves (keeps alerts_of) (send (ReqGet ""))) as _ by (intros w; reflexivity).
  assert (forall q, preserves (keeps alerts_of) (send q)) as Hsend
    by (intros q w; reflexivity).
  assert (preserves (keeps alerts_of) loadAllData) as Hl.
  { unfold loadAllData, drive_files_get. keeping. }
  unfold storage_get, local_getItem, getItem. keeping.
Qed.

Lemma alerts_storage_set k v : preserves (keeps alerts_of) (storage_set k v).
Proof. unfold storage_set, local_setItem, setItem, setTimeout. keeping. Qed.

Lemma alerts_commit changed : preserves (keeps alerts_of) (commit changed).
Proof.
  pose proof alerts_storage_set.
  unfold commit, save_effects, run_effects, save_enabledWidgets, save_widgetVisibility,
    save_currentSpace, save_settings, save_todoistConfig, save_musicState,
    save_customSpaces.
  keeping.
Qed.

Lemma alerts_loadGoogleScripts : preserves (keeps alerts_of) loadGoogleScripts.
Proof. unfold loadGoogleScripts. keeping. Qed.

Lemma alerts_find_by_id v xs : preserves (keeps alerts_of) (find_by_id v xs).
Proof. induction xs as [|x xs IH]; cbn; unfold member; keeping. Qed.

Lemma alerts_loadData ds dm : preserves (keeps alerts_of) (loadData ds dm).
Proof.
  pose proof alerts_storage_get. pose proof alerts_commit.
  pose proof alerts_loadGoogleScripts. pose proof alerts_find_by_id.
  unfold loadData, spread. keeping.
Qed.

Lemma alerts_connect : preserves (keeps alerts_of) connect.
Proof.
  assert (forall q, preserves (keeps alerts_of) (send q)) as Hsend
    by (intros q w; reflexivity).
  assert (preserves (keeps alerts_of) loadAllData) as Hl.
  { unfold loadAllData, drive_files_get. keeping. }
  pose proof alerts_loadGoogleScripts.
  unfold connect, authenticate, saveToken, findOrCreateConfigFile, drive_files_list,
    createConfigFile, fetch_create, ls_setItem.
  keeping.
Qed.

(** [connect] leaves the recorded preference, the facade and the shell
    state alone. *)
Lemma preference_side_connect : preserves (keeps preference_side) connect.
Proof.
  assert (preserves (keeps preference_side) authenticate) as Ha.
  { unfold authenticate, saveToken, gapi_setToken, ls_setItem, Date_now.
    intros w. unfold keeps, preference_side, exec, gapi_client_present. run.
    destruct (tokenClient (vars w)); cbn; [|reflexivity].
    destruct (consent (env (cloud w))); cbn; [|reflexivity].
    destruct (gapiInited (vars w)); cbn;
      rewrite !lookup_insert_ne by discriminate; reflexivity. }
  unfold connect. keeping.
Qed.

(** X15.  The Connect button of the reconnect screen always ends with the
    load finished and the reconnect screen gone, and never throws.  When
    [connect] succeeds the remote adapter is active and no dialog is shown;
    the recorded preference is not touched.  When [connect] throws, one
    alert names the failure, the facade is given the local adapter and the
    recorded preference is removed, so that the next visit boots on local
    storage unless a usable token is found. *)
Theorem handleDriveConnect_outcomes ds dm w :
  let w0 := with_ui (set_isLoading true) w in
  let w' := exec (handleDriveConnect ds dm) w in
  eval (handleDriveConnect ds dm) w = Ok tt
  /\ isLoading (ui w') = false
  /\ needsDriveAuth (ui w') = false
  /\ (eval connect w0 = Ok true ->
      active_of w' = GoogleDriveAdapter
      /\ pref_of w' = pref_of w
      /\ alerts_of w' = alerts_of w)
  /\ (forall e, eval connect w0 = Throw e ->
      active_of w' = LocalStorageAdapter
      /\ pref_of w' = None
      /\ alerts_of w'
         = (alerts_of w ++ ["Failed to connect: " +:+ error_text e
                            +:+ ". Switching to local storage."])%list).
Proof.
  intros w0 w'. remember w' as wf eqn:Ewf. subst w'.
  assert (eval (handleDriveConnect ds dm) w = Ok tt) as Hev.
  { assert (total (handleDriveConnect ds dm)) as Ht.
    { unfold handleDriveConnect. totality; auto with totals. }
    destruct (Ht w) as ([] & T). exact T. }
  split; [exact Hev|].
  unfold handleDriveConnect, exec, bind at 1, modify in Ewf. fold w0 in Ewf.
  pose proof (preference_side_connect w0) as Hpc.
  pose proof (alerts_connect w0) as Hac.
  unfold keeps, exec, eval, try_catch in *. unfold bind at 1 in Ewf.
  destruct (connect w0) as [[b|e] w1]; cbn [fst snd] in *;
    unfold preference_side in Hpc; injection Hpc as Hp1 Hs1 Hu1.
  - unfold bind at 1, storage_setAdapter, modify in Ewf.
    unfold bind at 1 in Ewf. cbn [fst snd] in Ewf.
    match type of Ewf with
    | context [loadData ds dm ?W] =>
        destruct (loadData_run ds dm W) as (Hl & Hi & Hn & Ha & _);
          pose proof (pref_of_loadData ds dm W) as Hp;
          pose proof (alerts_loadData ds dm W) as Hal;
          unfold keeps, exec, eval in Hl, Hi, Hn, Ha, Hp, Hal;
          destruct (loadData ds dm W) as [[[]|] w4]; [|discriminate]
    end.
    cbn [fst snd] in *. subst wf.
    split; [exact Hi|]. split; [exact Hn|]. split; [|intros ? ?; discriminate].
    intros _. split; [exact Ha|]. split.
    + rewrite Hp. unfold pref_of. cbn. exact Hp1.
    + rewrite Hal. unfold alerts_of in *. cbn. exact Hac.
  - unfold bind at 1, console_error, modify in Ewf. unfold bind at 1, alert, modify in Ewf.
    unfold bind at 1, storage_setAdapter, modify in Ewf.
    unfold bind at 1, ls_removeItem, modify in Ewf.
    unfold bind at 1, modify in Ewf. cbn [fst snd] in Ewf.
    match type of Ewf with
    | context [loadData ds dm ?W] =>
        destruct (loadData_run ds dm W) as (Hl & Hi & Hn & Ha & _);
          pose proof (pref_of_loadData ds dm W) as Hp;
          pose proof (alerts_loadData ds dm W) as Hal;
          unfold keeps, exec, eval in Hl, Hi, Hn, Ha, Hp, Hal;
          destruct (loadData ds dm W) as [[[]|] w4]; [|discriminate]
    end.
    cbn [fst snd] in *. subst wf.
    split; [exact Hi|]. split; [exact Hn|]. split; [intros ?; discriminate|].
    intros e' [= <-]. split; [exact Ha|]. split.
    + rewrite Hp. unfold pref_of. cbn. apply lookup_delete_eq.
    + rewrite Hal. unfold alerts_of in *. cbn. now rewrite Hac.
Qed.

Lemma handleDriveConnect_outcomes_witness :
  active_of (exec (handleDriveConnect [] []) refusing_visit) = LocalStorageAdapter
  /\ pref_of (exec (handleDriveConnect [] []) refusing_visit) = None.
Proof.
  destruct (handleDriveConnect_outcomes [] [] refusing_visit) as (_ & _ & _ & _ & H).
  destruct (H (ConsentError "access_denied") ltac:(vm_compute; reflexivity))
    as (Ha & Hp & _).
  split; assumption.
Defined.

(** The remote path of the boot effect once the session is restored. *)
Lemma start_with_restored ds dm w :
  eval initialize w = Ok tt ->
  eval restoreSession (exec initialize w) = Ok true ->
  start_with ds dm (Some "gdrive") w
  = (storage_setAdapter GoogleDriveAdapter >> loadData ds dm)
      (exec restoreSession (exec initialize w)).
Proof.
  intros Hi Hr. unfold start_with. rewrite bool_decide_eq_true_2 by reflexivity.
  destruct (total_loadData ds dm
              (exec (storage_setAdapter GoogleDriveAdapter)
                 (exec restoreSession (exec initialize w)))) as ([] & Hl).
  unfold try_catch, bind, eval, exec in *.
  destruct (initialize w) as [[[]|e] w1]; cbn [fst snd] in *; [|discriminate].
  destruct (restoreSession w1) as [[b|e] w2]; cbn [fst snd] in *; [|discriminate].
  injection Hr as ->. cbn [storage_setAdapter modify fst snd] in *.
  match goal with
  | |- context [loadData ds dm ?W] => destruct (loadData ds dm W) as [[[]|e] w3]
  end; cbn in *; [reflexivity|discriminate].
Qed.

(** X16.  The settings panel's "Connect Drive" button.  When [connect]
    throws, one alert names the failure and nothing else changes: the
    facade keeps its adapter, the recorded preference and the shell state
    are as before.  When [connect] succeeds, the preference ['gdrive'] is
    recorded, the remote adapter is activated, the data is loaded again
    and the load ends with [isLoading] false. *)
Theorem connectDrive_outcomes ds dm w :
  let w' := exec (connectDrive ds dm) w in
  eval (connectDrive ds dm) w = Ok tt
  /\ (forall e, eval connect w = Throw e ->
      storage w' = storage w /\ ui w' = ui w /\ pref_of w' = pref_of w
      /\ alerts_of w'
         = (alerts_of w ++ ["Failed to connect to Google Drive: " +:+ error_text e])%list)
  /\ (eval connect w = Ok true ->
      pref_of w' = Some "gdrive"
      /\ active_of w' = GoogleDriveAdapter
      /\ needsDriveAuth (ui w') = false
      /\ isLoading (ui w') = false
      /\ alerts_of w' = (alerts_of w ++ ["Connected! Data will sync automatically."])%list).
Proof.
  intros w'. remember w' as wf eqn:Ewf. subst w'.
  assert (eval (connectDrive ds dm) w = Ok tt) as Hev.
  { assert (total (connectDrive ds dm)) as Ht.
    { unfold connectDrive, onDriveConnected. totality; auto with totals. }
    destruct (Ht w) as ([] & T). exact T. }
  split; [exact Hev|].
  unfold connectDrive, exec, try_catch in Ewf. unfold bind at 1 in Ewf.
  pose proof (preference_side_connect w) as Hpc.
  pose proof (alerts_connect w) as Hac.
  unfold keeps, exec, eval in *.
  destruct (connect w) as [[b|e] w1]; cbn [fst snd] in *;
    unfold preference_side in Hpc; injection Hpc as Hp1 Hs1 Hu1.
  - split; [intros ? ?; discriminate|]. intros [= ->].
    unfold when, onDriveConnected in Ewf.
    unfold bind at 1 in Ewf. unfold bind at 1, ls_setItem, modify in Ewf.
    unfold bind at 1, storage_setAdapter, modify in Ewf.
    unfold bind at 1, modify in Ewf. unfold bind at 1 in Ewf. cbn [fst snd] in Ewf.
    match type of Ewf with
    | context [loadData ds dm ?W] =>
        destruct (loadData_run ds dm W) as (Hl & Hi & Hn & Ha & _);
          pose proof (pref_of_loadData ds dm W) as Hp;
          pose proof (alerts_loadData ds dm W) as Hal;
          unfold keeps, exec, eval in Hl, Hi, Hn, Ha, Hp, Hal;
          destruct (loadData ds dm W) as [[[]|] w4]; [|discriminate]
    end.
    cbn [fst snd] in *. subst wf. cbn.
    split; [|split; [exact Ha|split; [exact Hn|split; [exact Hi|]]]].
    + unfold pref_of in *. cbn in *. rewrite Hp. apply lookup_insert_eq.
    + unfold alerts_of in *. cbn in *. now rewrite Hal, Hac.
  - split; [|intros ?; discriminate]. intros e' [= <-].
    cbn in Ewf. subst wf. cbn. unfold pref_of, alerts_of in *. cbn.
    now rewrite Hs1, Hu1, Hp1, Hac.
Qed.

Lemma connectDrive_outcomes_witness :
  pref_of (exec (connectDrive [] []) loaded_locally) = Some "gdrive"
  /\ active_of (exec (connectDrive [] []) loaded_locally) = GoogleDriveAdapter.
Proof.
  destruct (connectDrive_outcomes [] [] loaded_locally) as (_ & _ & H).
  destruct (H ltac:(vm_compute; reflexivity)) as (Hp & Ha & _).
  split; assumption.
Defined.

(** X17.  The settings panel's Drive "Disconnect" does not last while
    the token does.  It hands the facade the local adapter and reloads the
    page, but it leaves the recorded preference ['gdrive'] and the stored
    token in place: on the reloaded page the boot effect restores the
    session and activates the remote adapter again, provided the token has
    not expired, the client libraries load and the requests go through. *)
Theorem disconnect_does_not_stick ds dm w tok :
  pref_of w = Some "gdrive" ->
  localStorage (win w) !! "gdrive_token" = Some tok ->
  stored_token_usable w = true ->
  preloaded (env (cloud w)) = false ->
  gapi_loads (env (cloud w)) = true -> gis_loads (env (cloud w)) = true ->
  outcome_at 0 w = NetOk ->
  matching_files w <> [] \/ outcome_at 1 w <> NetDown ->
  let w' := exec (init ds dm) (disconnectDrive ds dm w) in
  active_of (disconnectDrive ds dm w) = LocalStorageAdapter
  /\ pref_of (disconnectDrive ds dm w) = Some "gdrive"
  /\ active_of w' = GoogleDriveAdapter
  /\ needsDriveAuth (ui w') = false
  /\ isLoading (ui w') = false.
Proof.
  intros Hp Htok Hu Hpre Hga Hgi H0 Hnet w'.
  set (wr := disconnectDrive ds dm w) in *.
  assert (localStorage (win wr) = localStorage (win w)) as Hl by reflexivity.
  assert (clock (win wr) = clock (win w)) as Hk by reflexivity.
  assert (cloud wr = cloud w) as Hc by reflexivity.
  split; [reflexivity|]. split; [exact Hp|].
  assert (scripts_will_load wr) as Hload.
  { right. rewrite Hc. repeat split; assumption. }
  destruct (initialize_ready wr Hload)
    as (w1 & Ei & Hr1 & Ha1 & Hw1 & Hc1 & Hs1 & Hu1 & _).
  assert (eval initialize wr = Ok tt) as Hi by (unfold eval; now rewrite Ei).
  assert (exec initialize wr = w1) as Hx by (unfold exec; now rewrite Ei).
  destruct (restoreSession_succeeds w1 tok) as (Hrs & _ & _ & _ & _ & Hq & _).
  { now left. }
  { now rewrite Hw1. }
  { rewrite <- Hu. apply usable_of_token_store. unfold token_store_of.
    now rewrite Hw1. }
  { unfold outcome_at in *. now rewrite Hc1. }
  { unfold matching_files, outcome_at in *. now rewrite Hc1. }
  unfold w', exec. rewrite init_run.
  replace (pref_of wr) with (Some "gdrive") by (symmetry; exact Hp).
  cbn [truthy_str String.eqb negb].
  rewrite (start_with_restored ds dm wr Hi) by (now rewrite Hx).
  rewrite Hx. set (w2 := exec restoreSession w1) in *.
  assert (needsDriveAuth (ui w2) = false) as Hn2.
  { unfold quiet_of in Hq. injection Hq as _ Hui _ _ _ _. rewrite Hui, Hu1.
    reflexivity. }
  unfold bind, storage_setAdapter, modify.
  match goal with
  | |- context [loadData ds dm ?W] =>
      destruct (loadData_run ds dm W) as (_ & Hl' & Hn' & Ha' & _)
  end.
  unfold exec in *. rewrite Ha', Hn', Hl'. cbn. now repeat split.
Qed.

Lemma disconnect_does_not_stick_witness :
  active_of (exec (init [] [])
               (disconnectDrive [] [] (exec (connectDrive [] []) loaded_locally)))
  = GoogleDriveAdapter.
Proof.
  apply (disconnect_does_not_stick [] [] (exec (connectDrive [] []) loaded_locally)
           "ya29.demo");
    try (vm_compute; reflexivity).
  left. vm_compute. discriminate.
Defined.

(** ** A setting changed on the remote adapter is there at the next boot *)

Lemma restoreSession_after_initialize w :
  eval initialize w = Ok tt ->
  restoreSession (exec initialize w) = restoreSession w.
Proof.
  intros Hi.
  destruct (loadGoogleScripts_settles w) as (p & Hp & He).
  unfold initialize in *. rewrite Hi in He. destruct p; [|discriminate]. clear He.
  pose proof (loadGoogleScripts_settled _ _ Hp) as E2.
  unfold eval, exec in *.
  destruct (loadGoogleScripts w) as [[[]|e] w1] eqn:E1; [|discriminate Hi].
  cbn [snd] in *. unfold restoreSession.
  match goal with
  | |- bind ?T ?K w1 = bind ?T ?K w =>
      assert (T w = (Ok true, w1)) as ET
        by (unfold try_catch, bind, initialize; now rewrite E1);
      assert (T w1 = (Ok true, w1)) as ET1
        by (unfold try_catch, bind, initialize; now rewrite E2);
      change (bind T K w1) with
        (match T w1 with (Ok a, w') => K a w' | (Throw e, w') => (Throw e, w') end);
      change (bind T K w) with
        (match T w with (Ok a, w') => K a w' | (Throw e, w') => (Throw e, w') end);
      rewrite ET, ET1
  end.
  reflexivity.
Qed.

Lemma hydrated_keeps w w' : read_side w' = read_side w -> hydrated w -> hydrated w'.
Proof.
  unfold read_side, hydrated. intros E. injection E as -> -> -> ->. tauto.
Qed.

(** A read through the facade on a hydrated remote adapter: the cache
    entry, or [null]; only the call log grows. *)
Lemma storage_get_hydrated k w :
  hydrated w ->
  storage_get k w =
  (Ok (js_or (get_prop k (cache (adapter w))) VNull),
   with_storage (push_call (CallGet k)) w).
Proof.
  intros (Ha & Hc & Hconn). unfold storage_get, bind, modify, get. cbn [fst snd].
  cbn [with_storage storage push_call active]. rewrite Ha.
  rewrite (getItem_pure k _) by (left; exact Hc). cbn.
  destruct (truthy_str (accessToken (vars w))), (truthy_str (configFileId (vars w)));
    try discriminate; reflexivity.
Qed.

Lemma total_find_by_id_objects v xs : Forall is_object xs -> total (find_by_id v xs).
Proof.
  induction 1 as [|x xs Hx Hxs IH]; cbn; [apply total_ret|].
  destruct x; try contradiction. cbn [member].
  apply total_bind; [apply total_ret|]. intros a. destruct (strict_eq a v); [apply total_ret|].
  exact IH.
Qed.

Lemma ui_find_by_id v xs : preserves (keeps ui) (find_by_id v xs).
Proof. induction xs as [|x xs IH]; cbn; unfold member; keeping. Qed.

Lemma settings_of_ui {A} (m : M A) :
  preserves (keeps ui) m -> preserves (keeps (fun w => settings (ui w))) m.
Proof. apply preserves_weaken. unfold keeps. intros w w' H. now rewrite H. Qed.

(** The bulk load on a hydrated remote adapter takes the settings from
    the cache. *)
Lemma read_side_load_scripts :
  preserves (keeps read_side)
    (try_catch loadGoogleScripts (fun e => console_error (error_text e))).
Proof. unfold loadGoogleScripts. keeping. Qed.

(** One read of the bulk load on a hydrated adapter whose cache is [c]:
    the value read gets a name, and so does the world the load goes on
    in. *)
Lemma read_hydrated {B} k (K : value -> M B) (c : document) W :
  hydrated W -> cache (adapter W) = c ->
  exists W',
    exec (bind (storage_get k) K) W = exec (K (js_or (get_prop k c) VNull)) W'
    /\ hydrated W' /\ cache (adapter W') = c.
Proof.
  intros Hh Hc. exists (with_storage (push_call (CallGet k)) W). split; [|split].
  - unfold exec at 1, bind at 1. rewrite (storage_get_hydrated k W Hh), Hc.
    reflexivity.
  - apply (hydrated_keeps W); [reflexivity|exact Hh].
  - exact Hc.
Qed.

Lemma exec_ret_bind {A B} (a : A) (K : A -> M B) W :
  exec (bind (ret a) K) W = exec (K a) W.
Proof. reflexivity. Qed.

Ltac read_step :=
  match goal with
  | Hh : hydrated ?W, Hc : cache (adapter ?W) = ?c
    |- context [exec (bind (storage_get ?k) ?K) ?W] =>
      let W' := fresh "W" in
      let E := fresh "E" in
      let Hh' := fresh "Hh" in
      let Hc' := fresh "Hc" in
      destruct (read_hydrated k K c W Hh Hc) as (W' & E & Hh' & Hc');
      rewrite E; clear E Hh Hc; try clear W;
      let a := fresh "a" in
      let Ea := fresh "Ea" in
      remember (js_or (get_prop k c) VNull) as a eqn:Ea;
      cbv beta
  end.

Lemma loadData_settings_hydrated ds dm v w :
  hydrated w ->
  cache (adapter w) !! "focusnook-settings" = Some v -> truthy v = true ->
  cache (adapter w) !! "focusnook-custom-spaces" = None ->
  Forall is_object ds ->
  settings (ui (exec (loadData ds dm) w)) = v.
Proof.
  intros Hh Hset Hv Hcs Hds.
  pose proof (settings_of_ui _ (ui_commit all_pieces)) as Hcommit.
  assert (forall k, preserves (keeps (fun w => settings (ui w))) (storage_get k)) as Hget.
  { intros k. apply settings_of_ui, ui_storage_get. }
  assert (forall x xs, preserves (keeps (fun w => settings (ui w))) (find_by_id x xs))
    as Hfind.
  { intros x xs. apply settings_of_ui, ui_find_by_id. }
  unfold loadData.
  match goal with
  | |- context [exec (bind (modify (with_ui (set_isLoading true))) ?K) w] =>
      destruct (exec_bind_total (modify (with_ui (set_isLoading true))) K w
                  ltac:(apply total_modify)) as ([] & _ & ->)
  end.
  set (w0 := exec (modify (with_ui (set_isLoading true))) w).
  assert (hydrated w0) as Hh0 by (apply (hydrated_keeps w); [reflexivity|exact Hh]).
  remember (cache (adapter w)) as c eqn:Ec.
  assert (cache (adapter w0) = c) as Hc0 by (now rewrite Ec).
  clearbody w0.
  (* what follows the [try] keeps the settings *)
  match goal with
  | |- context [exec (bind (try_catch ?T ?h) ?K) w0] =>
      destruct (exec_bind_total (try_catch T h) K w0) as ([] & _ & ->);
        [totality; auto with totals|];
      rewrite (keeps_at (fun w => settings (ui w)) (K tt)) by keeping;
      rewrite (keeps_try_catch_handler (fun w => settings (ui w)) T h)
        by (intros ?; keeping)
  end.
  (* the library preload *)
  match goal with
  | |- context [exec (bind (try_catch loadGoogleScripts ?h) ?K) w0] =>
      destruct (exec_bind_total (try_catch loadGoogleScripts h) K w0
                  total_load_scripts) as ([] & _ & ->)
  end.
  pose proof (read_side_load_scripts w0) as Hr1. unfold keeps in Hr1.
  set (w1 := exec (try_catch loadGoogleScripts _) w0) in *.
  assert (hydrated w1) as Hh1 by (apply (hydrated_keeps w0); assumption).
  assert (cache (adapter w1) = c) as Hc1.
  { rewrite <- Hc0. unfold read_side in Hr1. now injection Hr1. }
  clearbody w1. clear Hr1 Hh0 Hc0 w0 Hh.
  (* the eight reads *)
  do 8 read_step.
  unfold get_prop in *. rewrite Hcs in *. rewrite Hset in *.
  cbn [default from_option Datatypes.id] in *.
  change (js_or VUndefined VNull) with VNull in *.
  assert (js_or v VNull = v) as Ev by (unfold js_or; now rewrite Hv).
  rewrite Ev in *.
  repeat match goal with H : _ = js_or _ _ |- _ => clear H end.
  repeat match goal with H : ?a = VNull |- _ => subst a end.
  repeat match goal with H : ?a = v |- _ => subst a end.
  cbn [truthy when js_or spread]. rewrite !exec_ret_bind. cbv beta.
  rewrite app_nil_r.
  (* the state setters before [setSettings] *)
  match goal with
  | |- context [exec (bind ?m ?K) ?W] =>
      destruct (exec_bind_total m K W) as ([] & _ & ->);
        [apply total_when; totality; auto using total_find_by_id_objects|];
      generalize (exec m W)
  end.
  intros X1.
  match goal with
  | |- context [exec (bind ?m ?K) X1] =>
      destruct (exec_bind_total m K X1) as ([] & _ & ->); [totality|];
      generalize (exec m X1)
  end.
  clear X1. intros X1.
  match goal with
  | |- context [exec (bind ?m ?K) X1] =>
      destruct (exec_bind_total m K X1) as ([] & _ & ->); [totality|];
      generalize (exec m X1)
  end.
  clear X1. intros X1.
  (* [setSettings] and what follows *)
  rewrite Hv. cbn [when].
  match goal with
  | |- context [exec (bind ?m ?K) X1] =>
      destruct (exec_bind_total m K X1) as ([] & _ & ->); [totality|];
      rewrite (keeps_at (fun w => settings (ui w)) (K tt))
        by (unfold spread; keeping)
  end.
  reflexivity.
Qed.

(** A settings change on a loaded page whose facade holds the remote
    adapter is one [setItem]. *)
Lemma mutate_settings_on_drive v w :
  active (storage w) = GoogleDriveAdapter -> isLoading (ui w) = false ->
  mutate Settings v w
  = setItem "focusnook-settings" v
      (with_storage (push_call (CallSet "focusnook-settings" v))
         (with_ui (set_settings v) w)).
Proof.
  intros Ha Hl. destruct w as [m a b r [act le cs] u]. destruct u.
  cbn in Ha, Hl. subst.
  unfold mutate, commit, save_effects, run_effects, save_enabledWidgets,
    save_widgetVisibility, save_currentSpace, save_settings, save_todoistConfig,
    save_musicState, save_customSpaces, storage_set.
  cbn [depends_on existsb piece_eqb orb when setter].
  run. cbn -[setItem].
  match goal with
  | |- context [setItem ?k ?x ?W] => destruct (setItem k x W) as [[[]|e] w']
  end; reflexivity.
Qed.

(** X18.  A settings change made on a page backed by the remote adapter
    is there at the next visit.  On a loaded page whose facade holds the
    remote adapter, with ['gdrive'] recorded, the backing file first among
    the matches and the network up: the new settings value is passed to
    [storage.set], flushed after the quiet period, and, after a reload
    within the lifetime of the stored token, read back by the boot effect
    into the shell state, for every JSON-serializable value that is not
    falsy, provided nothing is stored under ['focusnook-custom-spaces']
    and the default spaces are objects. *)
Theorem settings_survive_reload_on_drive ds dm v d w fid f fs tok e t :
  active (storage w) = GoogleDriveAdapter -> isLoading (ui w) = false ->
  pref_of w = Some "gdrive" ->
  tracked w ->
  configFileId (vars w) = Some fid -> fid <> "" ->
  matching_files w = f :: fs -> file_id f = fid ->
  find_file fid (drive (cloud w)) = Some f ->
  net (cloud w) = [] ->
  preloaded (env (cloud w)) = false ->
  gapi_loads (env (cloud w)) = true -> gis_loads (env (cloud w)) = true ->
  localStorage (win w) !! "gdrive_token" = Some tok -> tok <> "" ->
  localStorage (win w) !! "gdrive_expiry" = Some e -> e <> "" ->
  Number e = Some t -> clock (win w) + d < t ->
  cache (adapter w) !! "focusnook-custom-spaces" = None ->
  Forall is_object ds ->
  truthy v = true -> json_serializable v = true ->
  2000 <= d ->
  let w1 := exec (mutate Settings v >> advance d) w in
  settings (ui (exec (init ds dm) (reload ds dm w1))) = v.
Proof.
  intros Ha Hld Hp Ht Hid Hfid Hm Hf Hfind Hnet Hpre Hga Hgi Htok Htokne He Hene Hn
    Hexp Hcs Hds Hv Hser Hd w1.
  set (W := with_storage (push_call (CallSet "focusnook-settings" v))
              (with_ui (set_settings v) w)).
  assert (w1 = exec (setItem "focusnook-settings" v >> advance d) W) as Hw1.
  { unfold w1, exec, bind. rewrite (mutate_settings_on_drive v w Ha Hld). reflexivity. }
  destruct (flush_reload_restore ds dm "focusnook-settings" v d W fid f fs tok e t
              Ht Hid Hfid Hm Hf Hfind Hnet Hpre Hga Hgi Htok Htokne He Hene Hn Hexp Hd)
    as (_ & w4 & Hrun & Hcache & Hid4 & _ & _ & _ & _ & Hlr & Hload).
  rewrite <- Hw1 in Hrun, Hlr, Hload.
  set (wr := reload ds dm w1) in *.
  assert (pref_of wr = Some "gdrive") as Hpr.
  { unfold pref_of. rewrite Hlr. exact Hp. }
  destruct (initialize_ready wr Hload) as (wi & Ei & _).
  assert (eval initialize wr = Ok tt) as Hi by (unfold eval; now rewrite Ei).
  pose proof (restoreSession_after_initialize wr Hi) as Hsame.
  unfold exec at 1. rewrite init_run, Hpr. cbn [truthy_str String.eqb negb].
  rewrite (start_with_restored ds dm wr Hi)
    by (unfold eval; now rewrite Hsame, Hrun).
  assert (exec restoreSession (exec initialize wr) = w4) as Hx
    by (unfold exec at 1; now rewrite Hsame, Hrun).
  rewrite Hx.
  unfold bind, storage_setAdapter, modify.
  match goal with
  | |- settings (ui (snd (loadData ds dm ?W5))) = v =>
      change (settings (ui (exec (loadData ds dm) W5)) = v);
      apply loadData_settings_hydrated
  end; try assumption.
  - split; [reflexivity|]. split.
    + cbn. rewrite Hcache. intros E0.
      assert (jsonify_doc (<["focusnook-settings" := v]> (cache (adapter W)))
                !! "focusnook-settings" = Some v) as Hk
        by (apply jsonify_doc_lookup; [apply lookup_insert_eq|exact Hser]).
      rewrite E0, lookup_empty in Hk. discriminate.
    + cbn. rewrite Hid4. cbn. destruct fid; [congruence|]. cbn. apply orb_true_r.
  - cbn. rewrite Hcache. apply jsonify_doc_lookup; [apply lookup_insert_eq|exact Hser].
  - cbn. rewrite Hcache. apply jsonify_doc_absent.
    rewrite lookup_insert_ne by discriminate. exact Hcs.
Qed.

Lemma settings_survive_reload_on_drive_witness :
  let w := exec (connectDrive [] []) loaded_locally in
  let darker := VObj [("widgetOpacity", VNum 1); ("showClock", VBool false)] in
  settings (ui (exec (init [] [])
                  (reload [] [] (exec (mutate Settings darker >> advance 2000) w))))
  = darker.
Proof.
  intros w darker.
  apply (settings_survive_reload_on_drive [] [] darker 2000 w "file-0"
           (new_config_file (exec initialize first_visit)) [] "ya29.demo"
           "1700003550000" 1700003550000);
    try (vm_compute; reflexivity).
  - intros tm. vm_compute. intros [<-|[]]. reflexivity.
  - discriminate.
  - discriminate.
  - discriminate.
  - constructor.
  - lia.
Defined.
